(** * googlephotos2nextcloud: the resolution-and-upload pipeline

    A shallow embedding of [src/src/googlephotos2nextcloud.go], the variant
    of the pipeline with retries, EXIF fallback and directory provisioning,
    together with the properties of its timestamp resolution, path index,
    directory provisioning and upload scheduling.

    Conventions of the embedding:
    - Go strings are byte strings and are modelled by [string]; Go [int] and
      [int64] values by [Z] (the counters stay far from the 64-bit bounds).
    - The global [myMap] is a [gmap string string] that the functions take
      and return; the two global counters are fields of a state record.
    - The file system and the remote server are parameters: what a walk
      visits, what reading a file gives, what the server answers. The file
      system is the same throughout a run; the server is a state machine.
      [json.Unmarshal] and [metadata.Parse] are not modelled: reading a
      file gives the value they leave behind.
    - Of the output, the network phases keep a trace: requests, responses,
      logged retries, sleeps and log lines. The resolution phases print
      only, and their prints are left out.
    - The goroutines of [uploadMediaFilesToNextcloud] are modelled by an
      interleaving of steps, one statement group of one goroutine at a
      time, with channels as queues and wait groups as counters. *)

From Stdlib Require Import ZArith Ascii String List Lia Bool.
From stdpp Require Import base option list strings gmap fin_maps.

Local Open Scope string_scope.
Local Open Scope Z_scope.

(** ** Go's [strings] package (the functions the program calls) *)

Module GoStrings.

(** [strings.HasPrefix]. *)
Fixpoint HasPrefix (s p : string) : bool :=
  match p, s with
  | EmptyString, _ => true
  | String _ _, EmptyString => false
  | String b p', String a s' => if Ascii.eqb a b then HasPrefix s' p' else false
  end.

(** [strings.Contains]: [substr] occurs somewhere in [s]. *)
Fixpoint Contains (s substr : string) : bool :=
  HasPrefix s substr ||
  match s with
  | EmptyString => false
  | String _ s' => Contains s' substr
  end.

(** [strings.Count(s, string(c))] for a one-byte separator. *)
Fixpoint CountByte (s : string) (c : ascii) : Z :=
  match s with
  | EmptyString => 0
  | String a s' => (if Ascii.eqb a c then 1 else 0) + CountByte s' c
  end.

(** [strings.Split(s, string(c))] for a one-byte separator: the pieces
    between the separators; a string without separator is its own single
    piece, so the result is never empty. [SplitByte] returns the first
    piece and the remaining ones. *)
Fixpoint SplitByte (s : string) (c : ascii) : string * list string :=
  match s with
  | EmptyString => (EmptyString, [])
  | String a s' =>
      let '(hd, tl) := SplitByte s' c in
      if Ascii.eqb a c then (EmptyString, hd :: tl) else (String a hd, tl)
  end.

Definition Split (s : string) (c : ascii) : list string :=
  let '(hd, tl) := SplitByte s c in hd :: tl.

(** [strings.Join(l, sep)]. *)
Fixpoint Join (l : list string) (sep : string) : string :=
  match l with
  | [] => ""
  | [x] => x
  | x :: l' => x ++ sep ++ Join l' sep
  end.

(** [strings.HasSuffix]: [s] is at least as long as [suffix] and its last
    [len(suffix)] bytes are [suffix]. *)
Definition HasSuffix (s suffix : string) : bool :=
  (String.length suffix <=? String.length s)%nat
  && String.eqb
       (substring (String.length s - String.length suffix)%nat (String.length suffix) s)
       suffix.

(** [strings.TrimSuffix]: [s] without the trailing [suffix], [s] itself
    when it does not end with [suffix]. *)
Definition TrimSuffix (s suffix : string) : string :=
  if HasSuffix s suffix
  then substring 0 (String.length s - String.length suffix)%nat s
  else s.

End GoStrings.

(** ** Go's [path/filepath] package on a Unix system *)

Module Filepath.

Definition Separator : ascii := "/"%char.

(** Text after the last separator (the whole string when there is none),
    and the text up to and including the last separator. *)
Fixpoint lastElem (s : string) : string :=
  match s with
  | EmptyString => EmptyString
  | String a s' =>
      if GoStrings.Contains s' "/" then lastElem s'
      else if Ascii.eqb a Separator then s' else s
  end.

Fixpoint dirPart (s : string) : string :=
  match s with
  | EmptyString => EmptyString
  | String a s' =>
      if GoStrings.Contains s "/" then String a (dirPart s') else EmptyString
  end.

(** The suffix of [s] that starts at its last dot, [""] without a dot. *)
Fixpoint fromLastDot (s : string) : string :=
  match s with
  | EmptyString => EmptyString
  | String a s' =>
      if GoStrings.Contains s' "." then fromLastDot s'
      else if Ascii.eqb a "."%char then s else EmptyString
  end.

(** [filepath.Ext]: the suffix beginning at the final dot of the final
    element of the path; empty if there is no dot. *)
Definition Ext (path : string) : string := fromLastDot (lastElem path).

Fixpoint stripTrailingSlashes (s : string) : string :=
  match s with
  | EmptyString => EmptyString
  | String a s' =>
      match stripTrailingSlashes s' with
      | EmptyString => if Ascii.eqb a Separator then EmptyString else String a EmptyString
      | r => String a r
      end
  end.

(** [filepath.Base]. *)
Definition Base (path : string) : string :=
  match path with
  | EmptyString => "."
  | _ =>
      match lastElem (stripTrailingSlashes path) with
      | EmptyString => "/"
      | e => e
      end
  end.

(** One step of [Clean]'s element processing: [acc] holds the elements
    kept so far, innermost first. *)
Definition cleanStep (rooted : bool) (acc : list string) (e : string) : list string :=
  if String.eqb e "" || String.eqb e "." then acc
  else if String.eqb e ".." then
    match acc with
    | top :: rest => if String.eqb top ".." then e :: acc else rest
    | [] => if rooted then [] else [e]
    end
  else e :: acc.

(** [filepath.Clean]: collapses repeated separators, drops [.] elements,
    resolves inner [..] elements against their parent, drops [..] at the
    start of a rooted path; the empty result is ["."]. *)
Definition Clean (path : string) : string :=
  let rooted := GoStrings.HasPrefix path "/" in
  let elems := rev (fold_left (cleanStep rooted) (GoStrings.Split path Separator) []) in
  let body := GoStrings.Join elems "/" in
  if rooted then "/" ++ body
  else match body with EmptyString => "." | _ => body end.

(** [filepath.Dir]. *)
Definition Dir (path : string) : string := Clean (dirPart path).

(** [filepath.Join(a, b)]: with [a] non-empty, [Clean(a + "/" + b)]; empty
    leading elements are ignored. *)
Definition Join (a b : string) : string :=
  match a, b with
  | EmptyString, EmptyString => ""
  | EmptyString, _ => Clean b
  | _, _ => Clean (a ++ "/" ++ b)
  end.

End Filepath.

(** ** Go's [time] and [strconv] packages (the calls of [extractDateFolder]) *)

Module GoTime.

Definition isDigit (a : ascii) : bool :=
  let n := Z.of_N (N_of_ascii a) in (48 <=? n) && (n <=? 57).

Definition digitVal (a : ascii) : Z := Z.of_N (N_of_ascii a) - 48.

(** [getnum(s, fixed)]: a one- or two-digit number at the head of [s];
    with [fixed] two digits are required. *)
Definition getnum (s : string) (fixed : bool) : option (Z * string) :=
  match s with
  | String a s1 =>
      if isDigit a then
        match s1 with
        | String b s2 =>
            if isDigit b then Some (digitVal a * 10 + digitVal b, s2)
            else if fixed then None else Some (digitVal a, s1)
        | EmptyString => if fixed then None else Some (digitVal a, s1)
        end
      else None
  | EmptyString => None
  end.

(** [skip(value, prefix)] for a one-byte literal of the layout. *)
Definition skip (s : string) (c : ascii) : option string :=
  match s with
  | String a s' => if Ascii.eqb a c then Some s' else None
  | EmptyString => None
  end.

(** The four-digit year of layout element [2006]. *)
Definition getyear (s : string) : option (Z * string) :=
  match s with
  | String a (String b (String c (String d s'))) =>
      if isDigit a && isDigit b && isDigit c && isDigit d
      then Some (((digitVal a * 10 + digitVal b) * 10 + digitVal c) * 10 + digitVal d, s')
      else None
  | _ => None
  end.

Fixpoint dropDigits (s : string) : string :=
  match s with
  | String a s' => if isDigit a then dropDigits s' else s
  | EmptyString => s
  end.

(** After the seconds field [Parse] accepts a fractional second that the
    layout does not mention: a period or comma followed by digits. *)
Definition skipFraction (s : string) : string :=
  match s with
  | String a (String b s') =>
      if (Ascii.eqb a "."%char || Ascii.eqb a ","%char) && isDigit b
      then dropDigits s' else s
  | _ => s
  end.

Definition isLeap (year : Z) : bool :=
  (year mod 4 =? 0) && (negb (year mod 100 =? 0) || (year mod 400 =? 0)).

Definition daysIn (month year : Z) : Z :=
  if month =? 2 then (if isLeap year then 29 else 28)
  else if (month =? 4) || (month =? 6) || (month =? 9) || (month =? 11) then 30
  else 31.

Record Civil := { cYear : Z; cMonth : Z }.

(** [time.Parse("2006-01-02T15:04:05Z", value)]: the year and month of
    the parsed instant (which is in UTC), or [None] for a parse error. *)
Definition ParseISO (value : string) : option Civil :=
  '(year, v) ← getyear value;
  v ← skip v "-";
  '(month, v) ← getnum v true;
  guard (0 <? month);; guard (month <=? 12);;
  v ← skip v "-";
  '(day, v) ← getnum v true;
  v ← skip v "T";
  '(hour, v) ← getnum v false;
  guard (hour <? 24);;
  v ← skip v ":";
  '(minute, v) ← getnum v true;
  guard (minute <? 60);;
  v ← skip v ":";
  '(sec, v) ← getnum v true;
  guard (sec <? 60);;
  v ← skip (skipFraction v) "Z";
  guard (String.eqb v "");;
  guard (1 <=? day);; guard (day <=? daysIn month year);;
  Some {| cYear := year; cMonth := month |}.

(** Decimal digits of [s] as a number, [None] unless [s] consists of
    digits only. *)
Fixpoint digitsVal (acc : Z) (s : string) : option Z :=
  match s with
  | EmptyString => Some acc
  | String a s' => if isDigit a then digitsVal (acc * 10 + digitVal a) s' else None
  end.

(** [strconv.ParseInt(s, 10, 64)]: an optional sign and at least one
    decimal digit; a value outside the [int64] range is an error. *)
Definition ParseInt (s : string) : option Z :=
  match s with
  | EmptyString => None
  | String a s' =>
      let neg := Ascii.eqb a "-"%char in
      let body := if neg || Ascii.eqb a "+"%char then s' else s in
      match body with
      | EmptyString => None
      | _ =>
          un ← digitsVal 0 body;
          let n := if neg then - un else un in
          guard (- 2 ^ 63 <=? n);; guard (n <=? 2 ^ 63 - 1);;
          Some n
      end
  end.

(** [strconv.Atoi(s)]: the same digits, sign and range as
    [ParseInt(s, 10, 0)] with a 64-bit [int]. *)
Definition Atoi (s : string) : option Z := ParseInt s.

(** Year and month of the day that lies [days] days after 1970-01-01 in the
    proleptic Gregorian calendar. *)
Definition civilFromDays (days : Z) : Civil :=
  let z := days + 719468 in
  let era := z / 146097 in
  let doe := z - era * 146097 in
  let yoe := (doe - doe / 1460 + doe / 36524 - doe / 146096) / 365 in
  let doy := doe - (365 * yoe + yoe / 4 - yoe / 100) in
  let mp := (5 * doy + 2) / 153 in
  let m := if mp <? 10 then mp + 3 else mp - 9 in
  {| cYear := yoe + era * 400 + (if m <=? 2 then 1 else 0); cMonth := m |}.

(** A time zone: the offset in seconds east of UTC in effect at a Unix
    time ([Location.lookup]). *)
Definition Location := Z -> Z.
Definition UTC : Location := fun _ => 0.

(** A [time.Time] value: seconds since the Unix epoch, nanoseconds within
    the second, and the UTC offset of its location at that instant. *)
Record Time := { tUnix : Z; tNsec : Z; tOffset : Z }.

Definition unixToInternal : Z := 62135596800.

(** [time.Unix(sec, 0)] in the [Local] location [loc]. *)
Definition Unix (loc : Location) (sec : Z) : Time :=
  {| tUnix := sec; tNsec := 0; tOffset := loc sec |}.

(** [Time.IsZero]: the instant January 1, year 1, 00:00:00 UTC. *)
Definition IsZero (t : Time) : bool :=
  (tUnix t + unixToInternal =? 0) && (tNsec t =? 0).

(** The zero [time.Time]. *)
Definition zeroTime : Time := {| tUnix := - unixToInternal; tNsec := 0; tOffset := 0 |}.

Definition digitChar (d : Z) : ascii := ascii_of_N (Z.to_N (48 + d)).

(** Decimal digits of a non-negative number, at least one. *)
Fixpoint digitsOf (fuel : nat) (n : Z) (acc : string) : string :=
  match fuel with
  | O => acc
  | S fuel' =>
      let acc' := String (digitChar (n mod 10)) acc in
      if n / 10 =? 0 then acc' else digitsOf fuel' (n / 10) acc'
  end.

Fixpoint zeros (n : nat) : string :=
  match n with O => "" | S n' => String "0"%char (zeros n') end.

(** [appendInt(b, x, width)]: sign, then the digits zero-padded to
    [width]. *)
Definition appendInt (x : Z) (width : nat) : string :=
  let u := Z.abs x in
  let ds := digitsOf (S (Z.to_nat (Z.log2 u))) u "" in
  (if x <? 0 then "-" else "") ++ zeros (width - String.length ds) ++ ds.

(** The layout [2006/01] applied to a year and a month. *)
Definition formatCivil (c : Civil) : string :=
  appendInt (cYear c) 4 ++ "/" ++ appendInt (cMonth c) 2.

(** [Time.Format("2006/01")]: year and month of the instant in its
    location. Go computes the date from a 64-bit count of seconds since an
    internal zero year; that is the date computed here unless the count
    wraps, which takes an epoch within a few thousand million seconds of
    the smallest [int64]. *)
Definition Format (t : Time) : string :=
  formatCivil (civilFromDays ((tUnix t + tOffset t) / 86400)).

End GoTime.

(** ** The data model of the program *)

(** A Go [error] value, by its message. *)
Definition error := string.

Record TimeData := { Timestamp : string; Formatted : string }.

(** The fields of [PhotoMetadata] the program reads ([json.Unmarshal] fills
    the others too; nothing reads them). *)
Record PhotoMetadata := {
  Title : string;
  CreationTime : TimeData;
  PhotoTakenTime : TimeData
}.

(** The zero value [var metadata PhotoMetadata] starts from, which
    [json.Unmarshal] leaves untouched when the bytes are not valid JSON. *)
Definition zeroPhotoMetadata : PhotoMetadata :=
  {| Title := "";
     CreationTime := {| Timestamp := ""; Formatted := "" |};
     PhotoTakenTime := {| Timestamp := ""; Formatted := "" |} |}.

(** What reading one sidecar gives: [os.Open] fails, [ioutil.ReadAll] fails,
    or the bytes are read and [json.Unmarshal] leaves [metadata] with the
    given value (its error result is not looked at by the program). *)
Inductive SidecarRead :=
| SidecarOpenFails (err : error)
| SidecarReadFails (err : error)
| SidecarDecoded (metadata : PhotoMetadata).

(** The two fields of the embedded metadata ([metadata.Metadata]) the program
    reads. *)
Record Metadata := {
  DateTimeCreated : GoTime.Time;
  DateTimeOriginal : GoTime.Time
}.

(** What opening one media file gives: [os.Open] fails; the file is a
    directory; [metadata.Parse] fails; or it returns [meta]. *)
Inductive MediaRead :=
| MediaOpenFails (err : error)
| MediaIsDir
| MediaParseFails (err : error)
| MediaParsed (meta : Metadata).

(** [os.FileInfo], as far as the walk callback looks at it. *)
Record FileInfo := { Name : string; IsDir : bool }.

(** One call of the callback by [filepath.Walk]: a visited file or
    directory, or a path whose [Lstat] or directory listing failed. *)
Inductive WalkEntry :=
| Visit (path : string) (info : FileInfo)
| VisitErr (path : string) (err : error).

(** [filepath.Walk]: calls [fn] on the entries in order, threading the
    variables the closure captures; the first error [fn] returns stops the
    walk and is the result of [Walk]. *)
Fixpoint Walk {S : Type} (entries : list WalkEntry)
    (fn : WalkEntry -> S -> S * option error) (s : S) : S * option error :=
  match entries with
  | [] => (s, None)
  | e :: rest =>
      match fn e s with
      | (s', None) => Walk rest fn s'
      | (s', Some err) => (s', Some err)
      end
  end.

(** ** Timestamp resolution and the path index *)

Section Resolution.

(** The [Local] time zone of the process. *)
Variable localZone : GoTime.Location.
(** The file system: what [filepath.Walk] visits under a directory, what
    reading a sidecar gives, what opening a media file gives. *)
Variable walkEntries : string -> list WalkEntry.
Variable readSidecar : string -> SidecarRead.
Variable readMedia : string -> MediaRead.

(** [extractDateFolder]: the bucket and the error. *)
Definition extractDateFolder (timestamp : string) : string * option error :=
  match GoTime.ParseISO timestamp with
  | Some parsedTime => (GoTime.formatCivil parsedTime, None)
  | None =>
      match GoTime.ParseInt timestamp with
      | None => ("", Some ("invalid timestamp format: " ++ timestamp))
      | Some epoch => (GoTime.Format (GoTime.Unix localZone epoch), None)
      end
  end.

(** The callback of [getMediaFileList]; its captured variables are the
    two lists. *)
Definition classify (e : WalkEntry) (acc : list string * list string)
    : (list string * list string) * option error :=
  let '(localJsonFileList, localMediaFileList) := acc in
  match e with
  | VisitErr _ err => (acc, Some err)
  | Visit path info =>
      if IsDir info then (acc, None)
      else if String.eqb (Filepath.Ext (Name info)) ".json" then
        if GoStrings.CountByte (Name info) "." =? 3
        then (((localJsonFileList ++ [path])%list, localMediaFileList), None)
        else (acc, None)
      else ((localJsonFileList, (localMediaFileList ++ [path])%list), None)
  end.

(** [getMediaFileList]: the result of [filepath.Walk] is discarded. *)
Definition getMediaFileList (directory : string) : list string * list string :=
  fst (Walk (walkEntries directory) classify ([], [])).

(** The error [filepath.Walk] returns inside [getMediaFileList]. *)
Definition getMediaFileList_walkError (directory : string) : option error :=
  snd (Walk (walkEntries directory) classify ([], [])).

(** [parseExtractMetadatJsonFileAndAddToMapImage]: the loop over the
    sidecars; a sidecar that cannot be opened or read ends the function. *)
Fixpoint parseExtractMetadatJsonFileAndAddToMapImage
    (jsonFileList : list string) (myMap : gmap string string) : gmap string string :=
  match jsonFileList with
  | [] => myMap
  | jsonFile :: rest =>
      let parentPath := Filepath.Dir jsonFile in
      match readSidecar jsonFile with
      | SidecarOpenFails _ => myMap
      | SidecarReadFails _ => myMap
      | SidecarDecoded metadata =>
          let fileName := Title metadata in
          let '(photoTakenTime, _) :=
            extractDateFolder (Timestamp (PhotoTakenTime metadata)) in
          let absImageFilePath := Filepath.Join parentPath fileName in
          parseExtractMetadatJsonFileAndAddToMapImage rest
            (<[absImageFilePath := photoTakenTime]> myMap)
      end
  end.

(** [getMediaFilesWithoutMedtadataJsonFiles]. *)
Fixpoint getMediaFilesWithoutMedtadataJsonFiles
    (myMap : gmap string string) (mediaFileList : list string) : list string :=
  match mediaFileList with
  | [] => []
  | mediaFile :: rest =>
      match myMap !! mediaFile with
      | None => mediaFile :: getMediaFilesWithoutMedtadataJsonFiles myMap rest
      | Some _ => getMediaFilesWithoutMedtadataJsonFiles myMap rest
      end
  end.

Definition defaultTimestamp : string := "0001/01".

(** The bucket the fallback resolver computes from parsed metadata. *)
Definition exifTimestamp (meta : Metadata) : string :=
  if GoTime.IsZero (DateTimeCreated meta)
  then GoTime.Format (DateTimeOriginal meta)
  else GoTime.Format (DateTimeCreated meta).

(** The final statement of the fallback loop body: write unless present. *)
Definition addIfAbsent (photoPath timeStamp : string) (myMap : gmap string string)
    : gmap string string :=
  match myMap !! photoPath with
  | None => <[photoPath := timeStamp]> myMap
  | Some _ => myMap
  end.

(** [parseExtractMediaFilesWithoutMedtadataJsonFileAddToMap]: a file that
    cannot be opened ends the function. *)
Fixpoint parseExtractMediaFilesWithoutMedtadataJsonFileAddToMap
    (exifMEdiaFileList : list string) (myMap : gmap string string) : gmap string string :=
  match exifMEdiaFileList with
  | [] => myMap
  | photoPath :: rest =>
      if String.eqb (Filepath.Ext photoPath) ".DS_Store"
      then parseExtractMediaFilesWithoutMedtadataJsonFileAddToMap rest myMap
      else
        match readMedia photoPath with
        | MediaOpenFails _ => myMap
        | MediaIsDir => parseExtractMediaFilesWithoutMedtadataJsonFileAddToMap rest myMap
        | MediaParseFails _ =>
            parseExtractMediaFilesWithoutMedtadataJsonFileAddToMap rest
              (addIfAbsent photoPath defaultTimestamp myMap)
        | MediaParsed meta =>
            parseExtractMediaFilesWithoutMedtadataJsonFileAddToMap rest
              (addIfAbsent photoPath (exifTimestamp meta) myMap)
        end
  end.

(** The body of the normalization loop of [processDirectory], for one
    value of the map. [parts[1]] exists whenever the test holds
    ([Contains_sentinel_parts]). *)
Definition normalize (subFolderTimestamp : string) : string :=
  if GoStrings.Contains subFolderTimestamp "0001/" then
    let parts := GoStrings.Split subFolderTimestamp "/" in
    "2000/" ++ nth 1 parts ""
  else subFolderTimestamp.

(** The map after the two resolution phases of [processDirectory]. *)
Definition resolve (photosDir : string) (myMap : gmap string string)
    : gmap string string :=
  let '(jsonFileList, mediaFileList) := getMediaFileList photosDir in
  let myMap1 := parseExtractMetadatJsonFileAndAddToMapImage jsonFileList myMap in
  let exifMEdiaFileList := getMediaFilesWithoutMedtadataJsonFiles myMap1 mediaFileList in
  parseExtractMediaFilesWithoutMedtadataJsonFileAddToMap exifMEdiaFileList myMap1.

(** [processDirectory]: the resolution phases, then the loop that rewrites
    every value of the map in place. *)
Definition processDirectory (photosDir : string) (myMap : gmap string string)
    : gmap string string :=
  normalize <$> resolve photosDir myMap.

End Resolution.

(** ** Requests to the remote server *)

Record Request := { Method : string; URL : string }.

(** What [client.Do] gives: a transport error, or a response with its
    status code and status line. *)
Inductive DoResult :=
| DoFails (err : error)
| Response (StatusCode : Z) (Status : string).

(** What the run does that an observer sees, oldest first. The last two
    mark steps of the scheduler: a provisioning goroutine finishing a
    directory job ([wgDir.Done]), and an upload job put on the [jobs]
    channel. *)
Inductive Event :=
| EvRequest (req : Request)
| EvResponse (StatusCode : Z)
| EvTransportError (err : error)
| EvRetry (attempt : Z) (StatusCode : Z)
| EvSleep (seconds : Z)
| EvLog (msg : string)
| EvDirDone (directory : string)
| EvJobSent (path : string).

Definition requestsOf (tr : list Event) : list Request :=
  omap (fun e => match e with EvRequest r => Some r | _ => None end) tr.

Definition statusesOf (tr : list Event) : list Z :=
  omap (fun e => match e with EvResponse c => Some c | _ => None end) tr.

Definition retriesOf (tr : list Event) : list (Z * Z) :=
  omap (fun e => match e with EvRetry a c => Some (a, c) | _ => None end) tr.

Definition sleepsOf (tr : list Event) : list Z :=
  omap (fun e => match e with EvSleep s => Some s | _ => None end) tr.

(** [MediaFile]: one upload job. *)
Record MediaFile := { Path : string; Ts : string }.

Section Network.

(** The remote server: a state, and the result of one round trip. *)
Context {Server : Type}.
Variable roundTrip : Request -> Server -> DoResult * Server.
(** The error of [http.NewRequest(method, url, body)], if any. *)
Variable newRequestError : string -> string -> option error.
(** The error of [os.Open] on a path, if any. *)
Variable openError : string -> option error.
(** The working directory [filepath.Abs] resolves relative paths against. *)
Variable cwd : string.

(** The globals the upload phase changes, the server, and the events so
    far. [finishCounter] counts the progress units received. *)
Record State := {
  server : Server;
  trace : list Event;
  successfullCounter : Z;
  failedCounter : Z;
  finishCounter : Z
}.

Definition emit (e : Event) (st : State) : State :=
  {| server := server st; trace := (trace st ++ [e])%list;
     successfullCounter := successfullCounter st;
     failedCounter := failedCounter st; finishCounter := finishCounter st |}.

Definition incSuccess (st : State) : State :=
  {| server := server st; trace := trace st;
     successfullCounter := successfullCounter st + 1;
     failedCounter := failedCounter st; finishCounter := finishCounter st |}.

Definition incFailed (st : State) : State :=
  {| server := server st; trace := trace st;
     successfullCounter := successfullCounter st;
     failedCounter := failedCounter st + 1; finishCounter := finishCounter st |}.

Definition addProgress (p : Z) (st : State) : State :=
  {| server := server st; trace := trace st;
     successfullCounter := successfullCounter st;
     failedCounter := failedCounter st; finishCounter := finishCounter st + p |}.

Definition resultEvent (r : DoResult) : Event :=
  match r with
  | DoFails err => EvTransportError err
  | Response StatusCode _ => EvResponse StatusCode
  end.

(** [client.Do(req)]: the request goes to the server; the request and
    what came back are recorded. *)
Definition Do (req : Request) (st : State) : DoResult * State :=
  let '(r, srv) := roundTrip req (server st) in
  (r, {| server := srv;
         trace := (trace st ++ [EvRequest req; resultEvent r])%list;
         successfullCounter := successfullCounter st;
         failedCounter := failedCounter st; finishCounter := finishCounter st |}).

(** [createDirectoryIfNotExists]. *)
Definition createDirectoryIfNotExists (url : string) (st : State) : option error * State :=
  match newRequestError "MKCOL" url with
  | Some err => (Some err, st)
  | None =>
      match Do {| Method := "MKCOL"; URL := url |} st with
      | (DoFails err, st1) => (Some err, st1)
      | (Response StatusCode Status, st1) =>
          if StatusCode =? 405 then (None, st1)
          else if StatusCode =? 204 then
            (None, emit (EvLog ("Folder " ++ url ++ " already exists in Nextcloud")) st1)
          else if negb (StatusCode =? 201) && negb (StatusCode =? 200) then
            (Some ("failed to create directory " ++ url ++ ", status: " ++ Status), st1)
          else (None, emit (EvLog ("Successfully created directory: " ++ url)) st1)
      end
  end.

(** The loop of [createNestedDirectories] over the parts of the bucket. *)
Fixpoint createParts (parts : list string) (currentPath : string) (st : State)
    : option error * State :=
  match parts with
  | [] => (None, st)
  | part :: rest =>
      if String.eqb part "" then createParts rest currentPath st
      else
        let currentPath := currentPath ++ "/" ++ part in
        match createDirectoryIfNotExists currentPath st with
        | (Some err, st1) =>
            (Some ("failed to create directory " ++ currentPath ++ ": " ++ err), st1)
        | (None, st1) => createParts rest currentPath st1
        end
  end.

(** [createNestedDirectories]. *)
Definition createNestedDirectories (baseURL subFolder : string) (st : State)
    : option error * State :=
  createParts (GoStrings.Split subFolder "/") baseURL st.

(** [filepath.Abs] (the working directory is known). *)
Definition Abs (path : string) : string :=
  if GoStrings.HasPrefix path "/" then Filepath.Clean path else Filepath.Join cwd path.

Definition retryCount : Z := 3.

(** How one iteration of a loop body ends: with [continue], or with
    [return err]. *)
Inductive Iteration :=
| Continue (st : State)
| Return (err : option error) (st : State).

(** The body of the loop of [uploadFile], for attempt number [attempt]. *)
Definition uploadIteration (attempt : Z) (fileName url absFileLocation : string)
    (st : State) : Iteration :=
  match openError absFileLocation with
  | Some err => Return (Some err) st
  | None =>
      match newRequestError "PUT" url with
      | Some err => Return (Some err) st
      | None =>
          match Do {| Method := "PUT"; URL := url |} st with
          | (DoFails err, st1) => Return (Some err) st1
          | (Response StatusCode Status, st1) =>
              if (StatusCode =? 201) || (StatusCode =? 200) then Return None (incSuccess st1)
              else if StatusCode =? 204 then Return None (incSuccess st1)
              else if (StatusCode =? 404) || (StatusCode =? 504) then
                Continue (emit (EvSleep 2) (emit (EvRetry attempt StatusCode) st1))
              else
                Return (Some ("failed to upload " ++ fileName ++ " due to " ++ Status))
                  (incFailed st1)
          end
      end
  end.

(** The loop of [uploadFile] and the two statements after it; [remaining]
    is the number of iterations the loop condition [attempt <= retryCount]
    still allows. *)
Fixpoint uploadAttempts (remaining : nat) (attempt : Z)
    (fileName url absFileLocation : string) (st : State) : option error * State :=
  match remaining with
  | O =>
      (Some ("failed to upload " ++ fileName ++ " after 3 retries"), incFailed st)
  | S remaining' =>
      match uploadIteration attempt fileName url absFileLocation st with
      | Return err st1 => (err, st1)
      | Continue st1 =>
          uploadAttempts remaining' (attempt + 1) fileName url absFileLocation st1
      end
  end.

(** [uploadFile]. *)
Definition uploadFile (fileLocation nextcloudURL subFolder : string) (st : State)
    : option error * State :=
  let fileName := Filepath.Base fileLocation in
  let url := nextcloudURL ++ "/" ++ subFolder ++ "/" ++ fileName in
  let absFileLocation := Abs fileLocation in
  uploadAttempts (Z.to_nat retryCount) 1 fileName url absFileLocation st.

(** The body of the loop of [worker]: upload one job, log a failure, send
    one progress unit (which the aggregator adds to [finishCounter]). *)
Definition workerJob (nextcloudURL : string) (media : MediaFile) (st : State) : State :=
  match uploadFile (Path media) nextcloudURL (Ts media) st with
  | (Some err, st1) =>
      addProgress 1
        (emit (EvLog ("Failed to upload file " ++ Path media ++ ": [" ++ err ++ "]")) st1)
  | (None, st1) => addProgress 1 st1
  end.

(** [worker] on the jobs it receives, in the order it receives them. *)
Definition worker (nextcloudURL : string) (jobs : list MediaFile) (st : State) : State :=
  fold_left (fun st media => workerJob nextcloudURL media st) jobs st.

(** The body of a provisioning goroutine for one directory job: a failure
    is logged, the job is finished either way. *)
Definition directoryJob (nextcloudURL directory : string) (st : State) : State :=
  match createNestedDirectories nextcloudURL directory st with
  | (Some err, st1) =>
      emit (EvLog ("Error ensuring nested directories exist: " ++ err)) st1
  | (None, st1) => st1
  end.

(** A provisioning goroutine on the directory jobs it receives. *)
Definition directoryWorker (nextcloudURL : string) (directories : list string) (st : State)
    : State :=
  fold_left (fun st directory => directoryJob nextcloudURL directory st) directories st.

(** [uploadMediaFilesToNextcloud] with one worker per phase
    ([PARALLEL_UPLOADS=1], the default): the directory jobs in the order
    they were sent, then, after [wgDir.Wait], the upload jobs in the order
    the map iteration sent them. *)
Definition uploadMediaFilesToNextcloud1 (nextcloudURL : string)
    (directories : list string) (jobs : list MediaFile) (st : State) : State :=
  worker nextcloudURL jobs (directoryWorker nextcloudURL directories st).

End Network.

Arguments State : clear implicits.
Arguments Iteration : clear implicits.

(** ** The run as a whole, with one worker per phase *)

(** The loop of [getUniqueDirectoryToBecreatedOnNextCloud] over the values
    of the map in iteration order. *)
Fixpoint collectUnique (values : list string) (uniqueValuesMap : gset string)
    : list string :=
  match values with
  | [] => []
  | value :: rest =>
      if decide (value ∈ uniqueValuesMap) then collectUnique rest uniqueValuesMap
      else value :: collectUnique rest ({[value]} ∪ uniqueValuesMap)
  end.

(** [getUniqueDirectoryToBecreatedOnNextCloud], when the iteration over the
    map yields [entries]. *)
Definition getUniqueDirectoryToBecreatedOnNextCloud (entries : list (string * string))
    : list string :=
  collectUnique (snd <$> entries) ∅.

(** The jobs the sender goroutine puts on the [jobs] channel when the map
    iteration yields [entries]. *)
Definition mediaJobs (entries : list (string * string)) : list MediaFile :=
  (fun e => {| Path := e.1; Ts := e.2 |}) <$> entries.

(** The environment variables [main] reads, except [PARALLEL_UPLOADS]. *)
Record Config := {
  nextcloudURL : string;
  username : string;
  password : string;
  photosDir : string
}.

(** How [main] ends: [log.Fatal], or [os.Exit(0)] after the upload phase. *)
Inductive Exit (Server : Type) :=
| ExitFatal (msg : string)
| Exit0 (myMap : gmap string string) (st : State Server).
Arguments ExitFatal {Server} msg.
Arguments Exit0 {Server} myMap st.

Section Main.

Context {Server : Type}.
Variable localZone : GoTime.Location.
Variable walkEntries : string -> list WalkEntry.
Variable readSidecar : string -> SidecarRead.
Variable readMedia : string -> MediaRead.
Variable roundTrip : Request -> Server -> DoResult * Server.
Variable newRequestError : string -> string -> option error.
Variable openError : string -> option error.
Variable cwd : string.

(** [main] with [PARALLEL_UPLOADS] unset or ["1"]. Go leaves the iteration
    order of a map open; the order taken here is that of [map_to_list]. *)
Definition main (cfg : Config) (st : State Server) : Exit Server :=
  if String.eqb (nextcloudURL cfg) "" || String.eqb (username cfg) ""
     || String.eqb (password cfg) "" || String.eqb (photosDir cfg) ""
  then ExitFatal "Missing required environment variables: NEXTCLOUD_URL, NEXTCLOUD_USER, NEXTCLOUD_PASSWORD, PHOTOS_DIR, PARALLEL_UPLOADS"
  else
    let myMap :=
      processDirectory localZone walkEntries readSidecar readMedia (photosDir cfg) ∅ in
    let directoriesToBeCreated :=
      getUniqueDirectoryToBecreatedOnNextCloud (map_to_list myMap) in
    Exit0 myMap
      (uploadMediaFilesToNextcloud1 roundTrip newRequestError openError cwd
         (nextcloudURL cfg) directoriesToBeCreated (mediaJobs (map_to_list myMap)) st).

(** [main] with [PARALLEL_UPLOADS] unset or ["1"], when the loop of
    [getUniqueDirectoryToBecreatedOnNextCloud] takes the entries of the map
    in the order [directoryOrder] gives and the loop of the sender goroutine
    takes them in the order [jobOrder] gives: Go fixes neither order, and
    the two may differ. *)
Definition mainOrdered
    (directoryOrder jobOrder : gmap string string -> list (string * string))
    (cfg : Config) (st : State Server) : Exit Server :=
  if String.eqb (nextcloudURL cfg) "" || String.eqb (username cfg) ""
     || String.eqb (password cfg) "" || String.eqb (photosDir cfg) ""
  then ExitFatal "Missing required environment variables: NEXTCLOUD_URL, NEXTCLOUD_USER, NEXTCLOUD_PASSWORD, PHOTOS_DIR, PARALLEL_UPLOADS"
  else
    let myMap :=
      processDirectory localZone walkEntries readSidecar readMedia (photosDir cfg) ∅ in
    let directoriesToBeCreated :=
      getUniqueDirectoryToBecreatedOnNextCloud (directoryOrder myMap) in
    Exit0 myMap
      (uploadMediaFilesToNextcloud1 roundTrip newRequestError openError cwd
         (nextcloudURL cfg) directoriesToBeCreated (mediaJobs (jobOrder myMap)) st).

End Main.

(** ** The environment of the process and the head of [main] *)

(** [os.Getenv]: the value of the variable, empty when it is not set. *)
Definition Getenv (environ : gmap string string) (key : string) : string :=
  default "" (environ !! key).

(** [GetEnvWithDefault]. *)
Definition GetEnvWithDefault (environ : gmap string string) (key defaultValue : string)
    : string :=
  let value := Getenv environ key in
  if String.eqb value "" then defaultValue else value.

(** How [main] gets to its call of [processDirectory]: it ends in
    [log.Fatal]; or it prints the conversion error and returns; or it goes
    on with the four settings and the number of workers. *)
Inductive Prologue :=
| PrologueFatal (msg : string)
| PrologueReturn (output : string)
| PrologueRun (cfg : Config) (parallelUploads : Z).

(** The statements of [main] before [processDirectory]. *)
Definition mainPrologue (environ : gmap string string) : Prologue :=
  let nextcloudURL := GetEnvWithDefault environ "NEXTCLOUD_URL" "" in
  let username := GetEnvWithDefault environ "NEXTCLOUD_USER" "" in
  let password := GetEnvWithDefault environ "NEXTCLOUD_PASSWORD" "" in
  let photosDir := GetEnvWithDefault environ "PHOTOS_DIR" "" in
  let parallel := GetEnvWithDefault environ "PARALLEL_UPLOADS" "1" in
  if String.eqb nextcloudURL "" || String.eqb username "" || String.eqb password ""
     || String.eqb photosDir "" || String.eqb parallel ""
  then PrologueFatal "Missing required environment variables: NEXTCLOUD_URL, NEXTCLOUD_USER, NEXTCLOUD_PASSWORD, PHOTOS_DIR, PARALLEL_UPLOADS"
  else
    match GoTime.Atoi parallel with
    | None => PrologueReturn "Error converting PARALLEL_UPLOADS string to integer:"
    | Some parallelUploads =>
        PrologueRun {| nextcloudURL := nextcloudURL; username := username;
                       password := password; photosDir := photosDir |}
          parallelUploads
    end.

(** ** Vocabulary of the specification *)

(** Success-class statuses of a transfer. *)
Definition isSuccessStatus (c : Z) : bool := (c =? 200) || (c =? 201) || (c =? 204).

(** Transient-class statuses of a transfer: not found, gateway timeout. *)
Definition isRetryStatus (c : Z) : bool := (c =? 404) || (c =? 504).

(** Statuses that count as success for a create-collection request. *)
Definition isCollectionStatus (c : Z) : bool :=
  (c =? 200) || (c =? 201) || (c =? 204) || (c =? 405).

(** The collection URLs of the path segments [parts] below [currentPath],
    parent before child. *)
Fixpoint segmentPaths (currentPath : string) (parts : list string) : list string :=
  match parts with
  | [] => []
  | part :: rest =>
      (currentPath ++ "/" ++ part) :: segmentPaths (currentPath ++ "/" ++ part) rest
  end.

(** The collection URLs of a bucket: one per non-empty path segment. *)
Definition segmentURLs (baseURL subFolder : string) : list string :=
  segmentPaths baseURL
    (List.filter (fun part => negb (String.eqb part "")) (GoStrings.Split subFolder "/")).

Definition mkcol (url : string) : Request := {| Method := "MKCOL"; URL := url |}.
Definition put (url : string) : Request := {| Method := "PUT"; URL := url |}.

(** A bucket of the canonical shape [YYYY/MM]: four bytes, a slash, two
    bytes, none of them a slash. *)
Definition canonicalBucket (b : string) : bool :=
  match b with
  | String y1 (String y2 (String y3 (String y4 (String s (String m1 (String m2 EmptyString)))))) =>
      Ascii.eqb s "/"%char
      && negb (GoStrings.Contains (String y1 (String y2 (String y3 (String y4 (String m1 (String m2 EmptyString)))))) "/")
  | _ => false
  end.

(** The media path a sidecar with decoded [metadata] resolves to, and the
    bucket the sidecar resolver writes for it. *)
Definition sidecarTarget (jsonFile : string) (metadata : PhotoMetadata) : string :=
  Filepath.Join (Filepath.Dir jsonFile) (Title metadata).

Definition sidecarBucket (localZone : GoTime.Location) (metadata : PhotoMetadata) : string :=
  fst (extractDateFolder localZone (Timestamp (PhotoTakenTime metadata))).

(** Every bucket of the path index is non-empty. *)
Definition nonEmptyValues (m : gmap string string) : Prop :=
  forall p v, m !! p = Some v -> v <> "".

(** The walk's classification of a directory entry. *)
Definition isSidecarInfo (info : FileInfo) : bool :=
  negb (IsDir info) && String.eqb (Filepath.Ext (Name info)) ".json"
  && (GoStrings.CountByte (Name info) "." =? 3).

Definition isMediaInfo (info : FileInfo) : bool :=
  negb (IsDir info) && negb (String.eqb (Filepath.Ext (Name info)) ".json").

(** The entries a walk visits before its first error. *)
Fixpoint visited (entries : list WalkEntry) : list (string * FileInfo) :=
  match entries with
  | Visit path info :: rest => (path, info) :: visited rest
  | _ => []
  end.

(** Year and month component of a bucket: the text before and after its
    first slash. *)
Definition yearOf (b : string) : string := fst (GoStrings.SplitByte b "/").
Definition monthOf (b : string) : string :=
  GoStrings.Join (snd (GoStrings.SplitByte b "/")) "/".

(** ** Concrete worlds for evaluation *)

(** A server that answers from a script, one entry per request, and refuses
    connections once the script is used up. *)
Definition scripted (req : Request) (script : list DoResult) : DoResult * list DoResult :=
  match script with
  | [] => (DoFails "connection refused", [])
  | r :: rest => (r, rest)
  end.

(** A server that answers every request with the same status. *)
Definition always (StatusCode : Z) (Status : string) (req : Request) (s : unit)
    : DoResult * unit :=
  (Response StatusCode Status, s).

Definition noError1 (_ : string) : option error := None.
Definition noError2 (_ _ : string) : option error := None.

Definition initState {Server : Type} (srv : Server) : State Server :=
  {| server := srv; trace := []; successfullCounter := 0; failedCounter := 0;
     finishCounter := 0 |}.

Definition regularFile (name : string) : FileInfo := {| Name := name; IsDir := false |}.

Definition sidecar (title photoTaken creation : string) : SidecarRead :=
  SidecarDecoded
    {| Title := title;
       CreationTime := {| Timestamp := creation; Formatted := "" |};
       PhotoTakenTime := {| Timestamp := photoTaken; Formatted := "" |} |}.

(** Source trees for evaluation. Under [/photos/taken]: two media files with
    sidecars, the first with an unparsable [photoTakenTime] and a valid
    [creationTime], the second with both unparsable. Under [/photos/future]:
    a sidecar with a far-future epoch. Under [/photos/faulty]: an unreadable
    sidecar followed by a good one. Under [/photos/twice]: two sidecars that
    name the same media file. Under [/photos/locked]: a media file that
    cannot be opened followed by one with embedded metadata. Under
    [/photos/denied]: a media file, then a directory that cannot be listed,
    so that the walk never reaches the media file after it. *)
Module Photos.

Definition suffix := ".supplemental-metadata.json".

Definition readSidecar (jsonFile : string) : SidecarRead :=
  if String.eqb jsonFile ("/photos/taken/IMG_1.jpg" ++ suffix)
  then sidecar "IMG_1.jpg" "not-a-timestamp" "1600000000"
  else if String.eqb jsonFile ("/photos/taken/IMG_2.jpg" ++ suffix)
  then sidecar "IMG_2.jpg" "" ""
  else if String.eqb jsonFile ("/photos/future/IMG_3.jpg" ++ suffix)
  then sidecar "IMG_3.jpg" "253450000000" ""
  else if String.eqb jsonFile ("/photos/faulty/IMG_4.jpg" ++ suffix)
  then SidecarOpenFails "permission denied"
  else if String.eqb jsonFile ("/photos/faulty/IMG_5.jpg" ++ suffix)
  then sidecar "IMG_5.jpg" "2021-03-04T05:06:07Z" ""
  else if String.eqb jsonFile "/photos/twice/a.jpg.suppl.json"
  then sidecar "a.jpg" "2019-12-31T23:59:59Z" ""
  else if String.eqb jsonFile ("/photos/twice/a.jpg" ++ suffix)
  then sidecar "a.jpg" "2020-01-01T00:00:00Z" ""
  else SidecarOpenFails "no such file or directory".

(** Embedded metadata dated 2021-05-03 00:00:00 UTC in [DateTimeOriginal]
    only. *)
Definition taken2021 : Metadata :=
  {| DateTimeCreated := GoTime.zeroTime;
     DateTimeOriginal :=
       {| GoTime.tUnix := 1620000000; GoTime.tNsec := 0; GoTime.tOffset := 0 |} |}.

Definition readMedia (photoPath : string) : MediaRead :=
  if String.eqb photoPath "/photos/locked/locked.jpg" then MediaOpenFails "permission denied"
  else if String.eqb photoPath "/photos/locked/z.jpg" then MediaParsed taken2021
  else if String.eqb photoPath "/photos/denied/a.jpg" then MediaParsed taken2021
  else if String.eqb photoPath "/photos/denied/z.jpg" then MediaParsed taken2021
  else MediaParseFails "unknown format".

Definition top (dir : string) : WalkEntry :=
  Visit dir {| Name := Filepath.Base dir; IsDir := true |}.
Definition file (dir name : string) : WalkEntry :=
  Visit (dir ++ "/" ++ name) (regularFile name).

Definition walkEntries (dir : string) : list WalkEntry :=
  if String.eqb dir "/photos/taken" then
    [top dir; file dir "IMG_1.jpg"; file dir ("IMG_1.jpg" ++ suffix);
     file dir "IMG_2.jpg"; file dir ("IMG_2.jpg" ++ suffix)]
  else if String.eqb dir "/photos/future" then
    [top dir; file dir "IMG_3.jpg"; file dir ("IMG_3.jpg" ++ suffix)]
  else if String.eqb dir "/photos/faulty" then
    [top dir; file dir "IMG_4.jpg"; file dir ("IMG_4.jpg" ++ suffix);
     file dir "IMG_5.jpg"; file dir ("IMG_5.jpg" ++ suffix)]
  else if String.eqb dir "/photos/locked" then
    [top dir; file dir "locked.jpg"; file dir "z.jpg"]
  else if String.eqb dir "/photos/denied" then
    [top dir; file dir "a.jpg"; VisitErr (dir ++ "/private") "permission denied";
     file dir "z.jpg"]
  else [VisitErr dir "no such file or directory"].

Definition cfg (photosDir : string) : Config :=
  {| nextcloudURL := "https://cloud.example/dav"; username := "u"; password := "p";
     photosDir := photosDir |}.

Definition resolve := resolve GoTime.UTC walkEntries readSidecar readMedia.
Definition processDirectory :=
  processDirectory GoTime.UTC walkEntries readSidecar readMedia.

End Photos.

(** ** The goroutines of [uploadMediaFilesToNextcloud] *)

(** Where the main goroutine stands. *)
Inductive MainPC :=
| MStart                          (* before [wgDir.Add(dirSize)] *)
| MSpawnDir (todo : nat)          (* starting the provisioning goroutines *)
| MSendDir (rest : list string)   (* sending the directories to [dirJobs] *)
| MWaitDir                        (* in [wgDir.Wait()] *)
| MMakeChans                      (* making [jobs] and [progressChan] *)
| MSpawnMedia (todo : nat)        (* starting the workers *)
| MGoCloser                       (* the sender runs; starting the closer *)
| MDrain                          (* in the loop over [progressChan] *)
| MReturn
| MPanic.                         (* [make(chan int, n)] with negative [n] *)

(** A provisioning goroutine: waiting on [dirJobs]; inside
    [createNestedDirectories] with the parts still to visit; back from it;
    gone. *)
Inductive DirWorker :=
| DRecv
| DCreate (directory : string) (parts : list string) (currentPath : string)
| DDone (directory : string) (err : option error)
| DExit.

(** A [worker] goroutine: waiting on [jobs]; inside the loop of
    [uploadFile]; back from it; sending its progress unit; gone. *)
Inductive MediaWorker :=
| WRecv
| WUpload (media : MediaFile) (remaining : nat) (attempt : Z)
| WLog (media : MediaFile) (err : option error)
| WSend
| WExit.

(** The goroutine that sends the jobs and closes [jobs]. *)
Inductive Sender := SIdle | SSend (rest : list MediaFile) | SExit.

(** The goroutine that waits for the workers and closes [progressChan]. *)
Inductive Closer := CIdle | CWait | CExit.

(** The channel [dirJobs], the wait group [wgDir] and the provisioning
    goroutines. *)
Record Provision := {
  dirJobs : list string;
  dirJobsClosed : bool;
  wgDir : Z;
  dirWorkers : list DirWorker
}.

(** The channels [jobs] and [progressChan], the wait group [wgMedia] and the
    goroutines of the upload phase. *)
Record Transfer := {
  jobs : list MediaFile;
  jobsClosed : bool;
  progressChan : list Z;
  progressClosed : bool;
  wgMedia : Z;
  mediaWorkers : list MediaWorker;
  sender : Sender;
  closer : Closer
}.

Record Machine (Server : Type) := {
  shared : State Server;
  mainPC : MainPC;
  prov : Provision;
  xfer : Transfer
}.
Arguments shared {Server} _.
Arguments mainPC {Server} _.
Arguments prov {Server} _.
Arguments xfer {Server} _.

(** Which goroutine the scheduler lets run next. *)
Inductive Action :=
| ActMain
| ActDir (i : nat)
| ActMedia (i : nat)
| ActSender
| ActCloser.

Section Goroutines.

Context {Server : Type}.
Variable roundTrip : Request -> Server -> DoResult * Server.
Variable newRequestError : string -> string -> option error.
Variable openError : string -> option error.
Variable cwd : string.
(** The arguments of [uploadMediaFilesToNextcloud], and the jobs in the
    order the iteration over the map yields them. *)
Variable parallelUploads : Z.
Variable nextcloudURL : string.
Variable directories : list string.
Variable mediaList : list MediaFile.

Definition mkMachine (st : State Server) (pc : MainPC) (p : Provision) (x : Transfer)
    : Machine Server :=
  {| shared := st; mainPC := pc; prov := p; xfer := x |}.

Definition initMachine (st : State Server) : Machine Server :=
  mkMachine st MStart
    {| dirJobs := []; dirJobsClosed := false; wgDir := 0; dirWorkers := [] |}
    {| jobs := []; jobsClosed := false; progressChan := []; progressClosed := false;
       wgMedia := 0; mediaWorkers := []; sender := SIdle; closer := CIdle |}.

Definition setDirWorker (i : nat) (w : DirWorker) (p : Provision) : Provision :=
  {| dirJobs := dirJobs p; dirJobsClosed := dirJobsClosed p; wgDir := wgDir p;
     dirWorkers := <[i := w]> (dirWorkers p) |}.

Definition setMediaWorker (i : nat) (w : MediaWorker) (x : Transfer) : Transfer :=
  {| jobs := jobs x; jobsClosed := jobsClosed x; progressChan := progressChan x;
     progressClosed := progressClosed x; wgMedia := wgMedia x;
     mediaWorkers := <[i := w]> (mediaWorkers x); sender := sender x; closer := closer x |}.

(** One step of the main goroutine; [None] while it is blocked or after it
    has ended. *)
Definition stepMain (c : Machine Server) : option (Machine Server) :=
  let p := prov c in
  let x := xfer c in
  match mainPC c with
  | MStart =>
      Some (mkMachine (shared c) (MSpawnDir (Z.to_nat parallelUploads))
              {| dirJobs := dirJobs p; dirJobsClosed := dirJobsClosed p;
                 wgDir := wgDir p + Z.of_nat (length directories);
                 dirWorkers := dirWorkers p |} x)
  | MSpawnDir (S todo) =>
      Some (mkMachine (shared c) (MSpawnDir todo)
              {| dirJobs := dirJobs p; dirJobsClosed := dirJobsClosed p; wgDir := wgDir p;
                 dirWorkers := (dirWorkers p ++ [DRecv])%list |} x)
  | MSpawnDir O => Some (mkMachine (shared c) (MSendDir directories) p x)
  | MSendDir (dir :: rest) =>
      Some (mkMachine (shared c) (MSendDir rest)
              {| dirJobs := (dirJobs p ++ [dir])%list; dirJobsClosed := dirJobsClosed p;
                 wgDir := wgDir p; dirWorkers := dirWorkers p |} x)
  | MSendDir [] =>
      Some (mkMachine (shared c) MWaitDir
              {| dirJobs := dirJobs p; dirJobsClosed := true; wgDir := wgDir p;
                 dirWorkers := dirWorkers p |} x)
  | MWaitDir =>
      if wgDir p =? 0 then Some (mkMachine (shared c) MMakeChans p x) else None
  | MMakeChans =>
      if parallelUploads <? 0 then Some (mkMachine (shared c) MPanic p x)
      else Some (mkMachine (shared c) (MSpawnMedia (Z.to_nat parallelUploads)) p x)
  | MSpawnMedia (S todo) =>
      Some (mkMachine (shared c) (MSpawnMedia todo) p
              {| jobs := jobs x; jobsClosed := jobsClosed x; progressChan := progressChan x;
                 progressClosed := progressClosed x; wgMedia := wgMedia x + 1;
                 mediaWorkers := (mediaWorkers x ++ [WRecv])%list;
                 sender := sender x; closer := closer x |})
  | MSpawnMedia O =>
      Some (mkMachine (shared c) MGoCloser p
              {| jobs := jobs x; jobsClosed := jobsClosed x; progressChan := progressChan x;
                 progressClosed := progressClosed x; wgMedia := wgMedia x;
                 mediaWorkers := mediaWorkers x;
                 sender := SSend mediaList; closer := closer x |})
  | MGoCloser =>
      Some (mkMachine (shared c) MDrain p
              {| jobs := jobs x; jobsClosed := jobsClosed x; progressChan := progressChan x;
                 progressClosed := progressClosed x; wgMedia := wgMedia x;
                 mediaWorkers := mediaWorkers x;
                 sender := sender x; closer := CWait |})
  | MDrain =>
      match progressChan x with
      | units :: rest =>
          Some (mkMachine (addProgress units (shared c)) MDrain p
                  {| jobs := jobs x; jobsClosed := jobsClosed x; progressChan := rest;
                     progressClosed := progressClosed x; wgMedia := wgMedia x;
                     mediaWorkers := mediaWorkers x;
                     sender := sender x; closer := closer x |})
      | [] => if progressClosed x then Some (mkMachine (shared c) MReturn p x) else None
      end
  | MReturn => None
  | MPanic => None
  end.

(** One step of provisioning goroutine [i]. *)
Definition stepDir (i : nat) (c : Machine Server) : option (Machine Server) :=
  let p := prov c in
  match dirWorkers p !! i with
  | Some DRecv =>
      match dirJobs p with
      | dir :: rest =>
          Some (mkMachine (shared c) (mainPC c)
                  {| dirJobs := rest; dirJobsClosed := dirJobsClosed p; wgDir := wgDir p;
                     dirWorkers :=
                       <[i := DCreate dir (GoStrings.Split dir "/") nextcloudURL]>
                         (dirWorkers p) |}
                  (xfer c))
      | [] =>
          if dirJobsClosed p
          then Some (mkMachine (shared c) (mainPC c) (setDirWorker i DExit p) (xfer c))
          else None
      end
  | Some (DCreate dir [] currentPath) =>
      Some (mkMachine (shared c) (mainPC c) (setDirWorker i (DDone dir None) p) (xfer c))
  | Some (DCreate dir (part :: rest) currentPath) =>
      if String.eqb part ""
      then Some (mkMachine (shared c) (mainPC c)
                   (setDirWorker i (DCreate dir rest currentPath) p) (xfer c))
      else
        let currentPath := (currentPath ++ "/" ++ part)%string in
        match createDirectoryIfNotExists roundTrip newRequestError currentPath (shared c) with
        | (Some err, st1) =>
            Some (mkMachine st1 (mainPC c)
                    (setDirWorker i
                       (DDone dir
                          (Some ("failed to create directory " ++ currentPath ++ ": " ++ err)%string))
                       p)
                    (xfer c))
        | (None, st1) =>
            Some (mkMachine st1 (mainPC c)
                    (setDirWorker i (DCreate dir rest currentPath) p) (xfer c))
        end
  | Some (DDone dir err) =>
      let st1 :=
        match err with
        | Some e => emit (EvLog ("Error ensuring nested directories exist: " ++ e)) (shared c)
        | None => shared c
        end in
      Some (mkMachine (emit (EvDirDone dir) st1) (mainPC c)
              {| dirJobs := dirJobs p; dirJobsClosed := dirJobsClosed p;
                 wgDir := wgDir p - 1;
                 dirWorkers := <[i := DRecv]> (dirWorkers p) |}
              (xfer c))
  | Some DExit => None
  | None => None
  end.

(** One step of worker [i]. *)
Definition stepMedia (i : nat) (c : Machine Server) : option (Machine Server) :=
  let x := xfer c in
  match mediaWorkers x !! i with
  | Some WRecv =>
      match jobs x with
      | media :: rest =>
          Some (mkMachine (shared c) (mainPC c) (prov c)
                  {| jobs := rest; jobsClosed := jobsClosed x;
                     progressChan := progressChan x; progressClosed := progressClosed x;
                     wgMedia := wgMedia x;
                     mediaWorkers :=
                       <[i := WUpload media (Z.to_nat retryCount) 1]> (mediaWorkers x);
                     sender := sender x; closer := closer x |})
      | [] =>
          if jobsClosed x
          then Some (mkMachine (shared c) (mainPC c) (prov c)
                       {| jobs := jobs x; jobsClosed := jobsClosed x;
                          progressChan := progressChan x; progressClosed := progressClosed x;
                          wgMedia := wgMedia x - 1;
                          mediaWorkers := <[i := WExit]> (mediaWorkers x);
                          sender := sender x; closer := closer x |})
          else None
      end
  | Some (WUpload media O attempt) =>
      Some (mkMachine (incFailed (shared c)) (mainPC c) (prov c)
              (setMediaWorker i
                 (WLog media
                    (Some ("failed to upload " ++ Filepath.Base (Path media)
                           ++ " after 3 retries")%string))
                 x))
  | Some (WUpload media (S remaining) attempt) =>
      let fileName := Filepath.Base (Path media) in
      let url := (nextcloudURL ++ "/" ++ Ts media ++ "/" ++ fileName)%string in
      match uploadIteration roundTrip newRequestError openError attempt fileName url
              (Abs cwd (Path media)) (shared c) with
      | Continue st1 =>
          Some (mkMachine st1 (mainPC c) (prov c)
                  (setMediaWorker i (WUpload media remaining (attempt + 1)) x))
      | Return err st1 =>
          Some (mkMachine st1 (mainPC c) (prov c) (setMediaWorker i (WLog media err) x))
      end
  | Some (WLog media err) =>
      let st1 :=
        match err with
        | Some e =>
            emit (EvLog ("Failed to upload file " ++ Path media ++ ": [" ++ e ++ "]"))
              (shared c)
        | None => shared c
        end in
      Some (mkMachine st1 (mainPC c) (prov c) (setMediaWorker i WSend x))
  | Some WSend =>
      if Z.of_nat (length (progressChan x)) <? parallelUploads
      then Some (mkMachine (shared c) (mainPC c) (prov c)
                   {| jobs := jobs x; jobsClosed := jobsClosed x;
                      progressChan := (progressChan x ++ [1])%list;
                      progressClosed := progressClosed x; wgMedia := wgMedia x;
                      mediaWorkers := <[i := WRecv]> (mediaWorkers x);
                      sender := sender x; closer := closer x |})
      else None
  | Some WExit => None
  | None => None
  end.

(** One step of the sender goroutine. *)
Definition stepSender (c : Machine Server) : option (Machine Server) :=
  let x := xfer c in
  match sender x with
  | SSend (media :: rest) =>
      Some (mkMachine (emit (EvJobSent (Path media)) (shared c)) (mainPC c) (prov c)
              {| jobs := (jobs x ++ [media])%list; jobsClosed := jobsClosed x;
                 progressChan := progressChan x; progressClosed := progressClosed x;
                 wgMedia := wgMedia x; mediaWorkers := mediaWorkers x;
                 sender := SSend rest; closer := closer x |})
  | SSend [] =>
      Some (mkMachine (shared c) (mainPC c) (prov c)
              {| jobs := jobs x; jobsClosed := true;
                 progressChan := progressChan x; progressClosed := progressClosed x;
                 wgMedia := wgMedia x; mediaWorkers := mediaWorkers x;
                 sender := SExit; closer := closer x |})
  | SIdle => None
  | SExit => None
  end.

(** One step of the closer goroutine. *)
Definition stepCloser (c : Machine Server) : option (Machine Server) :=
  let x := xfer c in
  match closer x with
  | CWait =>
      if wgMedia x =? 0
      then Some (mkMachine (shared c) (mainPC c) (prov c)
                   {| jobs := jobs x; jobsClosed := jobsClosed x;
                      progressChan := progressChan x; progressClosed := true;
                      wgMedia := wgMedia x; mediaWorkers := mediaWorkers x;
                      sender := sender x; closer := CExit |})
      else None
  | CIdle => None
  | CExit => None
  end.

Definition step (a : Action) (c : Machine Server) : option (Machine Server) :=
  match a with
  | ActMain => stepMain c
  | ActDir i => stepDir i c
  | ActMedia i => stepMedia i c
  | ActSender => stepSender c
  | ActCloser => stepCloser c
  end.

(** The configuration after the scheduler has tried the goroutines in the
    order of [schedule]; a goroutine that cannot move is passed over. *)
Fixpoint exec (schedule : list Action) (c : Machine Server) : Machine Server :=
  match schedule with
  | [] => c
  | a :: rest => exec rest (default c (step a c))
  end.

End Goroutines.

(** An event of the upload phase: a job put on the [jobs] channel, or a PUT
    request. *)
Definition isUploadEvent (e : Event) : bool :=
  match e with
  | EvJobSent _ => true
  | EvRequest req => String.eqb (Method req) "PUT"
  | _ => false
  end.

(** An event of the provisioning phase: a create-collection request, or a
    directory job reaching its end. *)
Definition isProvisionEvent (e : Event) : bool :=
  match e with
  | EvDirDone _ => true
  | EvRequest req => String.eqb (Method req) "MKCOL"
  | _ => false
  end.

(** The directory jobs that have ended, in the order they ended. *)
Definition dirDoneOf (tr : list Event) : list string :=
  omap (fun e => match e with EvDirDone dir => Some dir | _ => None end) tr.

(** The phase barrier on a trace: before every event of the upload phase
    every submitted directory job has ended, and after it no event of the
    provisioning phase occurs. *)
Definition barrier (directories : list string) (tr : list Event) : Prop :=
  forall pre e post,
    tr = (pre ++ e :: post)%list -> isUploadEvent e = true ->
    dirDoneOf pre ≡ₚ directories
    /\ forall e', e' ∈ post -> isProvisionEvent e' = false.

(** A schedule that tries every goroutine of a run with [n] workers per
    phase once. *)
Definition roundOf (n : nat) : list Action :=
  (ActMain :: (ActDir <$> seq 0 n) ++ (ActMedia <$> seq 0 n) ++ [ActSender; ActCloser])%list.

Fixpoint rounds (k n : nat) : list Action :=
  match k with
  | O => []
  | S k' => (roundOf n ++ rounds k' n)%list
  end.

(** The directory a provisioning goroutine is working on, if any. *)
Definition dirJobOf (w : DirWorker) : option string :=
  match w with
  | DCreate dir _ _ => Some dir
  | DDone dir _ => Some dir
  | DRecv => None
  | DExit => None
  end.

(** The directory jobs received and not yet ended. *)
Definition inflight (ws : list DirWorker) : list string := omap dirJobOf ws.

(** The directories the main goroutine still has to send. *)
Definition toSend (directories : list string) (pc : MainPC) : list string :=
  match pc with
  | MStart => directories
  | MSpawnDir _ => directories
  | MSendDir rest => rest
  | _ => []
  end.

(** The main goroutine has not yet returned from [wgDir.Wait()]. *)
Definition provisioning (pc : MainPC) : bool :=
  match pc with
  | MStart => true
  | MSpawnDir _ => true
  | MSendDir _ => true
  | MWaitDir => true
  | _ => false
  end.

(** What holds of every configuration a run can reach: each directory is
    still to be sent, or in the channel, or being worked on, or done; the
    wait group counts the directories not yet done; before the main
    goroutine leaves [wgDir.Wait()] nothing of the upload phase exists, and
    afterwards every directory job is done and the trace respects the
    barrier. *)
Definition Inv {Server : Type} (directories : list string) (c : Machine Server) : Prop :=
  let tr := trace (shared c) in
  directories ≡ₚ (toSend directories (mainPC c) ++ dirJobs (prov c)
                  ++ inflight (dirWorkers (prov c)) ++ dirDoneOf tr)%list
  /\ wgDir (prov c)
     = match mainPC c with
       | MStart => 0
       | _ => Z.of_nat (length directories) - Z.of_nat (length (dirDoneOf tr))
       end
  /\ if provisioning (mainPC c)
     then mediaWorkers (xfer c) = [] /\ sender (xfer c) = SIdle
          /\ closer (xfer c) = CIdle /\ jobs (xfer c) = []
          /\ forall e, e ∈ tr -> isUploadEvent e = false
     else dirDoneOf tr ≡ₚ directories /\ barrier directories tr.

(** ** Vocabulary for the properties of uploads and provisioning *)

Section Shapes.

Context {Server : Type}.
Variable roundTrip : Request -> Server -> DoResult * Server.
Variable newRequestError : string -> string -> option error.
Variable openError : string -> option error.
Variable cwd : string.
Variable nextcloudURL : string.

Local Abbreviation St := (State Server).

(** How one iteration of the upload loop ends, by what it observed. *)
Inductive IterationEnd (attempt : Z) (url : string) (st : St) : Iteration Server -> Prop :=
| EndLocal err st1 :
    trace st1 = trace st ->
    successfullCounter st1 = successfullCounter st ->
    failedCounter st1 = failedCounter st ->
    finishCounter st1 = finishCounter st ->
    IterationEnd attempt url st (Return (Some err) st1)
| EndTransport err err' st1 :
    trace st1 = (trace st ++ [EvRequest (put url); EvTransportError err'])%list ->
    successfullCounter st1 = successfullCounter st ->
    failedCounter st1 = failedCounter st ->
    finishCounter st1 = finishCounter st ->
    IterationEnd attempt url st (Return (Some err) st1)
| EndSuccess c st1 :
    isSuccessStatus c = true ->
    trace st1 = (trace st ++ [EvRequest (put url); EvResponse c])%list ->
    successfullCounter st1 = successfullCounter st + 1 ->
    failedCounter st1 = failedCounter st ->
    finishCounter st1 = finishCounter st ->
    IterationEnd attempt url st (Return None st1)
| EndHard c err st1 :
    isSuccessStatus c = false -> isRetryStatus c = false ->
    trace st1 = (trace st ++ [EvRequest (put url); EvResponse c])%list ->
    successfullCounter st1 = successfullCounter st ->
    failedCounter st1 = failedCounter st + 1 ->
    finishCounter st1 = finishCounter st ->
    IterationEnd attempt url st (Return (Some err) st1)
| EndRetry c st1 :
    isRetryStatus c = true ->
    trace st1 = (trace st ++ [EvRequest (put url); EvResponse c;
                              EvRetry attempt c; EvSleep 2])%list ->
    successfullCounter st1 = successfullCounter st ->
    failedCounter st1 = failedCounter st ->
    finishCounter st1 = finishCounter st ->
    IterationEnd attempt url st (Continue st1).

(** What a run of the upload loop with [n] iterations left, starting
    at attempt number [a], leaves behind: [tr] are the events it added. *)
Definition uploadShape (n : nat) (a : Z) (url : string) (st : St)
    (err : option error) (st' : St) (tr : list Event) : Prop :=
  let codes := statusesOf tr in
  (length (requestsOf tr) <= n)%nat
  /\ (forall req, req ∈ requestsOf tr -> req = put url)
  /\ (err = None <-> exists c, last codes = Some c /\ isSuccessStatus c = true)
  /\ successfullCounter st' = successfullCounter st + match err with Some _ => 0 | None => 1 end
  /\ (failedCounter st' = failedCounter st \/ failedCounter st' = failedCounter st + 1)
  /\ (err = None -> failedCounter st' = failedCounter st)
  /\ (forall i c, codes !! i = Some c -> (S i < length codes)%nat -> isRetryStatus c = true)
  /\ retriesOf tr = imap (fun i c => (a + Z.of_nat i, c)) (List.filter isRetryStatus codes)
  /\ sleepsOf tr = (fun _ => 2) <$> List.filter isRetryStatus codes
  /\ (length codes = n -> (forall c, c ∈ codes -> isRetryStatus c = true) ->
      err <> None /\ failedCounter st' = failedCounter st + 1)
  /\ (forall c, last codes = Some c -> isSuccessStatus c = false -> isRetryStatus c = false ->
      err <> None /\ failedCounter st' = failedCounter st + 1
      /\ last tr = Some (EvResponse c))
  /\ finishCounter st' = finishCounter st.

(** How one create-collection call ends, by what it observed. *)
Inductive CreateEnd (url : string) (st : St) : option error -> St -> list Event -> Prop :=
| CreateNoRequest err :
    CreateEnd url st (Some err) st []
| CreateTransport err err' st1 :
    CreateEnd url st (Some err) st1 [EvRequest (mkcol url); EvTransportError err']
| CreateRefused c err st1 :
    isCollectionStatus c = false ->
    CreateEnd url st (Some err) st1 [EvRequest (mkcol url); EvResponse c]
| CreateDone c st1 log :
    isCollectionStatus c = true ->
    requestsOf log = [] -> statusesOf log = [] ->
    CreateEnd url st None st1 ([EvRequest (mkcol url); EvResponse c] ++ log)%list.

Definition nonEmpty (part : string) : bool := negb (String.eqb part "").

(** What the loop over the parts leaves behind: [issued] are the
    collection URLs requested, in order. *)
Definition provisionShape (segments : list string) (err : option error)
    (tr : list Event) (issued : list string) : Prop :=
  requestsOf tr = mkcol <$> issued
  /\ issued `prefix_of` segments
  /\ (length (statusesOf tr) <= length issued)%nat
  /\ (forall i c, statusesOf tr !! i = Some c -> (S i < length issued)%nat ->
       isCollectionStatus c = true)
  /\ (err = None <->
      issued = segments /\ length (statusesOf tr) = length issued
      /\ forall c, c ∈ statusesOf tr -> isCollectionStatus c = true).

Definition jobURL (media : MediaFile) : string :=
  (nextcloudURL ++ "/" ++ Ts media ++ "/" ++ Filepath.Base (Path media))%string.

(** The upload of [media] ends before any HTTP status arrives, whatever
    the state of the server: the file cannot be opened, or the request
    cannot be built, or the transport fails. *)
Definition noStatus (media : MediaFile) : Prop :=
  openError (Abs cwd (Path media)) <> None
  \/ newRequestError "PUT" (jobURL media) <> None
  \/ forall srv, exists err srv', roundTrip (put (jobURL media)) srv = (DoFails err, srv').

(** The upload of [media], started when the server is in the state [srv],
    ends before any HTTP status arrives: the file cannot be opened, or the
    request cannot be built, or the round trip of its PUT fails. *)
Definition noStatusAt (media : MediaFile) (srv : Server) : Prop :=
  openError (Abs cwd (Path media)) <> None
  \/ newRequestError "PUT" (jobURL media) <> None
  \/ exists err srv', roundTrip (put (jobURL media)) srv = (DoFails err, srv').

End Shapes.

(** ** The first variant of the program

    The file holds two programs. The first one (lines 1-236) has no EXIF
    fallback, no retries and no directory provisioning: one walk collects a
    list of photos from the sidecars, then one goroutine per photo uploads
    it, at most ten of them at a time. Its [extractDateFolder] has the text
    of the second variant's, which is the definition used here. *)

Module Simple.

Record PhotoToUpload := { FilePath : string; SubFolder : string }.

(** The suffix patterns of [getPhotoPathFromJSON]. *)
Definition patterns : list string :=
  [".supplemental-metadata.json"; ".suppl.json"; ".suppl*.json"; ".supplemental-metad.json"].

(** [trimSuffixWildcard]: the first pattern that is a suffix of [s] is
    trimmed off. *)
Fixpoint trimSuffixWildcard (s : string) (patterns : list string) : string :=
  match patterns with
  | [] => s
  | pattern :: rest =>
      if GoStrings.HasSuffix s pattern then GoStrings.TrimSuffix s pattern
      else trimSuffixWildcard s rest
  end.

(** [getPhotoPathFromJSON]. *)
Definition getPhotoPathFromJSON (jsonPath : string) : string :=
  trimSuffixWildcard jsonPath patterns.

Section Pipeline.

Variable localZone : GoTime.Location.
Variable walkEntries : string -> list WalkEntry.
Variable readSidecar : string -> SidecarRead.

(** The callback of the walk of [processDirectory]; the variable it
    changes is the global [photosList]. *)
Definition visit (e : WalkEntry) (photosList : list PhotoToUpload)
    : list PhotoToUpload * option error :=
  match e with
  | VisitErr _ err => (photosList, Some err)
  | Visit path info =>
      if GoStrings.HasSuffix (Name info) ".json" then
        let jsonPath := path in
        let photoPath := getPhotoPathFromJSON jsonPath in
        if String.eqb photoPath "" then (photosList, None)
        else
          match readSidecar jsonPath with
          | SidecarOpenFails _ => (photosList, None)
          | SidecarReadFails _ => (photosList, None)
          | SidecarDecoded metadata =>
              match extractDateFolder localZone (Timestamp (PhotoTakenTime metadata)) with
              | (subFolder, None) =>
                  ((photosList ++ [{| FilePath := photoPath; SubFolder := subFolder |}])%list,
                   None)
              | (_, Some _) =>
                  match extractDateFolder localZone (Timestamp (CreationTime metadata)) with
                  | (subFolder, None) =>
                      ((photosList
                        ++ [{| FilePath := photoPath; SubFolder := subFolder |}])%list,
                       None)
                  | (_, Some _) => (photosList, None)
                  end
              end
          end
      else (photosList, None)
  end.

(** [processDirectory]: the global list after the walk, and the result of
    [filepath.Walk]. *)
Definition processDirectory (rootDir : string) (photosList : list PhotoToUpload)
    : list PhotoToUpload * option error :=
  Walk (walkEntries rootDir) visit photosList.

(** The bucket of a timestamp that parses. *)
Definition bucketOf (timestamp : string) : option string :=
  match extractDateFolder localZone timestamp with
  | (subFolder, None) => Some subFolder
  | (_, Some _) => None
  end.

(** The photo a visited entry contributes to the list: none unless the
    entry is a sidecar by its name, the path left after trimming is not
    empty, the sidecar can be read and one of its two timestamps parses,
    [photoTakenTime] before [creationTime]. *)
Definition photoOf (entry : string * FileInfo) : option PhotoToUpload :=
  let '(path, info) := entry in
  if GoStrings.HasSuffix (Name info) ".json" && negb (String.eqb (getPhotoPathFromJSON path) "")
  then
    match readSidecar path with
    | SidecarDecoded metadata =>
        match bucketOf (Timestamp (PhotoTakenTime metadata)) with
        | Some subFolder =>
            Some {| FilePath := getPhotoPathFromJSON path; SubFolder := subFolder |}
        | None =>
            match bucketOf (Timestamp (CreationTime metadata)) with
            | Some subFolder =>
                Some {| FilePath := getPhotoPathFromJSON path; SubFolder := subFolder |}
            | None => None
            end
        end
    | _ => None
    end
  else None.

End Pipeline.

(** The first error among the entries of a walk. *)
Fixpoint walkError (entries : list WalkEntry) : option error :=
  match entries with
  | [] => None
  | Visit _ _ :: rest => walkError rest
  | VisitErr _ err :: _ => Some err
  end.

Section Upload.

Context {Server : Type}.
Variable roundTrip : Request -> Server -> DoResult * Server.
Variable newRequestError : string -> string -> option error.
Variable openError : string -> option error.

(** [uploadFile]: one attempt. This variant has no counters: of the state
    it uses the server and the trace. *)
Definition uploadFile (filePath nextcloudURL subFolder : string) (st : State Server)
    : option error * State Server :=
  let fileName := Filepath.Base filePath in
  let url := nextcloudURL ++ "/" ++ subFolder ++ "/" ++ fileName in
  match openError filePath with
  | Some err => (Some err, st)
  | None =>
      match newRequestError "PUT" url with
      | Some err => (Some err, st)
      | None =>
          match Do roundTrip {| Method := "PUT"; URL := url |} st with
          | (DoFails err, st1) => (Some err, st1)
          | (Response StatusCode Status, st1) =>
              if negb (StatusCode =? 201) && negb (StatusCode =? 200)
              then (Some ("failed to upload " ++ fileName ++ " due to " ++ Status), st1)
              else
                (None,
                 emit (EvLog ("Successfully uploaded " ++ fileName ++ " to " ++ url)) st1)
          end
      end
  end.

(** The body of an upload goroutine between taking and giving back its
    slot: the upload, and the log line of a failure. *)
Definition uploadJob (nextcloudURL : string) (photo : PhotoToUpload) (st : State Server)
    : State Server :=
  match uploadFile (FilePath photo) nextcloudURL (SubFolder photo) st with
  | (Some err, st1) =>
      emit (EvLog ("Failed to upload photo " ++ FilePath photo ++ ": " ++ err)) st1
  | (None, st1) => st1
  end.

End Upload.

(** *** The goroutines of [main] *)

(** Where an upload goroutine stands: at [semaphore <- struct{}{}]; holding
    a slot, before [uploadFile]; at the deferred [<-semaphore]; at the
    deferred [wg.Done()]; gone. *)
Inductive Stage := Acquire | Upload | Release | Done | Exit.

Record Uploader := { photo : PhotoToUpload; stage : Stage }.

(** The main goroutine: in the loop that starts the goroutines; in
    [wg.Wait()]; returned. *)
Inductive MainPC :=
| MLoop (rest : list PhotoToUpload)
| MWait
| MReturn.

(** The capacity of the channel [semaphore]. *)
Definition slots : Z := 10.

Record Machine (Server : Type) := {
  shared : State Server;
  mainPC : MainPC;
  semaphore : Z;
  wg : Z;
  uploaders : list Uploader
}.
Arguments shared {Server} _.
Arguments mainPC {Server} _.
Arguments semaphore {Server} _.
Arguments wg {Server} _.
Arguments uploaders {Server} _.

(** Which goroutine the scheduler lets run next. *)
Inductive Action := ActMain | ActUploader (i : nat).

Section Goroutines.

Context {Server : Type}.
Variable roundTrip : Request -> Server -> DoResult * Server.
Variable newRequestError : string -> string -> option error.
Variable openError : string -> option error.
Variable nextcloudURL : string.

Definition initMachine (photosList : list PhotoToUpload) (st : State Server)
    : Machine Server :=
  {| shared := st; mainPC := MLoop photosList; semaphore := 0; wg := 0; uploaders := [] |}.

(** One step of the main goroutine; [None] while it is blocked or after it
    has returned. *)
Definition stepMain (c : Machine Server) : option (Machine Server) :=
  match mainPC c with
  | MLoop (photo :: rest) =>
      Some {| shared := shared c; mainPC := MLoop rest; semaphore := semaphore c;
              wg := wg c + 1;
              uploaders := (uploaders c ++ [{| photo := photo; stage := Acquire |}])%list |}
  | MLoop [] =>
      Some {| shared := shared c; mainPC := MWait; semaphore := semaphore c; wg := wg c;
              uploaders := uploaders c |}
  | MWait =>
      if wg c =? 0
      then Some {| shared := shared c; mainPC := MReturn; semaphore := semaphore c;
                   wg := wg c; uploaders := uploaders c |}
      else None
  | MReturn => None
  end.

(** One step of upload goroutine [i]. *)
Definition stepUploader (i : nat) (c : Machine Server) : option (Machine Server) :=
  match uploaders c !! i with
  | Some u =>
      match stage u with
      | Acquire =>
          if semaphore c <? slots
          then Some {| shared := shared c; mainPC := mainPC c;
                       semaphore := semaphore c + 1; wg := wg c;
                       uploaders :=
                         <[i := {| photo := photo u; stage := Upload |}]> (uploaders c) |}
          else None
      | Upload =>
          Some {| shared :=
                    uploadJob roundTrip newRequestError openError nextcloudURL (photo u)
                      (shared c);
                  mainPC := mainPC c; semaphore := semaphore c; wg := wg c;
                  uploaders :=
                    <[i := {| photo := photo u; stage := Release |}]> (uploaders c) |}
      | Release =>
          Some {| shared := shared c; mainPC := mainPC c;
                  semaphore := semaphore c - 1; wg := wg c;
                  uploaders :=
                    <[i := {| photo := photo u; stage := Done |}]> (uploaders c) |}
      | Done =>
          Some {| shared := shared c; mainPC := mainPC c; semaphore := semaphore c;
                  wg := wg c - 1;
                  uploaders :=
                    <[i := {| photo := photo u; stage := Exit |}]> (uploaders c) |}
      | Exit => None
      end
  | None => None
  end.

Definition step (a : Action) (c : Machine Server) : option (Machine Server) :=
  match a with
  | ActMain => stepMain c
  | ActUploader i => stepUploader i c
  end.

(** The configuration after the scheduler has tried the goroutines in the
    order of [schedule]; a goroutine that cannot move is passed over. *)
Fixpoint exec (schedule : list Action) (c : Machine Server) : Machine Server :=
  match schedule with
  | [] => c
  | a :: rest => exec rest (default c (step a c))
  end.

End Goroutines.

(** How a run of [main] stands: ended by [log.Fatal] or [log.Fatalf]; or in
    the upload phase, with the list of photos and the configuration of the
    goroutines. *)
Inductive Run (Server : Type) :=
| RunFatal (msg : string)
| RunUploads (photosList : list PhotoToUpload) (c : Machine Server).
Arguments RunFatal {Server} msg.
Arguments RunUploads {Server} photosList c.

Section Main.

Context {Server : Type}.
Variable localZone : GoTime.Location.
Variable walkEntries : string -> list WalkEntry.
Variable readSidecar : string -> SidecarRead.
Variable roundTrip : Request -> Server -> DoResult * Server.
Variable newRequestError : string -> string -> option error.
Variable openError : string -> option error.

(** [main], when the scheduler has gone through [schedule] after the
    goroutines' loop began. *)
Definition main (environ : gmap string string) (schedule : list Action)
    (st : State Server) : Run Server :=
  let nextcloudURL := Getenv environ "NEXTCLOUD_URL" in
  let username := Getenv environ "NEXTCLOUD_USER" in
  let password := Getenv environ "NEXTCLOUD_PASSWORD" in
  let photosDir := Getenv environ "PHOTOS_DIR" in
  if String.eqb nextcloudURL "" || String.eqb username "" || String.eqb password ""
     || String.eqb photosDir ""
  then RunFatal "Missing required environment variables: NEXTCLOUD_URL, NEXTCLOUD_USER, NEXTCLOUD_PASSWORD, PHOTOS_DIR"
  else
    match processDirectory localZone walkEntries readSidecar photosDir [] with
    | (_, Some err) => RunFatal ("Error processing directory: " ++ err)
    | (photosList, None) =>
        let st1 :=
          emit (EvLog ("Successfully processed "
                       ++ GoTime.appendInt (Z.of_nat (length photosList)) 0 ++ " photos"))
            st in
        RunUploads photosList
          (exec roundTrip newRequestError openError nextcloudURL schedule
             (initMachine photosList st1))
    end.

End Main.

(** The request [uploadFile] sends for a photo, if it gets as far as
    sending one. *)
Definition requestOf (newRequestError : string -> string -> option error)
    (openError : string -> option error) (nextcloudURL : string) (p : PhotoToUpload)
    : option Request :=
  let url := nextcloudURL ++ "/" ++ SubFolder p ++ "/" ++ Filepath.Base (FilePath p) in
  match openError (FilePath p), newRequestError "PUT" url with
  | None, None => Some (put url)
  | _, _ => None
  end.

(** An upload goroutine holds a slot of the semaphore. *)
Definition holdsSlot (u : Uploader) : bool :=
  match stage u with
  | Upload => true
  | Release => true
  | _ => false
  end.

(** An upload goroutine is back from [uploadFile]. *)
Definition uploaded (u : Uploader) : bool :=
  match stage u with
  | Release => true
  | Done => true
  | Exit => true
  | _ => false
  end.

(** An upload goroutine has not yet called [wg.Done()]. *)
Definition running (u : Uploader) : bool :=
  match stage u with
  | Exit => false
  | _ => true
  end.

(** The photos the main goroutine still has to start a goroutine for. *)
Definition toStart (pc : MainPC) : list PhotoToUpload :=
  match pc with
  | MLoop rest => rest
  | _ => []
  end.

(** What holds of every configuration a run over [photosList] can reach
    from a state with trace [tr0]. *)
Definition Inv {Server : Type}
    (newRequestError : string -> string -> option error)
    (openError : string -> option error) (nextcloudURL : string)
    (photosList : list PhotoToUpload) (tr0 : list Event) (c : Machine Server) : Prop :=
  photosList = ((photo <$> uploaders c) ++ toStart (mainPC c))%list
  /\ semaphore c = Z.of_nat (length (List.filter holdsSlot (uploaders c)))
  /\ semaphore c <= slots
  /\ wg c = Z.of_nat (length (List.filter running (uploaders c)))
  /\ (exists tr, trace (shared c) = (tr0 ++ tr)%list
        /\ requestsOf tr
           ≡ₚ omap (fun u => requestOf newRequestError openError nextcloudURL (photo u))
                (List.filter uploaded (uploaders c)))
  /\ (mainPC c = MReturn -> forall u, u ∈ uploaders c -> stage u = Exit).

End Simple.

(** ** Vocabulary for the accounting of the upload goroutines *)

(** The jobs the sender goroutine has not yet put on the [jobs] channel. *)
Definition pendingJobs (mediaList : list MediaFile) (s : Sender) : list MediaFile :=
  match s with
  | SIdle => mediaList
  | SSend rest => rest
  | SExit => []
  end.

(** A worker holds a job: it has received one and not yet sent its
    progress unit. *)
Definition busy (w : MediaWorker) : bool :=
  match w with
  | WUpload _ _ _ => true
  | WLog _ _ => true
  | WSend => true
  | _ => false
  end.

(** A worker has not yet called [wg.Done()]. *)
Definition alive (w : MediaWorker) : bool :=
  match w with
  | WExit => false
  | _ => true
  end.

(** The workers the main goroutine still has to start, of [n]. *)
Definition workersToStart (n : nat) (pc : MainPC) : nat :=
  match pc with
  | MSpawnMedia todo => todo
  | MGoCloser => 0
  | MDrain => 0
  | MReturn => 0
  | MPanic => 0
  | _ => n
  end.

(** The main goroutine has started the sender. *)
Definition uploading (pc : MainPC) : bool :=
  match pc with
  | MGoCloser => true
  | MDrain => true
  | MReturn => true
  | _ => false
  end.

(** The main goroutine has started the closer. *)
Definition draining (pc : MainPC) : bool :=
  match pc with
  | MDrain => true
  | MReturn => true
  | _ => false
  end.

(** What holds of every configuration a run with the jobs [mediaList] can
    reach from a state whose progress count was [finish0]: every job is
    still with the sender, or in the channel, or held by a worker, or
    reported by a progress unit in the channel, or counted; the wait group
    counts the workers that have not ended; a worker ends only when the
    channel of jobs is closed and empty; the progress channel is closed only
    when no worker is left. *)
Definition Accounting {Server : Type} (parallelUploads : Z) (mediaList : list MediaFile)
    (finish0 : Z) (c : Machine Server) : Prop :=
  let x := xfer c in
  Z.of_nat (length mediaList)
  = Z.of_nat (length (pendingJobs mediaList (sender x))) + Z.of_nat (length (jobs x))
    + Z.of_nat (length (List.filter busy (mediaWorkers x)))
    + Z.of_nat (length (progressChan x)) + (finishCounter (shared c) - finish0)
  /\ finish0 <= finishCounter (shared c)
  /\ Forall (fun units => units = 1) (progressChan x)
  /\ (jobsClosed x = true -> sender x = SExit)
  /\ wgMedia x = Z.of_nat (length (List.filter alive (mediaWorkers x)))
  /\ ((length (List.filter alive (mediaWorkers x)) < length (mediaWorkers x))%nat ->
      jobsClosed x = true /\ jobs x = [])
  /\ (progressClosed x = true -> wgMedia x = 0 /\ closer x = CExit)
  /\ (closer x <> CIdle -> draining (mainPC c) = true)
  /\ (length (mediaWorkers x) + workersToStart (Z.to_nat parallelUploads) (mainPC c))%nat
     = Z.to_nat parallelUploads
  /\ (mainPC c = MReturn -> progressClosed x = true /\ progressChan x = [])
  /\ (uploading (mainPC c) = false -> sender x = SIdle).

(** What holds of every configuration of a run without workers over at
    least one directory. *)
Definition Stuck {Server : Type} (directories : list string) (st : State Server)
    (c : Machine Server) : Prop :=
  shared c = st
  /\ dirWorkers (prov c) = []
  /\ mediaWorkers (xfer c) = [] /\ sender (xfer c) = SIdle /\ closer (xfer c) = CIdle
  /\ match mainPC c with
     | MStart => wgDir (prov c) = 0
     | MSpawnDir todo => todo = 0%nat /\ wgDir (prov c) = Z.of_nat (length directories)
     | MSendDir _ => wgDir (prov c) = Z.of_nat (length directories)
     | MWaitDir => wgDir (prov c) = Z.of_nat (length directories)
     | _ => False
     end.

(** ** Vocabulary for the paths of the walk *)

(** The name of a directory entry: not empty, not [.] or [..], without a
    slash. *)
Definition plainName (n : string) : bool :=
  negb (String.eqb n "") && negb (String.eqb n ".") && negb (String.eqb n "..")
  && negb (GoStrings.Contains n "/").

(** The elements [Clean] has kept so far, innermost first, are names on top
    of a run of [..], and a rooted path has no [..]. *)
Definition cleanAcc (rooted : bool) (acc : list string) : Prop :=
  exists names dots,
    acc = (names ++ dots)%list
    /\ Forall (fun n => plainName n = true) names
    /\ Forall (fun d => d = "..") dots
    /\ (rooted = true -> dots = []).

(** A path from its elements, as [Clean] writes it. *)
Definition renderPath (rooted : bool) (elems : list string) : string :=
  let body := GoStrings.Join elems "/" in
  if rooted then "/" ++ body
  else match body with EmptyString => "." | _ => body end.

(** The elements, each followed by a slash. *)
Fixpoint slashed (elems : list string) : string :=
  match elems with
  | [] => ""
  | e :: rest => e ++ "/" ++ slashed rest
  end.

(** ** Vocabulary for the requests of a run *)

(** What one directory job sends: create-collection requests for the first
    segment URLs of the directory. *)
Definition directoryTrace (nextcloudURL directory : string) (tr : list Event) : Prop :=
  exists issued,
    requestsOf tr = mkcol <$> issued
    /\ issued `prefix_of` segmentURLs nextcloudURL directory.

(** What one upload job sends: at most three requests, each the PUT of the
    entry. *)
Definition entryTrace (nextcloudURL : string) (entry : string * string) (tr : list Event)
    : Prop :=
  (length (requestsOf tr) <= 3)%nat
  /\ forall req, req ∈ requestsOf tr ->
       req = put (nextcloudURL ++ "/" ++ entry.2 ++ "/" ++ Filepath.Base entry.1)%string.

(** * Sanity checks of the library models *)

Example Ext_json : Filepath.Ext "/p/IMG_1.jpg.supplemental-metadata.json" = ".json".
Proof. reflexivity. Qed.
Example Ext_ds : Filepath.Ext "/p/.DS_Store" = ".DS_Store".
Proof. reflexivity. Qed.
Example Ext_none : Filepath.Ext "/p.d/README" = "".
Proof. reflexivity. Qed.
Example Base_ex : Filepath.Base "/p/q/IMG_1.jpg" = "IMG_1.jpg".
Proof. reflexivity. Qed.
Example Base_slashes : Filepath.Base "///" = "/".
Proof. reflexivity. Qed.
Example Dir_ex : Filepath.Dir "/p/q/IMG_1.jpg.json" = "/p/q".
Proof. reflexivity. Qed.
Example Dir_plain : Filepath.Dir "a.json" = ".".
Proof. reflexivity. Qed.
Example Join_ex : Filepath.Join "/p/q" "IMG_1.jpg" = "/p/q/IMG_1.jpg".
Proof. reflexivity. Qed.
Example Join_empty_title : Filepath.Join "/p/q" "" = "/p/q".
Proof. reflexivity. Qed.
Example Join_dotdot : Filepath.Join "/p/q" "../x.jpg" = "/p/x.jpg".
Proof. reflexivity. Qed.
Example Clean_rel : Filepath.Clean "a/../../b/./c//" = "../b/c".
Proof. reflexivity. Qed.
Example Split_ex : GoStrings.Split "2024/01" "/" = ["2024"; "01"].
Proof. reflexivity. Qed.
Example Split_empty : GoStrings.Split "" "/" = [""].
Proof. reflexivity. Qed.
Example Count_ex : GoStrings.CountByte "IMG_1.jpg.supplemental-metadata.json" "." = 3.
Proof. reflexivity. Qed.
Example ParseISO_ok : GoTime.ParseISO "2021-03-04T05:06:07Z" = Some {| GoTime.cYear := 2021; GoTime.cMonth := 3 |}.
Proof. reflexivity. Qed.
Example ParseISO_frac : GoTime.ParseISO "2021-03-04T5:06:07.250Z" = Some {| GoTime.cYear := 2021; GoTime.cMonth := 3 |}.
Proof. reflexivity. Qed.
Example ParseISO_feb30 : GoTime.ParseISO "2021-02-30T05:06:07Z" = None.
Proof. reflexivity. Qed.
Example ParseISO_offset : GoTime.ParseISO "2021-03-04T05:06:07+01:00" = None.
Proof. reflexivity. Qed.
Example ParseInt_ok : GoTime.ParseInt "1600000000" = Some 1600000000.
Proof. reflexivity. Qed.
Example ParseInt_neg : GoTime.ParseInt "-5" = Some (-5).
Proof. reflexivity. Qed.
Example ParseInt_range : GoTime.ParseInt "9223372036854775808" = None.
Proof. reflexivity. Qed.
Example ParseInt_bad : GoTime.ParseInt "12a" = None /\ GoTime.ParseInt "" = None /\ GoTime.ParseInt "+" = None.
Proof. repeat split; reflexivity. Qed.
Example Format_epoch : GoTime.Format (GoTime.Unix GoTime.UTC 1600000000) = "2020/09".
Proof. reflexivity. Qed.
Example Format_zero : GoTime.Format GoTime.zeroTime = "0001/01".
Proof. reflexivity. Qed.
Example Format_10001 : GoTime.Format (GoTime.Unix GoTime.UTC 253450000000) = "10001/07".
Proof. vm_compute. reflexivity. Qed.
Example Format_leap : GoTime.Format (GoTime.Unix GoTime.UTC 1709251199) = "2024/02".
Proof. reflexivity. Qed.
Example Format_bc : GoTime.Format (GoTime.Unix GoTime.UTC (-62198755200)) = "-0001/01".
Proof. vm_compute. reflexivity. Qed.

(** * Properties of the resolution phases *)

Local Open Scope list_scope.

(** [parts[1]] in the normalization loop is always in range: a value that
    contains the sentinel contains a slash. *)
Lemma Contains_slash_SplitByte (s : string) :
  GoStrings.Contains s "/" = true -> snd (GoStrings.SplitByte s "/") <> [].
Proof.
  induction s as [|a s IH]; simpl; [discriminate|].
  destruct (GoStrings.SplitByte s "/") as [hd tl] eqn:E.
  destruct (Ascii.eqb a "/") eqn:Ea; simpl.
  - intros _. discriminate.
  - intros H. apply IH. destruct s; simpl in *; [discriminate | exact H].
Qed.

Lemma HasPrefix_Contains_slash (s : string) :
  GoStrings.HasPrefix s "0001/" = true -> GoStrings.Contains s "/" = true.
Proof.
  destruct s as [|a [|b [|c [|d [|e s]]]]]; simpl; try discriminate;
    repeat (match goal with
            | |- context [Ascii.eqb ?x ?y] => destruct (Ascii.eqb_spec x y); subst; try discriminate
            end).
  intros ->. reflexivity.
Qed.

Lemma Contains_sentinel_slash (s : string) :
  GoStrings.Contains s "0001/" = true -> GoStrings.Contains s "/" = true.
Proof.
  induction s as [|a s IH].
  - simpl. discriminate.
  - intros H. change (GoStrings.Contains (String a s) "0001/")
      with (GoStrings.HasPrefix (String a s) "0001/" || GoStrings.Contains s "0001/") in H.
    apply orb_true_iff in H as [H|H].
    + by apply HasPrefix_Contains_slash.
    + change (GoStrings.Contains (String a s) "/")
        with (GoStrings.HasPrefix (String a s) "/" || GoStrings.Contains s "/").
      rewrite (IH H). apply orb_true_r.
Qed.

Lemma Contains_sentinel_parts (s : string) :
  GoStrings.Contains s "0001/" = true ->
  (1 < length (GoStrings.Split s "/"))%nat.
Proof.
  intros H. apply Contains_sentinel_slash, Contains_slash_SplitByte in H.
  unfold GoStrings.Split. destruct (GoStrings.SplitByte s "/") as [hd [|x tl]]; simpl in *;
    [congruence | lia].
Qed.

(** C1 (the code at the failing inputs): the sidecar of [IMG_1.jpg] has an
    unparsable [photoTakenTime] and a [creationTime] that resolves to
    [2020/09], yet the path is written with the empty bucket; the sidecar of
    [IMG_2.jpg] has two unparsable timestamps, yet its path is written too,
    with the empty bucket. *)
Theorem unparsable_photoTakenTime_writes_empty_bucket :
  extractDateFolder GoTime.UTC "not-a-timestamp"
    = ("", Some "invalid timestamp format: not-a-timestamp")
  /\ extractDateFolder GoTime.UTC "1600000000" = ("2020/09", None)
  /\ parseExtractMetadatJsonFileAndAddToMapImage GoTime.UTC Photos.readSidecar
       ["/photos/taken/IMG_1.jpg.supplemental-metadata.json"] ∅
     = {[ "/photos/taken/IMG_1.jpg" := "" ]}
  /\ parseExtractMetadatJsonFileAndAddToMapImage GoTime.UTC Photos.readSidecar
       ["/photos/taken/IMG_2.jpg.supplemental-metadata.json"] ∅
     = {[ "/photos/taken/IMG_2.jpg" := "" ]}.
Proof. repeat split; vm_compute; reflexivity. Qed.

(** C3 (the code at the failing input): after both resolution phases the
    path of [IMG_2.jpg], whose sidecar has no parsable timestamp, maps to the
    empty bucket, and normalization leaves it empty; a sidecar whose JSON is
    malformed (decoded as the zero value) writes its own directory with the
    empty bucket. *)
Theorem resolution_leaves_empty_bucket :
  Photos.resolve "/photos/taken" ∅ !! "/photos/taken/IMG_2.jpg" = Some ""
  /\ Photos.processDirectory "/photos/taken" ∅ !! "/photos/taken/IMG_2.jpg" = Some ""
  /\ parseExtractMetadatJsonFileAndAddToMapImage GoTime.UTC
       (fun _ => SidecarDecoded zeroPhotoMetadata)
       ["/photos/taken/IMG_9.jpg.supplemental-metadata.json"] ∅
     = {[ "/photos/taken" := "" ]}.
Proof. repeat split; vm_compute; reflexivity. Qed.

(** C4 (the code at the failing input): the epoch [253450000000] resolves
    to the bucket [10001/07], whose year component is [10001], and the
    normalization loop rewrites it to [2000/07]. *)
Theorem normalization_rewrites_year_10001 :
  Photos.resolve "/photos/future" ∅ !! "/photos/future/IMG_3.jpg" = Some "10001/07"
  /\ yearOf "10001/07" = "10001"
  /\ Photos.processDirectory "/photos/future" ∅ !! "/photos/future/IMG_3.jpg" = Some "2000/07".
Proof. repeat split; vm_compute; reflexivity. Qed.

(** C7 (the code at the failing inputs): a sidecar that cannot be opened
    ends the sidecar loop, so the good sidecar listed after it is never
    read, although alone it resolves to [2021/03]; its media file is then
    dated by the fallback. A media file that cannot be opened ends the
    fallback loop, so the file listed after it gets no entry. *)
Theorem unreadable_file_ends_the_batch :
  parseExtractMetadatJsonFileAndAddToMapImage GoTime.UTC Photos.readSidecar
    ["/photos/faulty/IMG_4.jpg.supplemental-metadata.json";
     "/photos/faulty/IMG_5.jpg.supplemental-metadata.json"] ∅ = ∅
  /\ parseExtractMetadatJsonFileAndAddToMapImage GoTime.UTC Photos.readSidecar
       ["/photos/faulty/IMG_5.jpg.supplemental-metadata.json"] ∅
     = {[ "/photos/faulty/IMG_5.jpg" := "2021/03" ]}
  /\ Photos.resolve "/photos/faulty" ∅ !! "/photos/faulty/IMG_5.jpg" = Some "0001/01"
  /\ parseExtractMediaFilesWithoutMedtadataJsonFileAddToMap Photos.readMedia
       ["/photos/locked/locked.jpg"; "/photos/locked/z.jpg"] ∅ = ∅
  /\ parseExtractMediaFilesWithoutMedtadataJsonFileAddToMap Photos.readMedia
       ["/photos/locked/z.jpg"] ∅ = {[ "/photos/locked/z.jpg" := "2021/05" ]}.
Proof. repeat split; vm_compute; reflexivity. Qed.

(** C8 (the code at the failing input): the walk of [/photos/denied] stops
    with an error after the first media file; [getMediaFileList] drops the
    error, and [main] goes on to create the directories and to upload that
    file. *)
Theorem walk_error_does_not_stop_the_run :
  getMediaFileList_walkError Photos.walkEntries "/photos/denied" = Some "permission denied"
  /\ getMediaFileList Photos.walkEntries "/photos/denied" = ([], ["/photos/denied/a.jpg"])
  /\ exists myMap st,
       main GoTime.UTC Photos.walkEntries Photos.readSidecar Photos.readMedia
         (always 201 "201 Created") noError2 noError1 "/"
         (Photos.cfg "/photos/denied") (initState tt) = Exit0 myMap st
       /\ requestsOf (trace st)
          = [mkcol "https://cloud.example/dav/2021";
             mkcol "https://cloud.example/dav/2021/05";
             put "https://cloud.example/dav/2021/05/a.jpg"]
       /\ successfullCounter st = 1.
Proof.
  split; [vm_compute; reflexivity|]. split; [vm_compute; reflexivity|].
  eexists _, _. split; [reflexivity|]. split; vm_compute; reflexivity.
Qed.

(** * Properties of the upload of one file *)

Lemma isRetry_not_success (c : Z) : isRetryStatus c = true -> isSuccessStatus c = false.
Proof. unfold isRetryStatus, isSuccessStatus. lia. Qed.

Section UploadFacts.

Context {Server : Type}.
Variable roundTrip : Request -> Server -> DoResult * Server.
Variable newRequestError : string -> string -> option error.
Variable openError : string -> option error.
Variable cwd : string.

Local Abbreviation St := (State Server).
Local Abbreviation doReq := (Do roundTrip).
Local Abbreviation iteration := (uploadIteration roundTrip newRequestError openError).
Local Abbreviation attempts := (uploadAttempts roundTrip newRequestError openError).
Local Abbreviation upload := (uploadFile roundTrip newRequestError openError cwd).

Lemma Do_trace (req : Request) (st : St) :
  trace (doReq req st).2 = (trace st ++ [EvRequest req; resultEvent (doReq req st).1])%list
  /\ successfullCounter (doReq req st).2 = successfullCounter st
  /\ failedCounter (doReq req st).2 = failedCounter st
  /\ finishCounter (doReq req st).2 = finishCounter st.
Proof. unfold Do. destruct (roundTrip req (server st)); simpl. auto. Qed.

Lemma uploadIteration_end (attempt : Z) (fileName url absFileLocation : string) (st : St) :
  IterationEnd attempt url st (iteration attempt fileName url absFileLocation st).
Proof.
  unfold uploadIteration.
  destruct (openError absFileLocation); [by constructor|].
  destruct (newRequestError "PUT" url); [by constructor|].
  pose proof (Do_trace {| Method := "PUT"; URL := url |} st) as (Ht & Hs & Hf & Hp).
  destruct (doReq {| Method := "PUT"; URL := url |} st) as [[err|c status] st1];
    simpl in Ht, Hs, Hf, Hp.
  - by eapply EndTransport.
  - destruct ((c =? 201) || (c =? 200)) eqn:E1.
    { apply (EndSuccess _ _ _ c); simpl; try done; try lia.
      unfold isSuccessStatus; lia. }
    destruct (c =? 204) eqn:E2.
    { apply (EndSuccess _ _ _ c); simpl; try done; try lia.
      unfold isSuccessStatus; lia. }
    destruct ((c =? 404) || (c =? 504)) eqn:E3.
    { apply (EndRetry _ _ _ c); simpl; try done.
      rewrite Ht, <- !app_assoc. reflexivity. }
    apply (EndHard _ _ _ c); simpl; try done; try lia.
    unfold isSuccessStatus; lia.
Qed.

Lemma attempts_run (fileName url absFileLocation : string) (n : nat) :
  forall (a : Z) (st : St),
    exists tr,
      trace (attempts n a fileName url absFileLocation st).2 = (trace st ++ tr)%list
      /\ uploadShape n a url st
           (attempts n a fileName url absFileLocation st).1
           (attempts n a fileName url absFileLocation st).2 tr.
Proof.
  induction n as [|n IH]; intros a st; simpl.
  - exists []. split; [by rewrite app_nil_r|].
    unfold uploadShape; simpl. repeat split; try done; try lia; try (by right).
    + intros req Hreq. by apply elem_of_nil in Hreq.
    + intros (c & Hc & _). discriminate.
  - pose proof (uploadIteration_end a fileName url absFileLocation st) as Hend.
    destruct (iteration a fileName url absFileLocation st) as [st1|err st1];
      inversion Hend as [e s1 Ht Hs Hf Hp|e e' s1 Ht Hs Hf Hp|c s1 Hc Ht Hs Hf Hp
                        |c e s1 Hc1 Hc2 Ht Hs Hf Hp|c s1 Hc Ht Hs Hf Hp]; subst; simpl.
    + (* 404 or 504: the loop goes on *)
      destruct (IH (a + 1) st1) as (tr' & Htr' & Shape).
      destruct (attempts n (a + 1) fileName url absFileLocation st1) as [err st'].
      simpl in *.
      exists ([EvRequest (put url); EvResponse c; EvRetry a c; EvSleep 2] ++ tr')%list.
      split; [by rewrite Htr', Ht, <- app_assoc|].
      destruct Shape as (S1 & S2 & S3 & S4 & S5 & S6 & S7 & S8 & S9 & S10 & S11 & S12).
      unfold uploadShape; simpl. rewrite Hs, Hf, Hp in *. rewrite Hc.
      pose proof (isRetry_not_success c Hc) as Hns.
      split_and?; try done.
      * lia.
      * intros req [->|Hreq]%elem_of_cons; auto.
      * rewrite last_cons. destruct (last (statusesOf tr')) as [y|] eqn:El.
        -- exact S3.
        -- split.
           ++ intros He. apply S3 in He as (c0 & Hc0 & _). discriminate.
           ++ intros (c0 & [= <-] & Hc0). congruence.
      * intros [|i] c0; simpl.
        -- intros [= <-]. done.
        -- intros Hl Hlt. apply (S7 i c0 Hl). lia.
      * rewrite imap_cons. f_equal; [f_equal; lia|]. rewrite S8.
        apply imap_ext. intros i x _. simpl. f_equal. lia.
      * rewrite fmap_cons. by f_equal.
      * intros [= Hlen] Hall. apply S10; [done|].
        intros c0 Hc0. apply Hall. by right.
      * intros c0. rewrite last_cons.
        destruct (last (statusesOf tr')) as [y|] eqn:El.
        -- intros [= <-] H1 H2. destruct (S11 y eq_refl H1 H2) as (E1 & E2 & E3).
           split_and?; try done. by rewrite last_cons, E3.
        -- intros [= <-] _ H2. congruence.
    + (* a local error: the file cannot be opened, the request not built *)
      exists []. split; [by rewrite app_nil_r|].
      unfold uploadShape; simpl. rewrite Hs, Hf, Hp.
      split_and?; try done; try lia; try (by left).
      * intros req Hreq. by apply elem_of_nil in Hreq.
      * split; [done|]. intros (c & Hc & _). discriminate.
    + (* a transport error *)
      exists [EvRequest (put url); EvTransportError e']. split; [done|].
      unfold uploadShape; simpl. rewrite Hs, Hf, Hp.
      split_and?; try done; try lia; try (by left).
      * intros req [->|Hreq]%elem_of_cons; [done|]. by apply elem_of_nil in Hreq.
      * split; [done|]. intros (c & Hc & _). discriminate.
    + (* 200, 201 or 204 *)
      exists [EvRequest (put url); EvResponse c]. split; [done|].
      unfold uploadShape; simpl. rewrite Hs, Hf, Hp.
      assert (isRetryStatus c = false) as Hnr
          by (destruct (isRetryStatus c) eqn:E; [apply isRetry_not_success in E; congruence|done]).
      rewrite Hnr.
      split_and?; try done; try lia; try (by left).
      * intros req [->|Hreq]%elem_of_cons; [done|]. by apply elem_of_nil in Hreq.
      * split; [|done]. intros _. by exists c.
      * intros _ Hall. rewrite (Hall c) in Hnr; [done|]. by left.
      * intros c0 Heq Hc0. simplify_eq. congruence.
    + (* any other status *)
      exists [EvRequest (put url); EvResponse c]. split; [done|].
      unfold uploadShape; simpl. rewrite Hs, Hf, Hp, Hc2.
      split_and?; try done; try lia; try (by right).
      * intros req [->|Hreq]%elem_of_cons; [done|]. by apply elem_of_nil in Hreq.
      * split; [done|]. intros (c0 & Heq & Hc0). simplify_eq. congruence.
      * intros c0 Heq _ _. by simplify_eq.
Qed.



End UploadFacts.


(** * Properties of directory provisioning *)

Section ProvisioningFacts.

Context {Server : Type}.
Variable roundTrip : Request -> Server -> DoResult * Server.
Variable newRequestError : string -> string -> option error.

Local Abbreviation St := (State Server).
Local Abbreviation createDirectory := (createDirectoryIfNotExists roundTrip newRequestError).
Local Abbreviation parts_loop := (createParts roundTrip newRequestError).

Lemma createDirectory_end (url : string) (st : St) :
  exists tr,
    trace (createDirectory url st).2 = (trace st ++ tr)%list
    /\ CreateEnd url st (createDirectory url st).1 (createDirectory url st).2 tr.
Proof.
  unfold createDirectoryIfNotExists.
  destruct (newRequestError "MKCOL" url).
  { exists []. simpl. split; [by rewrite app_nil_r|constructor]. }
  unfold Do. destruct (roundTrip _ (server st)) as [[err|c status] srv]; simpl.
  { eexists. split; [done|]. by constructor. }
  destruct (c =? 405) eqn:E1; simpl.
  { exists ([EvRequest (mkcol url); EvResponse c] ++ []). split; [done|].
    apply CreateDone; [|done..]. unfold isCollectionStatus. lia. }
  destruct (c =? 204) eqn:E2; simpl.
  { eexists ([EvRequest (mkcol url); EvResponse c] ++ [_]).
    split; [by rewrite <- app_assoc|].
    apply CreateDone; [|done..]. unfold isCollectionStatus. lia. }
  destruct (negb (c =? 201) && negb (c =? 200)) eqn:E3; simpl.
  { eexists. split; [done|]. apply CreateRefused. unfold isCollectionStatus. lia. }
  eexists ([EvRequest (mkcol url); EvResponse c] ++ [_]).
  split; [by rewrite <- app_assoc|].
  apply CreateDone; [|done..]. unfold isCollectionStatus. lia.
Qed.

Lemma createParts_run (parts : list string) :
  forall (currentPath : string) (st : St),
    exists tr issued,
      trace (parts_loop parts currentPath st).2 = (trace st ++ tr)%list
      /\ provisionShape (segmentPaths currentPath (List.filter nonEmpty parts))
           (parts_loop parts currentPath st).1 tr issued.
Proof.
  induction parts as [|part rest IH]; intros cur st; simpl.
  - exists [], []. split; [by rewrite app_nil_r|].
    unfold provisionShape; simpl. split_and?; try done.
    split; [|done]. intros _. split_and?; try done.
    intros c Hc. by apply elem_of_nil in Hc.
  - unfold nonEmpty at 1. destruct (String.eqb part "") eqn:Ep; simpl; [apply IH|].
    set (url := (cur ++ "/" ++ part)%string).
    destruct (createDirectory_end url st) as (tr1 & Ht1 & Hend).
    destruct (createDirectory url st) as [[err|] st1]; simpl in *.
    + (* this segment failed: the remaining ones are not requested *)
      inversion Hend as [e|e e' s1|c e s1 Hc|]; subst.
      * exists [], []. split; [done|]. unfold provisionShape; simpl.
        split_and?; try done; try lia; try apply prefix_nil.
        split; [done|]. intros (Heq & _). discriminate.
      * exists [EvRequest (mkcol url); EvTransportError e'], [url]. split; [done|].
        unfold provisionShape; simpl.
        split_and?; try done; try lia; try (apply prefix_cons, prefix_nil).
        split; [done|]. intros (_ & Hlen & _). discriminate.
      * exists [EvRequest (mkcol url); EvResponse c], [url]. split; [done|].
        unfold provisionShape; simpl.
        split_and?; try done; try lia; try (apply prefix_cons, prefix_nil).
        split; [done|]. intros (_ & _ & Hall).
        rewrite (Hall c) in Hc; [done|]. by left.
    + (* this segment is in place: on to the next *)
      inversion Hend as [| | |c s1 log Hc Hlog1 Hlog2]; subst.
      destruct (IH url st1) as (tr' & issued' & Ht' & Shape).
      destruct (parts_loop rest url st1) as [err st'].
      simpl in *.
      exists (([EvRequest (mkcol url); EvResponse c] ++ log) ++ tr')%list, (url :: issued').
      split; [by rewrite Ht', Ht1, <- !app_assoc|].
      destruct Shape as (P1 & P2 & P3 & P4 & P5).
      unfold provisionShape, requestsOf, statusesOf in *. simpl.
      rewrite !omap_app, Hlog1, Hlog2. simpl.
      split_and?.
      * by f_equal.
      * by apply prefix_cons.
      * lia.
      * intros [|i] c0; simpl.
        -- intros [= <-] _. done.
        -- intros Hl Hlt. apply (P4 i c0 Hl). lia.
      * rewrite P5. split.
        -- intros (-> & Hlen & Hall). split_and?; [done|by f_equal|].
           intros c0 [->|Hin]%elem_of_cons; auto.
        -- intros ([= ->] & [= Hlen] & Hall). split_and?; [done..|].
           intros c0 Hin. apply Hall. by right.
Qed.

(** The four ways a [createDirectoryIfNotExists] call ends. *)
Lemma createDirectory_outcome (url : string) (st : St) :
  let r := createDirectory url st in
  (newRequestError "MKCOL" url <> None /\ r.1 <> None /\ trace r.2 = trace st)
  \/ (newRequestError "MKCOL" url = None
      /\ ((exists e, r.1 <> None
                     /\ trace r.2 = trace st ++ [EvRequest (mkcol url); EvTransportError e])
          \/ (exists c, isCollectionStatus c = false /\ r.1 <> None
                        /\ trace r.2 = trace st ++ [EvRequest (mkcol url); EvResponse c])
          \/ (exists c log, isCollectionStatus c = true /\ r.1 = None
                            /\ requestsOf log = [] /\ statusesOf log = []
                            /\ trace r.2
                               = trace st ++ [EvRequest (mkcol url); EvResponse c] ++ log))).
Proof.
  cbv zeta. unfold createDirectoryIfNotExists.
  destruct (newRequestError "MKCOL" url) eqn:Eb; [by left|right]. split; [done|].
  unfold Do. destruct (roundTrip _ (server st)) as [[err|c status] srv]; simpl.
  { left. by exists err. }
  right.
  destruct (c =? 405) eqn:E1; simpl.
  { right. exists c, []. split_and?; try done.
    unfold isCollectionStatus. lia. }
  destruct (c =? 204) eqn:E2; simpl.
  { right. exists c, [EvLog ("Folder " ++ url ++ " already exists in Nextcloud")%string].
    rewrite <- app_assoc. split_and?; try done. unfold isCollectionStatus. lia. }
  destruct (negb (c =? 201) && negb (c =? 200)) eqn:E3; simpl.
  { left. exists c. split_and?; try done. unfold isCollectionStatus. lia. }
  right. exists c, [EvLog ("Successfully created directory: " ++ url)%string].
  rewrite <- app_assoc. split_and?; try done. unfold isCollectionStatus. lia.
Qed.

(** Where the loop over the parts stops. It returns no error when every
    segment was requested and created; otherwise it stopped at the first
    segment [failed] that could not be created, after the segments
    [created], answered with [codes]: the request for [failed] could not be
    built and was not sent, or it was sent and failed in transport, or it
    was answered with a status that is none of 200, 201, 204 and 405. *)
Lemma createParts_stop (parts : list string) :
  forall (currentPath : string) (st : St) (tr : list Event),
    trace (parts_loop parts currentPath st).2 = trace st ++ tr ->
    let segments := segmentPaths currentPath (List.filter nonEmpty parts) in
    ((parts_loop parts currentPath st).1 = None
     /\ requestsOf tr = mkcol <$> segments
     /\ length (statusesOf tr) = length segments
     /\ forall c, c ∈ statusesOf tr -> isCollectionStatus c = true)
    \/ ((parts_loop parts currentPath st).1 <> None
        /\ exists created failed rest codes,
             segments = created ++ failed :: rest
             /\ length codes = length created
             /\ (forall c, c ∈ codes -> isCollectionStatus c = true)
             /\ ((newRequestError "MKCOL" failed <> None
                  /\ requestsOf tr = mkcol <$> created /\ statusesOf tr = codes)
                 \/ (newRequestError "MKCOL" failed = None
                     /\ requestsOf tr = mkcol <$> (created ++ [failed])
                     /\ ((statusesOf tr = codes
                          /\ exists e, last tr = Some (EvTransportError e))
                         \/ exists c, isCollectionStatus c = false
                                      /\ statusesOf tr = codes ++ [c]
                                      /\ last tr = Some (EvResponse c))))).
Proof.
  induction parts as [|part rest IH]; intros cur st tr Htr; cbv zeta.
  - simpl in *. rewrite <- (app_nil_r (trace st)) in Htr at 1.
    apply app_inv_head in Htr as <-. left. split_and?; try done.
    by intros c ?%elem_of_nil.
  - simpl in Htr |- *. change (nonEmpty part) with (negb (String.eqb part "")).
    destruct (String.eqb part "") eqn:Ep; simpl; [exact (IH cur st tr Htr)|].
    set (url := (cur ++ "/" ++ part)%string) in *.
    pose proof (createDirectory_outcome url st) as Hout. cbv zeta in Hout.
    destruct (createDirectory url st) as [err st1]; simpl in Hout.
    destruct Hout as [(Hb & He & Ht)|(Hb & [(e & He & Ht)|[(c & Hc & He & Ht)|Hok]])].
    + (* the request cannot be built *)
      destruct err as [err|]; [|done]. simpl in Htr |- *.
      rewrite Ht, <- (app_nil_r (trace st)) in Htr at 1. apply app_inv_head in Htr as <-.
      right. split; [done|].
      exists [], url, (segmentPaths url (List.filter nonEmpty rest)), [].
      split_and?; try done; [by intros c ?%elem_of_nil|]. by left.
    + (* the transport fails *)
      destruct err as [err|]; [|done]. simpl in Htr |- *.
      rewrite Ht in Htr. apply app_inv_head in Htr as <-.
      right. split; [done|].
      exists [], url, (segmentPaths url (List.filter nonEmpty rest)), [].
      split_and?; try done; [by intros c0 ?%elem_of_nil|].
      right. split_and?; try done. left. split; [done|]. by exists e.
    + (* the server refuses the collection *)
      destruct err as [err|]; [|done]. simpl in Htr |- *.
      rewrite Ht in Htr. apply app_inv_head in Htr as <-.
      right. split; [done|].
      exists [], url, (segmentPaths url (List.filter nonEmpty rest)), [].
      split_and?; try done; [by intros c0 ?%elem_of_nil|].
      right. split_and?; try done. right. by exists c.
    + (* the collection is in place: on to the next part *)
      destruct Hok as (c & log & Hc & He & Hlog1 & Hlog2 & Ht).
      destruct err as [err|]; [done|]. simpl in Htr |- *.
      destruct (createParts_run rest url st1) as (tr' & issued' & Htr' & _).
      assert (tr = ([EvRequest (mkcol url); EvResponse c] ++ log) ++ tr') as ->.
      { apply (app_inv_head (trace st)). rewrite <- Htr, Htr', Ht, <- !app_assoc. done. }
      assert (requestsOf (([EvRequest (mkcol url); EvResponse c] ++ log) ++ tr')
              = mkcol url :: requestsOf tr') as Hreqs.
      { unfold requestsOf in *. rewrite !omap_app, Hlog1. done. }
      assert (statusesOf (([EvRequest (mkcol url); EvResponse c] ++ log) ++ tr')
              = c :: statusesOf tr') as Hcodes.
      { unfold statusesOf in *. rewrite !omap_app, Hlog2. done. }
      rewrite Hreqs, Hcodes.
      destruct (IH url st1 tr' Htr') as
        [(I1 & I2 & I3 & I4)|(I1 & created & failed & more & codes & J1 & J2 & J3 & J4)].
      * left. split_and?; try done.
        -- rewrite I2. done.
        -- simpl. by rewrite I3.
        -- intros c0 [->|Hin]%elem_of_cons; auto.
      * right. split; [done|].
        exists (url :: created), failed, more, (c :: codes).
        split_and?.
        -- by rewrite J1.
        -- simpl. by rewrite J2.
        -- intros c0 [->|Hin]%elem_of_cons; auto.
        -- destruct J4 as [(K1 & K2 & K3)|(K1 & K2 & [(K3 & e & K4)|(c1 & K3 & K4 & K5)])].
           ++ left. split_and?; try done; [by rewrite K2|by rewrite K3].
           ++ right. split_and?; try done; [by rewrite K2|].
              left. split; [by rewrite K3|]. exists e. by rewrite last_app, K4.
           ++ right. split_and?; try done; [by rewrite K2|].
              right. exists c1. split_and?; try done; [by rewrite K4|].
              by rewrite last_app, K5.
Qed.

Lemma createDirectory_status (url : string) (st : St) :
  exists tr,
    trace (createDirectory url st).2 = (trace st ++ tr)%list
    /\ ((createDirectory url st).1 = None <->
        exists c, statusesOf tr = [c] /\ isCollectionStatus c = true).
Proof.
  destruct (createDirectory_end url st) as (tr & Ht & Hend).
  exists tr. split; [done|].
  inversion Hend as [e|e e' s1|c e s1 Hc|c s1 log Hc Hlog1 Hlog2]; subst; simpl.
  - split; [done|]. intros (c & Hc & _). discriminate.
  - split; [done|]. intros (c & Hc & _). discriminate.
  - split; [done|]. intros (c0 & Heq & Hc0). simplify_eq. congruence.
  - split; [|done]. intros _. exists c. split; [|done].
    unfold statusesOf in *. simpl. by rewrite Hlog2.
Qed.

End ProvisioningFacts.

(** C5 as stated does not hold: when the server refuses the parent
    collection of the bucket [2024/01], the request for the child collection
    is never sent, so the bucket gets one request for its two segments. *)
Lemma refused_parent_skips_child :
  let r := createNestedDirectories (always 500 "500 Internal Server Error") noError2
             "https://cloud.example/dav" "2024/01" (initState tt) in
  segmentURLs "https://cloud.example/dav" "2024/01"
    = ["https://cloud.example/dav/2024"; "https://cloud.example/dav/2024/01"]
  /\ requestsOf (trace r.2) = [mkcol "https://cloud.example/dav/2024"]
  /\ requestsOf (trace r.2) <> mkcol <$> segmentURLs "https://cloud.example/dav" "2024/01"
  /\ r.1 = Some "failed to create directory https://cloud.example/dav/2024: failed to create directory https://cloud.example/dav/2024, status: 500 Internal Server Error".
Proof. vm_compute. split_and?; try done. Qed.

(** C5, amended: for every bucket, [createNestedDirectories] sends
    create-collection requests for the bucket's non-empty path segments in
    order, parent before child, at most one per segment, and stops at the
    first segment whose creation fails: the URLs requested are a prefix of
    the bucket's segment URLs, every request before the last one sent was
    answered with 200, 201, 204 or 405, and the call returns no error iff
    every segment was requested and answered with one of these statuses.
    When the call returns an error, it stopped at the first segment
    [failed] that could not be created, after the segments [created] whose
    requests were answered with the statuses [codes]: the request for
    [failed] could not be built and was not sent, or it was the last one
    sent and failed in transport, or it was the last one sent and was
    answered with another status. When every request can be built and every
    request sent was answered with 200, 201, 204 or 405, no segment fails:
    every segment was requested, once, and the call returns no error.
    A single [createDirectoryIfNotExists] call returns no error iff it
    received a response whose status is 200, 201, 204 or 405. *)
Theorem createNestedDirectories_requests
    (Server : Type) (roundTrip : Request -> Server -> DoResult * Server)
    (newRequestError : string -> string -> option error)
    (baseURL subFolder : string) (st : State Server) :
  (let r := createNestedDirectories roundTrip newRequestError baseURL subFolder st in
   exists tr issued,
     trace r.2 = trace st ++ tr
     /\ requestsOf tr = mkcol <$> issued
     /\ issued `prefix_of` segmentURLs baseURL subFolder
     /\ (forall i c, statusesOf tr !! i = Some c -> (S i < length issued)%nat ->
          isCollectionStatus c = true)
     /\ (r.1 = None <->
         issued = segmentURLs baseURL subFolder
         /\ length (statusesOf tr) = length issued
         /\ forall c, c ∈ statusesOf tr -> isCollectionStatus c = true)
     /\ (r.1 <> None ->
         exists created failed rest codes,
           segmentURLs baseURL subFolder = created ++ failed :: rest
           /\ length codes = length created
           /\ (forall c, c ∈ codes -> isCollectionStatus c = true)
           /\ ((newRequestError "MKCOL" failed <> None
                /\ issued = created /\ statusesOf tr = codes)
               \/ (newRequestError "MKCOL" failed = None
                   /\ issued = created ++ [failed]
                   /\ ((statusesOf tr = codes
                        /\ exists e, last tr = Some (EvTransportError e))
                       \/ exists c, isCollectionStatus c = false
                                    /\ statusesOf tr = codes ++ [c]
                                    /\ last tr = Some (EvResponse c)))))
     /\ ((forall url, url ∈ segmentURLs baseURL subFolder ->
            newRequestError "MKCOL" url = None) ->
         length (statusesOf tr) = length issued ->
         (forall c, c ∈ statusesOf tr -> isCollectionStatus c = true) ->
         r.1 = None /\ issued = segmentURLs baseURL subFolder))
  /\ (forall url,
       let r := createDirectoryIfNotExists roundTrip newRequestError url st in
       exists tr,
         trace r.2 = trace st ++ tr
         /\ (r.1 = None <-> exists c, statusesOf tr = [c] /\ isCollectionStatus c = true)).
Proof.
  split.
  - cbv zeta. unfold createNestedDirectories, segmentURLs.
    destruct (createParts_run roundTrip newRequestError (GoStrings.Split subFolder "/")
                baseURL st) as (tr & issued & Ht & P1 & P2 & P3 & P4 & P5).
    pose proof (createParts_stop roundTrip newRequestError (GoStrings.Split subFolder "/")
                  baseURL st tr Ht) as Hstop.
    cbv zeta in Hstop. fold nonEmpty.
    set (segments := segmentPaths baseURL
                       (List.filter nonEmpty (GoStrings.Split subFolder "/"))) in *.
    assert (Inj (=) (=) mkcol) as Hinj by (by intros x y [= ->]).
    assert ((createParts roundTrip newRequestError (GoStrings.Split subFolder "/") baseURL st).1
            <> None ->
            exists created failed rest codes,
              segments = created ++ failed :: rest
              /\ length codes = length created
              /\ (forall c, c ∈ codes -> isCollectionStatus c = true)
              /\ ((newRequestError "MKCOL" failed <> None
                   /\ issued = created /\ statusesOf tr = codes)
                  \/ (newRequestError "MKCOL" failed = None
                      /\ issued = created ++ [failed]
                      /\ ((statusesOf tr = codes
                           /\ exists e, last tr = Some (EvTransportError e))
                          \/ exists c, isCollectionStatus c = false
                                       /\ statusesOf tr = codes ++ [c]
                                       /\ last tr = Some (EvResponse c))))) as Hfailed.
    { intros Herr. destruct Hstop as [(Hnone & _)|(_ & Hstop)]; [done|].
      destruct Hstop as (created & failed & rest & codes & J1 & J2 & J3 & J4).
      exists created, failed, rest, codes. split_and?; try done.
      rewrite P1 in J4.
      destruct J4 as [(K1 & K2 & K3)|(K1 & K2 & K3)]; [left|right]; split_and?; try done.
      - by apply (inj (fmap mkcol)).
      - by apply (inj (fmap mkcol)). }
    exists tr, issued. split_and?; try done.
    intros Hbuild Hlen Hall.
    destruct (createParts roundTrip newRequestError (GoStrings.Split subFolder "/") baseURL st).1
      as [err|] eqn:Eerr.
    + exfalso. destruct Hfailed as (created & failed & rest & codes & J1 & J2 & J3 & J4);
        [done|].
      destruct J4 as [(K1 & _)|(_ & K2 & [(K3 & _)|(c & K3 & K4 & _)])].
      * apply K1, Hbuild. rewrite J1. apply elem_of_app. right. by left.
      * rewrite K2, K3, length_app in Hlen. simpl in Hlen. lia.
      * rewrite (Hall c) in K3; [done|]. rewrite K4. apply elem_of_app. right. by left.
    + split; [done|]. by apply P5.
  - intros url. apply createDirectory_status.
Qed.

(** * Properties of the upload phase *)

Section WorkerFacts.

Context {Server : Type}.
Variable roundTrip : Request -> Server -> DoResult * Server.
Variable newRequestError : string -> string -> option error.
Variable openError : string -> option error.
Variable cwd : string.
Variable nextcloudURL : string.

Local Abbreviation St := (State Server).
Local Abbreviation upload := (uploadFile roundTrip newRequestError openError cwd).
Local Abbreviation job := (workerJob roundTrip newRequestError openError cwd nextcloudURL).
Local Abbreviation work := (worker roundTrip newRequestError openError cwd nextcloudURL).
Local Abbreviation noStat := (noStatus roundTrip newRequestError openError cwd nextcloudURL).
Local Abbreviation urlOf := (jobURL nextcloudURL).

Lemma upload_counters (fileLocation subFolder : string) (st : St) :
  let r := upload fileLocation nextcloudURL subFolder st in
  finishCounter r.2 = finishCounter st
  /\ successfullCounter st <= successfullCounter r.2
  /\ failedCounter st <= failedCounter r.2
  /\ successfullCounter r.2 + failedCounter r.2
     <= successfullCounter st + failedCounter st + 1.
Proof.
  cbv zeta. unfold uploadFile.
  match goal with
  | |- context [uploadAttempts _ _ _ ?n ?a ?f ?u ?p st] =>
      destruct (attempts_run roundTrip newRequestError openError f u p n a st)
        as (tr & _ & Shape);
      destruct (uploadAttempts roundTrip newRequestError openError n a f u p st)
        as [err st']
  end.
  simpl in *.
  destruct Shape as (_ & _ & _ & S4 & S5 & S6 & _ & _ & _ & _ & _ & S12).
  destruct err as [e|]; [|specialize (S6 eq_refl)]; lia.
Qed.

Lemma upload_noStatus (media : MediaFile) (st : St) :
  noStat media ->
  let r := upload (Path media) nextcloudURL (Ts media) st in
  r.1 <> None
  /\ statusesOf (drop (length (trace st)) (trace r.2)) = []
  /\ successfullCounter r.2 = successfullCounter st
  /\ failedCounter r.2 = failedCounter st
  /\ finishCounter r.2 = finishCounter st.
Proof.
  intros Hno. cbv zeta. unfold uploadFile.
  change (Z.to_nat retryCount) with 3%nat. cbn [uploadAttempts].
  unfold uploadIteration. fold (urlOf media).
  destruct (openError (Abs cwd (Path media))) as [e|] eqn:Eo.
  { simpl. rewrite drop_all. done. }
  destruct (newRequestError "PUT" (urlOf media)) as [e|] eqn:En.
  { simpl. rewrite drop_all. done. }
  destruct Hno as [Hno|[Hno|Hno]]; [done..|].
  destruct (Hno (server st)) as (e & srv' & Hrt).
  unfold Do. unfold put in Hrt. rewrite Hrt. simpl.
  rewrite drop_app_length. done.
Qed.

Lemma job_counters (media : MediaFile) (st : St) :
  finishCounter (job media st) = finishCounter st + 1
  /\ successfullCounter st <= successfullCounter (job media st)
  /\ failedCounter st <= failedCounter (job media st)
  /\ successfullCounter (job media st) + failedCounter (job media st)
     <= successfullCounter st + failedCounter st + 1
  /\ (noStat media ->
      successfullCounter (job media st) = successfullCounter st
      /\ failedCounter (job media st) = failedCounter st).
Proof.
  unfold workerJob.
  pose proof (upload_counters (Path media) (Ts media) st) as Hc.
  pose proof (upload_noStatus media st) as Hn.
  cbv zeta in Hc, Hn.
  destruct (upload (Path media) nextcloudURL (Ts media) st) as [[e|] st1]; simpl in *.
  - split_and?; try lia. intros H. specialize (Hn H). lia.
  - split_and?; try lia. intros H. specialize (Hn H). by destruct Hn as [? _].
Qed.

Lemma work_counters (jobs : list MediaFile) :
  forall st : St,
    finishCounter (work jobs st) = finishCounter st + Z.of_nat (length jobs)
    /\ successfullCounter st + failedCounter st
       <= successfullCounter (work jobs st) + failedCounter (work jobs st)
    /\ successfullCounter (work jobs st) + failedCounter (work jobs st)
       <= successfullCounter st + failedCounter st + Z.of_nat (length jobs)
    /\ ((exists media, media ∈ jobs /\ noStat media) ->
        successfullCounter (work jobs st) + failedCounter (work jobs st)
        < successfullCounter st + failedCounter st + Z.of_nat (length jobs)).
Proof.
  unfold worker.
  induction jobs as [|media jobs IH]; intros st.
  - simpl. split_and?; try lia. intros (m & Hm & _). by apply elem_of_nil in Hm.
  - cbn [fold_left length].
    destruct (IH (job media st)) as (I1 & I2 & I3 & I4).
    destruct (job_counters media st) as (J1 & J2 & J3 & J4 & J5).
    split_and?; try lia.
    intros (m & [->|Hm]%elem_of_cons & Hno).
    + specialize (J5 Hno). lia.
    + assert (exists media, media ∈ jobs /\ noStat media) as Hex by eauto.
      specialize (I4 Hex). lia.
Qed.

Lemma upload_noStatusAt (media : MediaFile) (st : St) :
  noStatusAt roundTrip newRequestError openError cwd nextcloudURL media (server st) ->
  let r := upload (Path media) nextcloudURL (Ts media) st in
  r.1 <> None
  /\ statusesOf (drop (length (trace st)) (trace r.2)) = []
  /\ (length (requestsOf (drop (length (trace st)) (trace r.2))) <= 1)%nat
  /\ successfullCounter r.2 = successfullCounter st
  /\ failedCounter r.2 = failedCounter st
  /\ finishCounter r.2 = finishCounter st.
Proof.
  intros Hno. cbv zeta. unfold uploadFile.
  change (Z.to_nat retryCount) with 3%nat. cbn [uploadAttempts].
  unfold uploadIteration. fold (urlOf media).
  destruct (openError (Abs cwd (Path media))) as [e|] eqn:Eo.
  { simpl. rewrite drop_all. split_and?; try done; simpl; lia. }
  destruct (newRequestError "PUT" (urlOf media)) as [e|] eqn:En.
  { simpl. rewrite drop_all. split_and?; try done; simpl; lia. }
  destruct Hno as [Hno|[Hno|(e & srv' & Hrt)]]; [done..|].
  unfold Do. unfold put in Hrt. rewrite Hrt. simpl.
  rewrite drop_app_length. split_and?; try done; simpl; lia.
Qed.

Lemma job_noStatusAt (media : MediaFile) (st : St) :
  noStatusAt roundTrip newRequestError openError cwd nextcloudURL media (server st) ->
  finishCounter (job media st) = finishCounter st + 1
  /\ successfullCounter (job media st) = successfullCounter st
  /\ failedCounter (job media st) = failedCounter st.
Proof.
  intros Hno. unfold workerJob.
  pose proof (upload_noStatusAt media st Hno) as Hn. cbv zeta in Hn.
  destruct (upload (Path media) nextcloudURL (Ts media) st) as [[e|] st1]; simpl in *.
  - split_and?; lia.
  - by destruct Hn as [? _].
Qed.

Lemma work_with_noStatusAt (before after : list MediaFile) (media : MediaFile) (st : St) :
  noStatusAt roundTrip newRequestError openError cwd nextcloudURL media
    (server (work before st)) ->
  let st' := work (before ++ media :: after) st in
  finishCounter st' = finishCounter st + Z.of_nat (length (before ++ media :: after))
  /\ successfullCounter st' + failedCounter st'
     < successfullCounter st + failedCounter st
       + Z.of_nat (length (before ++ media :: after)).
Proof.
  intros Hno. cbv zeta.
  assert (work (before ++ media :: after) st = work after (job media (work before st))) as ->.
  { unfold worker. by rewrite fold_left_app. }
  destruct (work_counters before st) as (B1 & _ & B3 & _).
  destruct (job_noStatusAt media (work before st) Hno) as (J1 & J2 & J3).
  destruct (work_counters after (job media (work before st))) as (A1 & _ & A3 & _).
  rewrite length_app. simpl. lia.
Qed.

End WorkerFacts.

(** C10: an upload job that ends before any HTTP status arrives (the file
    cannot be opened, the request cannot be built, or the round trip of its
    PUT fails in the state the server is in when the job starts) returns an
    error after at most one request and changes neither counter, while its
    worker still sends one progress unit; hence a run over the entries of
    the path index in which some job ends this way, after the jobs [before]
    it and before the jobs [after] it, ends with one progress unit per entry
    and with the two counters summing to less than the number of entries. *)
Theorem upload_without_status_counts_nothing
    (Server : Type) (roundTrip : Request -> Server -> DoResult * Server)
    (newRequestError : string -> string -> option error)
    (openError : string -> option error) (cwd nextcloudURL : string)
    (myMap : gmap string string) (entries : list (string * string))
    (before after : list MediaFile) (media : MediaFile) (st : State Server) :
  entries ≡ₚ map_to_list myMap ->
  mediaJobs entries = before ++ media :: after ->
  noStatusAt roundTrip newRequestError openError cwd nextcloudURL media
    (server (worker roundTrip newRequestError openError cwd nextcloudURL before st)) ->
  successfullCounter st = 0 -> failedCounter st = 0 -> finishCounter st = 0 ->
  (forall (job : MediaFile) (st1 : State Server),
     noStatusAt roundTrip newRequestError openError cwd nextcloudURL job (server st1) ->
     let r := uploadFile roundTrip newRequestError openError cwd
                (Path job) nextcloudURL (Ts job) st1 in
     let st2 := workerJob roundTrip newRequestError openError cwd nextcloudURL job st1 in
     r.1 <> None
     /\ statusesOf (drop (length (trace st1)) (trace r.2)) = []
     /\ (length (requestsOf (drop (length (trace st1)) (trace r.2))) <= 1)%nat
     /\ successfullCounter r.2 = successfullCounter st1
     /\ failedCounter r.2 = failedCounter st1
     /\ finishCounter st2 = finishCounter st1 + 1
     /\ successfullCounter st2 = successfullCounter st1
     /\ failedCounter st2 = failedCounter st1)
  /\ (let st' := worker roundTrip newRequestError openError cwd nextcloudURL
                   (mediaJobs entries) st in
      finishCounter st' = Z.of_nat (size myMap)
      /\ successfullCounter st' + failedCounter st' < Z.of_nat (size myMap)).
Proof.
  intros Hperm Hsplit Hno Hs Hf Hp.
  assert (length (mediaJobs entries) = size myMap) as Hlen.
  { unfold mediaJobs. rewrite length_fmap, Hperm. apply length_map_to_list. }
  split.
  - intros job st1 Hjob. cbv zeta.
    destruct (upload_noStatusAt roundTrip newRequestError openError cwd nextcloudURL
                job st1 Hjob) as (U1 & U2 & U3 & U4 & U5 & U6).
    destruct (job_noStatusAt roundTrip newRequestError openError cwd nextcloudURL
                job st1 Hjob) as (J1 & J2 & J3).
    split_and?; done.
  - cbv zeta. rewrite <- Hlen, Hsplit.
    destruct (work_with_noStatusAt roundTrip newRequestError openError cwd nextcloudURL
                before after media st Hno) as (W1 & W2).
    split; lia.
Qed.

(** A run over a path index of two entries: the first file is stored, the
    connection is then refused for the second one. *)
Lemma upload_without_status_witness :
  let myMap : gmap string string :=
    {[ "/photos/a.jpg" := "2021/05"; "/photos/b.jpg" := "2021/06" ]} in
  let st' := worker scripted noError2 noError1 "/" "https://cloud.example/dav"
               (mediaJobs (map_to_list myMap))
               (initState [Response 201 "201 Created"; DoFails "connection refused"]) in
  finishCounter st' = 2 /\ successfullCounter st' = 1 /\ failedCounter st' = 0
  /\ successfullCounter st' + failedCounter st' < 2.
Proof.
  cbv zeta. split; [by vm_compute|]. split; [by vm_compute|]. split; [by vm_compute|].
  refine (proj2 (proj2 (upload_without_status_counts_nothing (list DoResult) scripted noError2
            noError1 "/" "https://cloud.example/dav"
            {[ "/photos/a.jpg" := "2021/05"; "/photos/b.jpg" := "2021/06" ]}
            (map_to_list ({[ "/photos/a.jpg" := "2021/05"; "/photos/b.jpg" := "2021/06" ]}
                          : gmap string string))
            [{| Path := "/photos/a.jpg"; Ts := "2021/05" |}] []
            {| Path := "/photos/b.jpg"; Ts := "2021/06" |}
            (initState [Response 201 "201 Created"; DoFails "connection refused"])
            _ _ _ _ _ _))).
  - reflexivity.
  - vm_compute. reflexivity.
  - right. right. vm_compute. by eexists _, _.
  - reflexivity.
  - reflexivity.
  - reflexivity.
Defined.

(** * Properties of the path index *)

Section IndexFacts.

Variable localZone : GoTime.Location.
Variable readSidecar : string -> SidecarRead.
Variable readMedia : string -> MediaRead.

Local Abbreviation sidecars :=
  (parseExtractMetadatJsonFileAndAddToMapImage localZone readSidecar).
Local Abbreviation fallback :=
  (parseExtractMediaFilesWithoutMedtadataJsonFileAddToMap readMedia).

Lemma sidecars_cons (jsonFile : string) (rest : list string)
    (metadata : PhotoMetadata) (myMap : gmap string string) :
  readSidecar jsonFile = SidecarDecoded metadata ->
  sidecars (jsonFile :: rest) myMap
  = sidecars rest
      (<[sidecarTarget jsonFile metadata := sidecarBucket localZone metadata]> myMap).
Proof.
  intros Hr. simpl. rewrite Hr. unfold sidecarBucket, sidecarTarget.
  by destruct (extractDateFolder localZone (Timestamp (PhotoTakenTime metadata))).
Qed.

Lemma sidecars_app (l1 l2 : list string) :
  forall myMap : gmap string string,
    (forall x, x ∈ l1 -> exists md, readSidecar x = SidecarDecoded md) ->
    sidecars (l1 ++ l2) myMap = sidecars l2 (sidecars l1 myMap).
Proof.
  induction l1 as [|j l1 IH]; intros myMap Hall; [done|].
  destruct (Hall j) as (md & Hmd); [by left|].
  rewrite <- app_comm_cons, !(sidecars_cons _ _ md) by done.
  apply IH. intros x Hx. apply Hall. by right.
Qed.

Lemma sidecars_untouched (l : list string) (p : string) :
  forall myMap : gmap string string,
    (forall x md, x ∈ l -> readSidecar x = SidecarDecoded md -> sidecarTarget x md <> p) ->
    sidecars l myMap !! p = myMap !! p.
Proof.
  induction l as [|j l IH]; intros myMap Hne; [done|].
  destruct (readSidecar j) as [e|e|md] eqn:Hj.
  - simpl. by rewrite Hj.
  - simpl. by rewrite Hj.
  - rewrite (sidecars_cons _ _ md) by done.
    rewrite IH; [|intros x md' Hx; apply Hne; by right].
    apply lookup_insert_ne. apply (Hne j md); [by left|done].
Qed.

Lemma sidecars_last_write (l1 l2 : list string) (j : string) (metadata : PhotoMetadata)
    (myMap : gmap string string) :
  (forall x, x ∈ l1 -> exists md, readSidecar x = SidecarDecoded md) ->
  readSidecar j = SidecarDecoded metadata ->
  (forall x md, x ∈ l2 -> readSidecar x = SidecarDecoded md ->
    sidecarTarget x md <> sidecarTarget j metadata) ->
  sidecars (l1 ++ j :: l2) myMap !! sidecarTarget j metadata
  = Some (sidecarBucket localZone metadata).
Proof.
  intros H1 Hj H2.
  rewrite sidecars_app, (sidecars_cons _ _ metadata), sidecars_untouched by done.
  apply lookup_insert_eq.
Qed.

Lemma addIfAbsent_preserves (photoPath timeStamp p v : string) (myMap : gmap string string) :
  myMap !! p = Some v -> addIfAbsent photoPath timeStamp myMap !! p = Some v.
Proof.
  intros Hp. unfold addIfAbsent.
  destruct (myMap !! photoPath) eqn:E; [done|].
  rewrite lookup_insert_ne; [done|]. intros ->. congruence.
Qed.

Lemma addIfAbsent_other (photoPath timeStamp p : string) (myMap : gmap string string) :
  p <> photoPath -> addIfAbsent photoPath timeStamp myMap !! p = myMap !! p.
Proof.
  intros Hp. unfold addIfAbsent.
  destruct (myMap !! photoPath); [done|]. by rewrite lookup_insert_ne.
Qed.

Lemma fallback_preserves (l : list string) (p v : string) :
  forall myMap : gmap string string,
    myMap !! p = Some v -> fallback l myMap !! p = Some v.
Proof.
  induction l as [|photoPath l IH]; intros myMap Hp; simpl; [done|].
  destruct (String.eqb (Filepath.Ext photoPath) ".DS_Store"); [by apply IH|].
  destruct (readMedia photoPath); [done|by apply IH|..];
    by apply IH, addIfAbsent_preserves.
Qed.

Lemma fallback_outside (l : list string) (p : string) :
  forall myMap : gmap string string,
    p ∉ l -> fallback l myMap !! p = myMap !! p.
Proof.
  induction l as [|photoPath l IH]; intros myMap Hp; simpl; [done|].
  apply not_elem_of_cons in Hp as [Hne Hp].
  destruct (String.eqb (Filepath.Ext photoPath) ".DS_Store"); [by apply IH|].
  destruct (readMedia photoPath); [done|by apply IH|..];
    by rewrite IH, addIfAbsent_other.
Qed.

Lemma without_sidecar_spec (myMap : gmap string string) (mediaFileList : list string)
    (p : string) :
  p ∈ getMediaFilesWithoutMedtadataJsonFiles myMap mediaFileList
  <-> p ∈ mediaFileList /\ myMap !! p = None.
Proof.
  induction mediaFileList as [|mediaFile rest IH]; simpl.
  - split; [intros H; by apply elem_of_nil in H|intros [H _]; by apply elem_of_nil in H].
  - destruct (myMap !! mediaFile) as [v|] eqn:E.
    + rewrite IH, elem_of_cons. split; [intros [? ?]; auto|].
      intros [[->|?] Hn]; [congruence|auto].
    + rewrite !elem_of_cons, IH. split.
      * intros [->|[? ?]]; auto.
      * intros [[->|?] Hn]; auto.
Qed.

End IndexFacts.

(** C9: the fallback resolver is handed exactly the media paths that are
    absent from the path index after the sidecar phase; it changes no entry
    for a path it was not handed; every entry the sidecar phase leaves in
    the index is still there, with its value, after the fallback phase; on
    any input list and index, an entry that is present is preserved by the
    fallback resolver (first writer wins); and among sidecars that resolve
    to the same media path the last one read determines the entry (most
    recent write wins). *)
Theorem fallback_keeps_sidecar_entries
    (localZone : GoTime.Location) (readSidecar : string -> SidecarRead)
    (readMedia : string -> MediaRead)
    (jsonFileList mediaFileList : list string) (myMap0 : gmap string string) :
  let myMap1 :=
    parseExtractMetadatJsonFileAndAddToMapImage localZone readSidecar jsonFileList myMap0 in
  let exifMEdiaFileList := getMediaFilesWithoutMedtadataJsonFiles myMap1 mediaFileList in
  let myMap2 :=
    parseExtractMediaFilesWithoutMedtadataJsonFileAddToMap readMedia exifMEdiaFileList myMap1 in
  (forall p, p ∈ exifMEdiaFileList <-> p ∈ mediaFileList /\ myMap1 !! p = None)
  /\ (forall p, p ∉ exifMEdiaFileList -> myMap2 !! p = myMap1 !! p)
  /\ (forall p v, myMap1 !! p = Some v -> myMap2 !! p = Some v)
  /\ (forall (l : list string) (m : gmap string string) (p v : string),
       m !! p = Some v ->
       parseExtractMediaFilesWithoutMedtadataJsonFileAddToMap readMedia l m !! p = Some v)
  /\ (forall (l1 l2 : list string) (j : string) (metadata : PhotoMetadata)
        (m : gmap string string),
       (forall x, x ∈ l1 -> exists md, readSidecar x = SidecarDecoded md) ->
       readSidecar j = SidecarDecoded metadata ->
       (forall x md, x ∈ l2 -> readSidecar x = SidecarDecoded md ->
         sidecarTarget x md <> sidecarTarget j metadata) ->
       parseExtractMetadatJsonFileAndAddToMapImage localZone readSidecar (l1 ++ j :: l2) m
         !! sidecarTarget j metadata
       = Some (sidecarBucket localZone metadata)).
Proof.
  cbv zeta. split_and?.
  - intros p. apply without_sidecar_spec.
  - intros p. apply fallback_outside.
  - intros p v. apply fallback_preserves.
  - intros l m p v. apply fallback_preserves.
  - intros l1 l2 j metadata m. apply sidecars_last_write.
Qed.

(** Two sidecars for [a.jpg]: the entry is that of the one read last. *)
Example duplicate_sidecars_last_wins :
  parseExtractMetadatJsonFileAndAddToMapImage GoTime.UTC Photos.readSidecar
    ["/photos/twice/a.jpg.suppl.json"; "/photos/twice/a.jpg.supplemental-metadata.json"] ∅
  = {[ "/photos/twice/a.jpg" := "2020/01" ]}
  /\ parseExtractMetadatJsonFileAndAddToMapImage GoTime.UTC Photos.readSidecar
       ["/photos/twice/a.jpg.supplemental-metadata.json"; "/photos/twice/a.jpg.suppl.json"] ∅
     = {[ "/photos/twice/a.jpg" := "2019/12" ]}.
Proof. split; vm_compute; reflexivity. Qed.

(** * The phase barrier *)

Lemma dirDoneOf_app (tr1 tr2 : list Event) :
  dirDoneOf (tr1 ++ tr2) = dirDoneOf tr1 ++ dirDoneOf tr2.
Proof. apply omap_app. Qed.

Lemma dirDoneOf_quiet (tr : list Event) :
  (forall e, e ∈ tr -> isProvisionEvent e = false) -> dirDoneOf tr = [].
Proof.
  induction tr as [|e tr IH]; intros H; [done|].
  assert (isProvisionEvent e = false) as He by (apply H; by left).
  assert (dirDoneOf tr = []) as Ht by (apply IH; intros e' He'; apply H; by right).
  destruct e; simpl in He; try done; exact Ht.
Qed.

Lemma barrier_no_upload (directories : list string) (tr : list Event) :
  (forall e, e ∈ tr -> isUploadEvent e = false) -> barrier directories tr.
Proof.
  intros H pre e post -> He. rewrite H in He; [done|].
  apply elem_of_app. right. by left.
Qed.

Lemma barrier_app (directories : list string) (tr tr2 : list Event) :
  barrier directories tr -> dirDoneOf tr ≡ₚ directories ->
  (forall e, e ∈ tr2 -> isProvisionEvent e = false) ->
  barrier directories (tr ++ tr2) /\ dirDoneOf (tr ++ tr2) ≡ₚ directories.
Proof.
  intros Hb Hd Hq. split.
  - intros pre e post Heq He.
    apply app_eq_app in Heq as [l [[-> Heq]|[-> Heq]]].
    + destruct l as [|e0 l]; simpl in Heq.
      * (* the event is the first of [tr2] *)
        subst tr2. rewrite app_nil_r in Hd. split; [done|].
        intros e' He'. apply Hq. by right.
      * (* the event lies in [tr] *)
        assert (e0 = e /\ post = l ++ tr2) as [-> ->] by (by injection Heq).
        destruct (Hb pre e l eq_refl He) as [Hpre Hpost].
        split; [done|]. intros e' [He'|He']%elem_of_app; auto.
    + (* the event lies in [tr2] *)
      subst tr2. split.
      * rewrite dirDoneOf_app, (dirDoneOf_quiet l), app_nil_r; [done|].
        intros e' He'. apply Hq, elem_of_app. by left.
      * intros e' He'. apply Hq, elem_of_app. right. by right.
  - rewrite dirDoneOf_app, (dirDoneOf_quiet tr2), app_nil_r; done.
Qed.

Lemma inflight_lookup (ws : list DirWorker) (i : nat) (w : DirWorker) :
  ws !! i = Some w ->
  inflight ws
  = inflight (take i ws) ++ option_list (dirJobOf w) ++ inflight (drop (S i) ws).
Proof.
  intros Hw. rewrite <- (take_drop_middle ws i w Hw) at 1.
  unfold inflight. rewrite omap_app. simpl. by destruct (dirJobOf w).
Qed.

Lemma inflight_insert (ws : list DirWorker) (i : nat) (w w' : DirWorker) :
  ws !! i = Some w ->
  inflight (<[i := w']> ws)
  = inflight (take i ws) ++ option_list (dirJobOf w') ++ inflight (drop (S i) ws).
Proof.
  intros Hw. rewrite insert_take_drop by (by eapply lookup_lt_Some).
  unfold inflight. rewrite omap_app. simpl. by destruct (dirJobOf w').
Qed.

Lemma inflight_snoc_recv (ws : list DirWorker) : inflight (ws ++ [DRecv]) = inflight ws.
Proof. unfold inflight. rewrite omap_app. simpl. apply app_nil_r. Qed.

Lemma Permutation_app_nil {A : Type} (l l2 l3 l4 : list A) :
  l ≡ₚ l2 ++ l3 ++ l4 -> length l4 = length l ->
  l2 = [] /\ l3 = [] /\ l4 ≡ₚ l.
Proof.
  intros Hp Hlen. pose proof (Permutation_length Hp) as Hl.
  rewrite !length_app in Hl.
  assert (l2 = []) as -> by (apply length_zero_iff_nil; lia).
  assert (l3 = []) as -> by (apply length_zero_iff_nil; lia).
  done.
Qed.

Section BarrierFacts.

Context {Server : Type}.
Variable roundTrip : Request -> Server -> DoResult * Server.
Variable newRequestError : string -> string -> option error.
Variable openError : string -> option error.
Variable cwd : string.
Variable parallelUploads : Z.
Variable nextcloudURL : string.
Variable directories : list string.
Variable mediaList : list MediaFile.

Local Abbreviation step1 :=
  (step roundTrip newRequestError openError cwd parallelUploads nextcloudURL
     directories mediaList).

Lemma createDirectory_quiet (url : string) (st : State Server) :
  exists tr,
    trace (createDirectoryIfNotExists roundTrip newRequestError url st).2 = trace st ++ tr
    /\ (forall e, e ∈ tr -> isUploadEvent e = false)
    /\ dirDoneOf tr = [].
Proof.
  unfold createDirectoryIfNotExists, Do.
  destruct (newRequestError "MKCOL" url) as [err0|].
  { exists []. simpl. rewrite app_nil_r. split; [done|]. split; [|done].
    intros ev Hev. by apply elem_of_nil in Hev. }
  destruct (roundTrip _ (server st)) as [[err|c status] srv]; simpl.
  { eexists. split; [done|]. split; [|done].
    intros ev Hev. decompose_list_elem_of; by subst. }
  repeat case_match; simpl; rewrite <- ?app_assoc.
  all: (eexists; split; [done|]; split; [|done];
     intros ev Hev; decompose_list_elem_of; by subst).
Qed.

Lemma uploadIteration_quiet (attempt : Z) (fileName url absFileLocation : string)
    (st : State Server) :
  exists tr,
    trace match uploadIteration roundTrip newRequestError openError attempt fileName url
                  absFileLocation st with
          | Continue st1 => st1
          | Return _ st1 => st1
          end = trace st ++ tr
    /\ forall e, e ∈ tr -> isProvisionEvent e = false.
Proof.
  pose proof (uploadIteration_end roundTrip newRequestError openError attempt fileName url
                absFileLocation st) as Hend.
  destruct (uploadIteration _ _ _ _ _ _ _ _) as [st1|err st1];
    inversion Hend as [e s1 Ht|e e' s1 Ht|c s1 Hc Ht|c e s1 Hc1 Hc2 Ht|c s1 Hc Ht]; subst.
  all: try (exists []; split; [by rewrite app_nil_r|];
            intros e0 He0; by apply elem_of_nil in He0).
  all: eexists; split; [exact Ht|]; intros e0 He0; decompose_list_elem_of; by subst.
Qed.

Lemma inv_init (srv : Server) : Inv directories (initMachine (initState srv)).
Proof.
  unfold Inv; simpl. rewrite !app_nil_r. split_and?; try done.
  intros e He. by apply elem_of_nil in He.
Qed.

Lemma inv_stepMain (c c' : Machine Server) :
  Inv directories c ->
  stepMain parallelUploads directories mediaList c = Some c' ->
  Inv directories c'.
Proof.
  destruct c as [st pc [q closed wg ws] [js jc pch pcl wgm mws sd cl]].
  intros HI Hstep. unfold stepMain in Hstep. simpl in Hstep.
  destruct pc as [|[|todo]|[|dir rest]| | |[|todo]| | | |]; simpl in Hstep;
    repeat case_match; simplify_eq.
  all: unfold Inv in *; simpl in *; rewrite ?inflight_snoc_recv.
  all: destruct HI as (HA & HB & HC); destruct_and?.
  all: pose proof (Permutation_length HA) as HL; rewrite ?length_app in HL.
  all: try (split_and?; try done; try lia; fail).
  - (* a directory is sent *)
    split_and?; try done; try lia. etrans; [exact HA|]. solve_Permutation.
  - (* [wgDir.Wait()] returns *)
    destruct (Permutation_app_nil _ _ _ _ HA) as (_ & _ & Hdone); [lia|].
    split_and?; try done. by apply barrier_no_upload.
Qed.

Lemma inv_stepDir (i : nat) (c c' : Machine Server) :
  Inv directories c ->
  stepDir roundTrip newRequestError nextcloudURL i c = Some c' ->
  Inv directories c'.
Proof.
  destruct c as [st pc [q closed wg ws] x].
  intros HI Hstep. unfold stepDir in Hstep. simpl in Hstep.
  destruct (ws !! i) as [[|dir parts cur|dir err|]|] eqn:Hw; [| | |done..].
  - (* waiting on [dirJobs] *)
    destruct q as [|dir rest]; [destruct closed; [|done]|]; simplify_eq.
    all: unfold Inv in *; simpl in *; destruct HI as (HA & HB & HC).
    all: rewrite (inflight_lookup _ _ _ Hw) in HA.
    all: rewrite (inflight_insert _ _ _ _ Hw); simpl in *.
    all: split_and?; try done.
    etrans; [exact HA|]. solve_Permutation.
  - (* inside [createNestedDirectories] *)
    destruct parts as [|part rest]; [|destruct (String.eqb part "")]; simplify_eq.
    1,2: unfold Inv in *; simpl in *; destruct HI as (HA & HB & HC);
         rewrite (inflight_lookup _ _ _ Hw) in HA;
         rewrite (inflight_insert _ _ _ _ Hw); simpl in *; by split_and?.
    destruct (createDirectory_quiet (cur ++ "/" ++ part) st) as (tr & Ht & Hno & Hnil).
    destruct (createDirectoryIfNotExists _ _ _ st) as [[err|] st1]; simplify_eq.
    all: unfold Inv in *; simpl in *; destruct HI as (HA & HB & HC).
    all: rewrite (inflight_lookup _ _ _ Hw) in HA.
    all: rewrite (inflight_insert _ _ _ _ Hw), Ht, dirDoneOf_app, Hnil, app_nil_r; simpl in *.
    all: pose proof (Permutation_length HA) as HL; rewrite ?length_app in HL; simpl in HL.
    all: split_and?; try done.
    all: destruct (provisioning pc); destruct_and?.
    all: try (match goal with
              | H : dirDoneOf _ ≡ₚ directories |- _ =>
                  apply Permutation_length in H; exfalso; lia
              end).
    all: split_and?; try done; intros e [?|?]%elem_of_app; auto.
  - (* back from [createNestedDirectories] *)
    simplify_eq.
    unfold Inv in *; simpl in *; destruct HI as (HA & HB & HC).
    rewrite (inflight_lookup _ _ _ Hw) in HA.
    rewrite (inflight_insert _ _ _ _ Hw); simpl in *.
    pose proof (Permutation_length HA) as HL; rewrite ?length_app in HL; simpl in HL.
    assert (dirDoneOf (trace match err with
                              | Some e =>
                                  emit (EvLog ("Error ensuring nested directories exist: " ++ e)) st
                              | None => st
                              end ++ [EvDirDone dir])
            = dirDoneOf (trace st) ++ [dir]) as Hdone.
    { destruct err; simpl; rewrite !dirDoneOf_app; simpl; by rewrite ?app_nil_r. }
    rewrite Hdone, length_app. simpl.
    split_and?.
    + etrans; [exact HA|]. solve_Permutation.
    + destruct pc; simpl in *; lia.
    + destruct (provisioning pc); destruct_and?.
      * split_and?; try done. intros e He.
        destruct err; simpl in He; decompose_list_elem_of; subst; auto.
      * match goal with
        | H : dirDoneOf _ ≡ₚ directories |- _ =>
            apply Permutation_length in H; exfalso; lia
        end.
Qed.

Lemma inv_upload_phase (st st' : State Server) (pc : MainPC) (p : Provision)
    (x x' : Transfer) (tr : list Event) :
  Inv directories (mkMachine st pc p x) ->
  provisioning pc = false ->
  trace st' = trace st ++ tr ->
  (forall e, e ∈ tr -> isProvisionEvent e = false) ->
  Inv directories (mkMachine st' pc p x').
Proof.
  unfold Inv; simpl. intros (HA & HB & HC) Hph Ht Hq. rewrite Hph in *.
  destruct HC as (Hdone & Hb).
  destruct (barrier_app directories (trace st) tr Hb Hdone Hq) as (Hb' & Hdone').
  rewrite Ht, dirDoneOf_app, (dirDoneOf_quiet tr Hq), app_nil_r. by split_and?.
Qed.

Lemma inv_same_trace (st st' : State Server) (pc : MainPC) (p : Provision) (x x' : Transfer) :
  Inv directories (mkMachine st pc p x) ->
  provisioning pc = false ->
  trace st' = trace st ->
  Inv directories (mkMachine st' pc p x').
Proof.
  intros HI Hph Ht. apply (inv_upload_phase st st' pc p x x' []); try done.
  - by rewrite app_nil_r.
  - intros e He. by apply elem_of_nil in He.
Qed.

Lemma inv_stepMedia (i : nat) (c c' : Machine Server) :
  Inv directories c ->
  stepMedia roundTrip newRequestError openError cwd parallelUploads nextcloudURL i c
    = Some c' ->
  Inv directories c'.
Proof.
  destruct c as [st pc p [js jc pch pcl wgm mws sd cl]].
  intros HI Hstep. unfold stepMedia in Hstep. simpl in Hstep.
  destruct (provisioning pc) eqn:Hph.
  { (* no worker exists before the barrier *)
    destruct HI as (_ & _ & HC). simpl in HC. rewrite Hph in HC.
    destruct HC as (-> & _). by rewrite lookup_nil in Hstep. }
  destruct (mws !! i) as [[|media [|remaining] attempt|media err| |]|] eqn:Hw;
    [| | | | |done..].
  - destruct js as [|media rest]; [destruct jc; [|done]|]; simplify_eq;
      by eapply inv_same_trace.
  - simplify_eq. by eapply inv_same_trace.
  - destruct (uploadIteration_quiet attempt (Filepath.Base (Path media))
                (nextcloudURL ++ "/" ++ Ts media ++ "/" ++ Filepath.Base (Path media))
                (Abs cwd (Path media)) st) as (tr & Ht & Hq).
    destruct (uploadIteration _ _ _ _ _ _ _ st) as [st1|err st1]; simplify_eq;
      by eapply inv_upload_phase.
  - simplify_eq. destruct err as [e|].
    + eapply (inv_upload_phase _ _ _ _ _ _ [_]); try done.
      intros ev Hev. decompose_list_elem_of. by subst.
    + by eapply inv_same_trace.
  - case_match; simplify_eq. by eapply inv_same_trace.
Qed.

Lemma inv_stepSender (c c' : Machine Server) :
  Inv directories c -> stepSender c = Some c' -> Inv directories c'.
Proof.
  destruct c as [st pc p [js jc pch pcl wgm mws sd cl]].
  intros HI Hstep. unfold stepSender in Hstep. simpl in Hstep.
  destruct (provisioning pc) eqn:Hph.
  { destruct HI as (_ & _ & HC). simpl in HC. rewrite Hph in HC.
    destruct HC as (_ & -> & _). done. }
  destruct sd as [|[|media rest]|]; simplify_eq.
  - by eapply inv_same_trace.
  - eapply (inv_upload_phase _ _ _ _ _ _ [_]); try done.
    intros ev Hev. decompose_list_elem_of. by subst.
Qed.

Lemma inv_stepCloser (c c' : Machine Server) :
  Inv directories c -> stepCloser c = Some c' -> Inv directories c'.
Proof.
  destruct c as [st pc p [js jc pch pcl wgm mws sd cl]].
  intros HI Hstep. unfold stepCloser in Hstep. simpl in Hstep.
  destruct (provisioning pc) eqn:Hph.
  { destruct HI as (_ & _ & HC). simpl in HC. rewrite Hph in HC.
    destruct HC as (_ & _ & -> & _). done. }
  destruct cl; [done| |done]. case_match; simplify_eq. by eapply inv_same_trace.
Qed.

Lemma inv_step (a : Action) (c c' : Machine Server) :
  Inv directories c -> step1 a c = Some c' -> Inv directories c'.
Proof.
  destruct a; simpl.
  - apply inv_stepMain.
  - apply inv_stepDir.
  - apply inv_stepMedia.
  - apply inv_stepSender.
  - apply inv_stepCloser.
Qed.

Lemma inv_exec (schedule : list Action) :
  forall c : Machine Server,
    Inv directories c ->
    Inv directories
      (exec roundTrip newRequestError openError cwd parallelUploads nextcloudURL
         directories mediaList schedule c).
Proof.
  induction schedule as [|a schedule IH]; intros c HI; [done|].
  simpl. apply IH. destruct (step1 a c) as [c'|] eqn:Hs; [|done].
  simpl. by eapply inv_step.
Qed.

End BarrierFacts.

(** C6: whatever the number of workers and whatever the order in which the
    scheduler lets the goroutines run, in every configuration the run
    reaches, each job put on the [jobs] channel and each PUT request is
    preceded in the trace by the end of every submitted directory job (the
    directory jobs that have ended by then are the submitted directories, up
    to order), and is followed by no create-collection request and no
    directory job ending. *)
Theorem provisioning_completes_before_upload
    (Server : Type) (roundTrip : Request -> Server -> DoResult * Server)
    (newRequestError : string -> string -> option error)
    (openError : string -> option error) (cwd : string)
    (parallelUploads : Z) (nextcloudURL : string)
    (directories : list string) (mediaList : list MediaFile)
    (srv : Server) (schedule : list Action) :
  barrier directories
    (trace (shared (exec roundTrip newRequestError openError cwd parallelUploads
                      nextcloudURL directories mediaList schedule
                      (initMachine (initState srv))))).
Proof.
  pose proof (inv_exec roundTrip newRequestError openError cwd parallelUploads nextcloudURL
                directories mediaList schedule _ (inv_init directories srv)) as (_ & _ & HC).
  destruct (provisioning _); [|by destruct HC].
  apply barrier_no_upload. by destruct HC as (_ & _ & _ & _ & ?).
Qed.

(** A run with two workers per phase under a round-robin schedule: it
    returns, after both directories were provisioned and both files
    uploaded. *)
Example two_workers_run :
  let c := exec (always 201 "201 Created") noError2 noError1 "/" 2
             "https://cloud.example/dav" ["2021/05"; "2021/06"]
             [{| Path := "/photos/a.jpg"; Ts := "2021/05" |};
              {| Path := "/photos/b.jpg"; Ts := "2021/06" |}]
             (rounds 24 2) (initMachine (initState tt)) in
  mainPC c = MReturn
  /\ dirDoneOf (trace (shared c)) = ["2021/05"; "2021/06"]
  /\ List.filter isUploadEvent (trace (shared c))
     = [EvJobSent "/photos/a.jpg"; EvJobSent "/photos/b.jpg";
        EvRequest (put "https://cloud.example/dav/2021/05/a.jpg");
        EvRequest (put "https://cloud.example/dav/2021/06/b.jpg")]
  /\ successfullCounter (shared c) = 2 /\ finishCounter (shared c) = 2.
Proof. vm_compute. by split_and?. Qed.

(** With one worker per phase the goroutines, scheduled round-robin, do what
    the sequential reading of the two phases does: the same requests get the
    same answers, and the counters end the same. The second directory job
    is abandoned at its refused parent; the first upload succeeds at its
    third attempt; the second fails at once. *)
Example one_worker_run_agrees :
  let script :=
    [Response 201 "201 Created"; Response 405 "405 Method Not Allowed";
     Response 500 "500 Internal Server Error";
     Response 404 "404 Not Found"; Response 404 "404 Not Found";
     Response 201 "201 Created"; Response 500 "500 Internal Server Error"] in
  let dirs := ["2021/05"; "2021/06"] in
  let files := [{| Path := "/photos/a.jpg"; Ts := "2021/05" |};
                {| Path := "/photos/b.jpg"; Ts := "2021/06" |}] in
  let c := exec scripted noError2 noError1 "/" 1 "https://cloud.example/dav" dirs files
             (rounds 40 1) (initMachine (initState script)) in
  let st := uploadMediaFilesToNextcloud1 scripted noError2 noError1 "/"
              "https://cloud.example/dav" dirs files (initState script) in
  mainPC c = MReturn
  /\ requestsOf (trace (shared c)) = requestsOf (trace st)
  /\ statusesOf (trace (shared c)) = statusesOf (trace st)
  /\ length (requestsOf (trace st)) = 7%nat
  /\ successfullCounter (shared c) = 1 /\ successfullCounter st = 1
  /\ failedCounter (shared c) = 1 /\ failedCounter st = 1
  /\ finishCounter (shared c) = 2 /\ finishCounter st = 2.
Proof. vm_compute. by split_and?. Qed.

(** * Further properties *)

Lemma Walk_classify (entries : list WalkEntry) :
  forall js ms : list string,
    fst (Walk entries classify (js, ms))
    = (js ++ (fst <$> List.filter (fun e => isSidecarInfo (snd e)) (visited entries)),
       ms ++ (fst <$> List.filter (fun e => isMediaInfo (snd e)) (visited entries))).
Proof.
  induction entries as [|[path info|path err] entries IH]; intros js ms; simpl.
  - by rewrite !app_nil_r.
  - unfold isSidecarInfo, isMediaInfo. simpl.
    destruct (IsDir info); simpl; [apply IH|].
    destruct (String.eqb (Filepath.Ext (Name info)) ".json"); simpl.
    + destruct (GoStrings.CountByte (Name info) "." =? 3); simpl; rewrite IH; simpl;
        by rewrite <- ?app_assoc.
    + rewrite IH. simpl. by rewrite <- ?app_assoc.
  - by rewrite !app_nil_r.
Qed.

(** The classification of the scan: of the entries the walk visits before
    its first error, the sidecars are the non-directories whose name has the
    extension [.json] and exactly three dots, the raw media are the
    non-directories whose extension is not [.json], both in walk order; a
    [.json] file with another number of dots is in neither list. *)
Theorem getMediaFileList_classification
    (walkEntries : string -> list WalkEntry) (directory : string) :
  getMediaFileList walkEntries directory
  = (fst <$> List.filter (fun e => isSidecarInfo (snd e)) (visited (walkEntries directory)),
     fst <$> List.filter (fun e => isMediaInfo (snd e)) (visited (walkEntries directory)))
  /\ forall info : FileInfo,
       (isSidecarInfo info = true <->
        IsDir info = false /\ Filepath.Ext (Name info) = ".json"
        /\ GoStrings.CountByte (Name info) "." = 3)
       /\ (isMediaInfo info = true <->
           IsDir info = false /\ Filepath.Ext (Name info) <> ".json")
       /\ (IsDir info = false -> Filepath.Ext (Name info) = ".json" ->
           GoStrings.CountByte (Name info) "." <> 3 ->
           isSidecarInfo info = false /\ isMediaInfo info = false).
Proof.
  split.
  - unfold getMediaFileList. apply Walk_classify.
  - intros info. unfold isSidecarInfo, isMediaInfo.
    destruct (IsDir info); simpl.
    { split_and?; try (split; [done|intros (? & ?); done]). done. }
    destruct (String.eqb_spec (Filepath.Ext (Name info)) ".json") as [He|He]; simpl.
    + destruct (Z.eqb_spec (GoStrings.CountByte (Name info) ".") 3); split_and?;
        try (split; intros; by destruct_and?); try done.
    + split_and?; try (split; intros; by destruct_and?); try done.
Qed.

(** On a bucket of the canonical shape [YYYY/MM] the normalization loop
    does what it is meant to do: the year [0001] becomes [2000] with the
    month kept, and any other bucket is left as it is. *)
Theorem normalize_canonical (b : string) :
  canonicalBucket b = true ->
  (yearOf b = "0001" -> normalize b = ("2000/" ++ monthOf b)%string)
  /\ (yearOf b <> "0001" -> normalize b = b)
  /\ yearOf (normalize b) = (if String.eqb (yearOf b) "0001" then "2000" else yearOf b)
  /\ monthOf (normalize b) = monthOf b.
Proof.
  intros H.
  destruct b as [|y1 [|y2 [|y3 [|y4 [|s [|m1 [|m2 [|? ?]]]]]]]]; try discriminate.
  simpl in H. apply andb_true_iff in H as [Hs Hns].
  apply Ascii.eqb_eq in Hs. subst s.
  apply negb_true_iff in Hns.
  apply orb_false_iff in Hns as [Q1 Hns]. apply orb_false_iff in Hns as [Q2 Hns].
  apply orb_false_iff in Hns as [Q3 Hns]. apply orb_false_iff in Hns as [Q4 Hns].
  apply orb_false_iff in Hns as [Q5 Hns]. apply orb_false_iff in Hns as [Q6 _].
  destruct (Ascii.eqb y1 "/") eqn:E1; [discriminate|].
  destruct (Ascii.eqb y2 "/") eqn:E2; [discriminate|].
  destruct (Ascii.eqb y3 "/") eqn:E3; [discriminate|].
  destruct (Ascii.eqb y4 "/") eqn:E4; [discriminate|].
  destruct (Ascii.eqb m1 "/") eqn:E5; [discriminate|].
  destruct (Ascii.eqb m2 "/") eqn:E6; [discriminate|].
  clear Q1 Q2 Q3 Q4 Q5 Q6.
  unfold yearOf, monthOf, normalize. simpl.
  repeat (progress (rewrite ?E1, ?E2, ?E3, ?E4, ?E5, ?E6; simpl)).
  destruct (Ascii.eqb_spec y1 "0") as [->|N1]; simpl;
    [destruct (Ascii.eqb_spec y2 "0") as [->|N2]; simpl;
     [destruct (Ascii.eqb_spec y3 "0") as [->|N3]; simpl;
      [destruct (Ascii.eqb_spec y4 "1") as [->|N4]; simpl;
       [|destruct (Ascii.eqb_spec y4 "0") as [->|N5]; simpl]|]|]|].
  all: unfold GoStrings.Split.
  all: repeat (progress (rewrite ?E1, ?E2, ?E3, ?E4, ?E5, ?E6; simpl)).
  all: repeat (first
         [ progress (rewrite ?E1, ?E2, ?E3, ?E4, ?E5, ?E6; simpl)
         | match goal with
           | |- context [Ascii.eqb ?a "0"] => destruct (Ascii.eqb a "0"); simpl
           end ]).
  all: split_and?; try done; try congruence.
Qed.

(** The sentinel bucket, normalized. *)
Lemma normalize_canonical_witness :
  canonicalBucket "0001/01" = true /\ normalize "0001/01" = "2000/01".
Proof.
  split; [reflexivity|].
  apply (proj1 (normalize_canonical "0001/01" eq_refl)). reflexivity.
Defined.

Lemma append_slash_nonempty (a b : string) : (a ++ "/" ++ b)%string <> "".
Proof. by destruct a. Qed.

Lemma extractDateFolder_nonempty (localZone : GoTime.Location) (timestamp : string) :
  snd (extractDateFolder localZone timestamp) = None ->
  fst (extractDateFolder localZone timestamp) <> "".
Proof.
  unfold extractDateFolder, GoTime.Format, GoTime.formatCivil.
  destruct (GoTime.ParseISO timestamp); simpl; [intros _; apply append_slash_nonempty|].
  destruct (GoTime.ParseInt timestamp); simpl; [intros _; apply append_slash_nonempty|done].
Qed.

Lemma exifTimestamp_nonempty (meta : Metadata) : exifTimestamp meta <> "".
Proof.
  unfold exifTimestamp, GoTime.Format, GoTime.formatCivil.
  destruct (GoTime.IsZero _); apply append_slash_nonempty.
Qed.

Section NonEmptyFacts.

Variable localZone : GoTime.Location.
Variable readSidecar : string -> SidecarRead.
Variable readMedia : string -> MediaRead.

Local Abbreviation sidecars :=
  (parseExtractMetadatJsonFileAndAddToMapImage localZone readSidecar).
Local Abbreviation fallback :=
  (parseExtractMediaFilesWithoutMedtadataJsonFileAddToMap readMedia).

Lemma nonEmptyValues_insert (m : gmap string string) (p v : string) :
  nonEmptyValues m -> v <> "" -> nonEmptyValues (<[p := v]> m).
Proof.
  intros Hm Hv q w. rewrite lookup_insert. case_decide; [by intros [= <-]|apply Hm].
Qed.

Lemma sidecars_nonempty (l : list string) :
  forall m : gmap string string,
    (forall j md, j ∈ l -> readSidecar j = SidecarDecoded md ->
      snd (extractDateFolder localZone (Timestamp (PhotoTakenTime md))) = None) ->
    nonEmptyValues m -> nonEmptyValues (sidecars l m).
Proof.
  induction l as [|j l IH]; intros m Hok Hm; [done|].
  destruct (readSidecar j) as [e|e|md] eqn:Hj.
  - simpl. by rewrite Hj.
  - simpl. by rewrite Hj.
  - rewrite (sidecars_cons _ _ _ _ md) by done.
    apply IH; [intros j' md' Hj'; apply Hok; by right|].
    apply nonEmptyValues_insert; [done|].
    apply extractDateFolder_nonempty, (Hok j); [by left|done].
Qed.

Lemma addIfAbsent_nonempty (p v : string) (m : gmap string string) :
  nonEmptyValues m -> v <> "" -> nonEmptyValues (addIfAbsent p v m).
Proof.
  intros Hm Hv. unfold addIfAbsent.
  destruct (m !! p); [done|]. by apply nonEmptyValues_insert.
Qed.

Lemma fallback_nonempty (l : list string) :
  forall m : gmap string string, nonEmptyValues m -> nonEmptyValues (fallback l m).
Proof.
  induction l as [|p l IH]; intros m Hm; simpl; [done|].
  destruct (String.eqb (Filepath.Ext p) ".DS_Store"); [by apply IH|].
  destruct (readMedia p); [done|by apply IH|..].
  - apply IH, addIfAbsent_nonempty; done.
  - apply IH, addIfAbsent_nonempty; [done|apply exifTimestamp_nonempty].
Qed.

Lemma sidecars_keeps (l : list string) (p : string) :
  forall m : gmap string string, is_Some (m !! p) -> is_Some (sidecars l m !! p).
Proof.
  induction l as [|j l IH]; intros m Hp; [done|].
  destruct (readSidecar j) as [e|e|md] eqn:Hj.
  - simpl. by rewrite Hj.
  - simpl. by rewrite Hj.
  - rewrite (sidecars_cons _ _ _ _ md) by done. apply IH.
    rewrite lookup_insert_is_Some. destruct (decide (sidecarTarget j md = p)); auto.
Qed.

Lemma sidecars_all_processed (l : list string) :
  forall m : gmap string string,
    (forall j, j ∈ l -> exists md, readSidecar j = SidecarDecoded md) ->
    forall j md, j ∈ l -> readSidecar j = SidecarDecoded md ->
      is_Some (sidecars l m !! sidecarTarget j md).
Proof.
  induction l as [|j0 l IH]; intros m Hall j md Hj Hmd.
  { by apply elem_of_nil in Hj. }
  destruct (Hall j0) as (md0 & Hmd0); [by left|].
  rewrite (sidecars_cons _ _ _ _ md0) by done.
  apply elem_of_cons in Hj as [->|Hj].
  - apply sidecars_keeps. assert (md0 = md) as -> by congruence.
    rewrite lookup_insert_eq. by eexists.
  - apply IH; [|done..]. intros j' Hj'. apply Hall. by right.
Qed.

Lemma fallback_keeps (l : list string) (p : string) :
  forall m : gmap string string, is_Some (m !! p) -> is_Some (fallback l m !! p).
Proof.
  intros m [v Hv]. exists v. by apply fallback_preserves.
Qed.

Lemma fallback_all_processed (l : list string) :
  forall m : gmap string string,
    (forall p, p ∈ l -> forall err, readMedia p <> MediaOpenFails err) ->
    forall p, p ∈ l ->
      Filepath.Ext p <> ".DS_Store" -> readMedia p <> MediaIsDir ->
      is_Some (fallback l m !! p).
Proof.
  induction l as [|p0 l IH]; intros m Hall p Hp Hext Hdir.
  { by apply elem_of_nil in Hp. }
  assert (forall q, q ∈ l -> forall err, readMedia q <> MediaOpenFails err) as Hall'
    by (intros q Hq; apply Hall; by right).
  assert (forall v m', is_Some (fallback l (addIfAbsent p0 v m') !! p)) as Hadd.
  { intros v m'. apply elem_of_cons in Hp as [->|Hp]; [|by apply IH].
    apply fallback_keeps. unfold addIfAbsent.
    destruct (m' !! p0) eqn:E; [by rewrite E|]. rewrite lookup_insert_eq. by eexists. }
  simpl. destruct (String.eqb_spec (Filepath.Ext p0) ".DS_Store") as [He|He].
  { apply elem_of_cons in Hp as [->|Hp]; [done|by apply IH]. }
  destruct (readMedia p0) as [err| |err|meta] eqn:Hr.
  - exfalso. by apply (Hall p0 ltac:(by left) err).
  - apply elem_of_cons in Hp as [->|Hp]; [done|by apply IH].
  - apply Hadd.
  - apply Hadd.
Qed.

End NonEmptyFacts.

Lemma normalize_nonempty (v : string) : v <> "" -> normalize v <> "".
Proof. unfold normalize. by destruct (GoStrings.Contains v "0001/"). Qed.

(** The invariant of the path index under the condition the code needs for
    it: when the [photoTakenTime] of every sidecar that is read parses under
    one of the two formats, every bucket of the index is non-empty after the
    two resolution phases, and after normalization. *)
Theorem buckets_nonempty_when_photoTakenTime_parses
    (localZone : GoTime.Location) (readSidecar : string -> SidecarRead)
    (readMedia : string -> MediaRead) (jsonFileList mediaFileList : list string) :
  (forall j md, j ∈ jsonFileList -> readSidecar j = SidecarDecoded md ->
    snd (extractDateFolder localZone (Timestamp (PhotoTakenTime md))) = None) ->
  let myMap1 :=
    parseExtractMetadatJsonFileAndAddToMapImage localZone readSidecar jsonFileList ∅ in
  let myMap2 :=
    parseExtractMediaFilesWithoutMedtadataJsonFileAddToMap readMedia
      (getMediaFilesWithoutMedtadataJsonFiles myMap1 mediaFileList) myMap1 in
  nonEmptyValues myMap2 /\ nonEmptyValues (normalize <$> myMap2).
Proof.
  intros Hok. cbv zeta.
  assert (nonEmptyValues
            (parseExtractMediaFilesWithoutMedtadataJsonFileAddToMap readMedia
               (getMediaFilesWithoutMedtadataJsonFiles
                  (parseExtractMetadatJsonFileAndAddToMapImage localZone readSidecar
                     jsonFileList ∅) mediaFileList)
               (parseExtractMetadatJsonFileAndAddToMapImage localZone readSidecar
                  jsonFileList ∅))) as Hne.
  { apply fallback_nonempty, sidecars_nonempty; [done|].
    intros p v Hp. by rewrite lookup_empty in Hp. }
  split; [done|].
  intros p v. rewrite lookup_fmap.
  destruct (_ !! p) as [w|] eqn:Hw; simpl; [|done].
  intros [= <-]. apply normalize_nonempty. by apply (Hne p).
Qed.

(** One good sidecar and one media file without sidecar. *)
Lemma buckets_nonempty_witness :
  nonEmptyValues
    (parseExtractMediaFilesWithoutMedtadataJsonFileAddToMap Photos.readMedia
       (getMediaFilesWithoutMedtadataJsonFiles
          (parseExtractMetadatJsonFileAndAddToMapImage GoTime.UTC Photos.readSidecar
             ["/photos/faulty/IMG_5.jpg.supplemental-metadata.json"] ∅)
          ["/photos/faulty/IMG_5.jpg"; "/photos/locked/z.jpg"])
       (parseExtractMetadatJsonFileAndAddToMapImage GoTime.UTC Photos.readSidecar
          ["/photos/faulty/IMG_5.jpg.supplemental-metadata.json"] ∅)).
Proof.
  refine (proj1 (buckets_nonempty_when_photoTakenTime_parses GoTime.UTC Photos.readSidecar
                   Photos.readMedia ["/photos/faulty/IMG_5.jpg.supplemental-metadata.json"]
                   ["/photos/faulty/IMG_5.jpg"; "/photos/locked/z.jpg"] _)).
  intros j md Hj Hr. apply list_elem_of_singleton in Hj. subst j.
  vm_compute in Hr. injection Hr as <-. reflexivity.
Defined.

(** The faults that do not stop a batch. When every sidecar of the list can
    be opened and read, every one of them is processed, whatever its JSON
    decodes to: the media path it names has an entry afterwards. When every
    media file of the list can be opened, every one of them that is neither
    a [.DS_Store] file nor a directory has an entry afterwards, whether its
    embedded metadata parses or not. A worker sends one progress unit per
    job, whatever the uploads return. *)
Theorem faults_that_do_not_stop_a_batch
    (Server : Type) (roundTrip : Request -> Server -> DoResult * Server)
    (newRequestError : string -> string -> option error)
    (openError : string -> option error) (cwd nextcloudURL : string)
    (localZone : GoTime.Location) (readSidecar : string -> SidecarRead)
    (readMedia : string -> MediaRead) (myMap : gmap string string) :
  (forall jsonFileList,
     (forall j, j ∈ jsonFileList -> exists md, readSidecar j = SidecarDecoded md) ->
     forall j md, j ∈ jsonFileList -> readSidecar j = SidecarDecoded md ->
       is_Some (parseExtractMetadatJsonFileAndAddToMapImage localZone readSidecar
                  jsonFileList myMap !! sidecarTarget j md))
  /\ (forall exifMEdiaFileList,
       (forall p, p ∈ exifMEdiaFileList -> forall err, readMedia p <> MediaOpenFails err) ->
       forall p, p ∈ exifMEdiaFileList ->
         Filepath.Ext p <> ".DS_Store" -> readMedia p <> MediaIsDir ->
         is_Some (parseExtractMediaFilesWithoutMedtadataJsonFileAddToMap readMedia
                    exifMEdiaFileList myMap !! p))
  /\ (forall (jobs : list MediaFile) (st : State Server),
       finishCounter (worker roundTrip newRequestError openError cwd nextcloudURL jobs st)
       = finishCounter st + Z.of_nat (length jobs)).
Proof.
  split_and?.
  - intros l. apply sidecars_all_processed.
  - intros l. apply fallback_all_processed.
  - intros jobs st.
    by destruct (work_counters roundTrip newRequestError openError cwd nextcloudURL jobs st)
      as (? & _).
Qed.

(** * Strings *)

Lemma append_cons (a : ascii) (s t : string) :
  (String a s ++ t)%string = String a (s ++ t)%string.
Proof. reflexivity. Qed.

Lemma append_nil_r (s : string) : (s ++ "")%string = s.
Proof. induction s as [|a s IH]; [done|]. by rewrite append_cons, IH. Qed.

Lemma append_assoc (s t u : string) : ((s ++ t) ++ u)%string = (s ++ (t ++ u))%string.
Proof. induction s as [|a s IH]; [done|]. by rewrite !append_cons, IH. Qed.

Lemma length_append (s t : string) :
  String.length (s ++ t)%string = (String.length s + String.length t)%nat.
Proof. induction s as [|a s IH]; [done|]. rewrite append_cons. simpl. by rewrite IH. Qed.

(** * Lists *)

Lemma insert_split {A : Type} (l : list A) (i : nat) (x y : A) :
  l !! i = Some x ->
  exists l1 l2, l = l1 ++ x :: l2 /\ <[i := y]> l = l1 ++ y :: l2.
Proof.
  intros H. apply list_elem_of_split_length in H as (l1 & l2 & -> & ->).
  exists l1, l2. split; [done|].
  rewrite insert_app_r_alt by lia. by rewrite Nat.sub_diag.
Qed.

Lemma filter_length_0 {A : Type} (f : A -> bool) (l : list A) :
  length (List.filter f l) = 0%nat -> forall x, x ∈ l -> f x = false.
Proof.
  induction l as [|y l IH]; simpl; intros Hl x Hx; [by apply elem_of_nil in Hx|].
  destruct (f y) eqn:Hy; [done|].
  apply elem_of_cons in Hx as [->|Hx]; [done|by apply IH].
Qed.

Lemma length_omap_le {A B : Type} (f : A -> option B) (l : list A) :
  (length (omap f l) <= length l)%nat.
Proof.
  induction l as [|x l IH]; [done|].
  change (omap f (x :: l)) with (match f x with Some y => y :: omap f l | None => omap f l end).
  destruct (f x); simpl; lia.
Qed.

Lemma omap_fmap_compose {A B C : Type} (g : A -> B) (f : B -> option C) (l : list A) :
  omap f (g <$> l) = omap (fun x => f (g x)) l.
Proof.
  induction l as [|x l IH]; [done|]. simpl. destruct (f (g x)); [f_equal|]; exact IH.
Qed.

Lemma filter_all {A : Type} (f : A -> bool) (l : list A) :
  (forall x, x ∈ l -> f x = true) -> List.filter f l = l.
Proof.
  induction l as [|x l IH]; intros H; simpl; [done|].
  rewrite (H x) by by left. f_equal. apply IH. intros y Hy. apply H. by right.
Qed.

(** * Further properties of the path index *)

Lemma collectUnique_spec (values : list string) :
  forall seen : gset string,
    NoDup (collectUnique values seen)
    /\ (forall v, v ∈ collectUnique values seen <-> v ∈ values /\ v ∉ seen)
    /\ collectUnique values seen `sublist_of` values.
Proof.
  induction values as [|value rest IH]; intros seen; simpl.
  - split_and?; [constructor | | done].
    intros v. rewrite elem_of_nil. naive_solver.
  - destruct (decide (value ∈ seen)) as [Hin|Hout].
    + destruct (IH seen) as (I1 & I2 & I3). split_and?; [done | | by apply sublist_cons].
      intros v. rewrite I2, elem_of_cons. naive_solver.
    + destruct (IH ({[value]} ∪ seen)) as (I1 & I2 & I3).
      split_and?; [ | | by apply sublist_skip].
      * constructor; [|done]. rewrite I2. set_solver.
      * intros v. rewrite !elem_of_cons, I2.
        destruct (decide (v = value)) as [->|Hne]; [naive_solver|set_solver].
Qed.

(** The directories handed to the provisioning phase are the buckets of the
    path index, each of them once: the list
    [getUniqueDirectoryToBecreatedOnNextCloud] builds has no duplicates, holds
    exactly the values the iteration over the map yields, in the order of
    the iteration, and so is no longer than the map; over the path index it
    holds a bucket iff some path is filed under it. *)
Theorem unique_directories_are_the_buckets :
  (forall entries : list (string * string),
     let directories := getUniqueDirectoryToBecreatedOnNextCloud entries in
     NoDup directories
     /\ (forall v, v ∈ directories <-> exists p, (p, v) ∈ entries)
     /\ directories `sublist_of` entries.*2
     /\ (length directories <= length entries)%nat)
  /\ (forall (myMap : gmap string string) (v : string),
        v ∈ getUniqueDirectoryToBecreatedOnNextCloud (map_to_list myMap)
        <-> exists p, myMap !! p = Some v).
Proof.
  assert (forall (entries : list (string * string)) v,
            v ∈ getUniqueDirectoryToBecreatedOnNextCloud entries
            <-> exists p, (p, v) ∈ entries) as Hmem.
  { intros entries v. unfold getUniqueDirectoryToBecreatedOnNextCloud.
    destruct (collectUnique_spec (entries.*2) ∅) as (_ & H2 & _).
    rewrite H2, list_elem_of_fmap. split.
    - intros [([p w] & -> & Hin) _]. by exists p.
    - intros (p & Hin). split; [by exists (p, v)|set_solver]. }
  split.
  - intros entries. cbv zeta. unfold getUniqueDirectoryToBecreatedOnNextCloud at 1 3 4.
    destruct (collectUnique_spec (entries.*2) ∅) as (H1 & _ & H3).
    split_and?; [done | apply Hmem | done |].
    apply sublist_length in H3. by rewrite length_fmap in H3.
  - intros myMap v. rewrite Hmem.
    split; intros (p & Hp); exists p; by apply elem_of_map_to_list.
Qed.

(** The pieces [strings.Split] cuts at a separator do not contain it. *)
Lemma SplitByte_no_separator (s : string) :
  GoStrings.Contains (fst (GoStrings.SplitByte s "/")) "/" = false
  /\ forall x, x ∈ snd (GoStrings.SplitByte s "/") -> GoStrings.Contains x "/" = false.
Proof.
  induction s as [|a s [IH1 IH2]]; simpl.
  - split; [done|]. intros x Hx. by apply elem_of_nil in Hx.
  - destruct (GoStrings.SplitByte s "/") as [hd tl]. simpl in IH1, IH2.
    destruct (Ascii.eqb_spec a "/") as [->|Hne]; simpl.
    + split; [done|]. intros x [->|Hx]%elem_of_cons; [done|by apply IH2].
    + split; [|done].
      assert (Ascii.eqb a "/" = false) as -> by by apply Ascii.eqb_neq.
      simpl. destruct hd; simpl in *; done.
Qed.

Lemma Split_no_separator (s x : string) :
  x ∈ GoStrings.Split s "/" -> GoStrings.Contains x "/" = false.
Proof.
  unfold GoStrings.Split. pose proof (SplitByte_no_separator s) as [H1 H2].
  destruct (GoStrings.SplitByte s "/") as [hd tl]. simpl in *.
  intros [->|Hx]%elem_of_cons; [done|by apply H2].
Qed.

Lemma Contains_cons (a : ascii) (s substr : string) :
  GoStrings.Contains (String a s) substr
  = GoStrings.HasPrefix (String a s) substr || GoStrings.Contains s substr.
Proof. reflexivity. Qed.

Lemma normalize_no_sentinel (b : string) :
  GoStrings.Contains (normalize b) "0001/" = false.
Proof.
  unfold normalize. destruct (GoStrings.Contains b "0001/") eqn:Hb; [|done].
  pose proof (Contains_sentinel_parts b Hb) as Hlen.
  assert (GoStrings.Contains (nth 1 (GoStrings.Split b "/") "") "/" = false) as Hx.
  { apply (Split_no_separator b). apply list_elem_of_In, nth_In. lia. }
  revert Hx. generalize (nth 1 (GoStrings.Split b "/") ""). intros x Hx.
  assert (GoStrings.Contains x "0001/" = false) as Hs.
  { destruct (GoStrings.Contains x "0001/") eqn:E; [|done].
    apply Contains_sentinel_slash in E. congruence. }
  change ("2000/" ++ x)%string
    with (String "2" (String "0" (String "0" (String "0" (String "/" x))))).
  rewrite !Contains_cons, Hs. simpl. by destruct x.
Qed.

(** After [processDirectory] no bucket of the path index contains the
    sentinel [0001/]: the normalization loop removes it from every value,
    whatever the value was; running the loop body again changes nothing;
    and the loop neither adds nor removes a path. *)
Theorem normalization_removes_the_sentinel
    (localZone : GoTime.Location) (walkEntries : string -> list WalkEntry)
    (readSidecar : string -> SidecarRead) (readMedia : string -> MediaRead)
    (photosDir : string) (myMap : gmap string string) :
  map_Forall (fun _ bucket => GoStrings.Contains bucket "0001/" = false)
    (processDirectory localZone walkEntries readSidecar readMedia photosDir myMap)
  /\ (forall bucket, normalize (normalize bucket) = normalize bucket)
  /\ dom (processDirectory localZone walkEntries readSidecar readMedia photosDir myMap)
     = dom (resolve localZone walkEntries readSidecar readMedia photosDir myMap).
Proof.
  split_and?.
  - unfold processDirectory. intros p v. rewrite lookup_fmap.
    destruct (_ !! p) as [w|]; simpl; [|done].
    intros [= <-]. apply normalize_no_sentinel.
  - intros bucket. unfold normalize at 1. by rewrite normalize_no_sentinel.
  - unfold processDirectory. apply dom_fmap_L.
Qed.

Section FallbackFacts.

Variable localZone : GoTime.Location.
Variable readSidecar : string -> SidecarRead.
Variable readMedia : string -> MediaRead.

Local Abbreviation sidecars' :=
  (parseExtractMetadatJsonFileAndAddToMapImage localZone readSidecar).
Local Abbreviation fallback' :=
  (parseExtractMediaFilesWithoutMedtadataJsonFileAddToMap readMedia).

(** The bucket the fallback resolver computes for a file it can open. *)
Lemma fallback_first_write (l : list string) :
  forall (m : gmap string string) (p : string),
    m !! p = None -> p ∈ l ->
    (forall q, q ∈ l -> forall err, readMedia q <> MediaOpenFails err) ->
    Filepath.Ext p <> ".DS_Store" -> readMedia p <> MediaIsDir ->
    fallback' l m !! p
    = Some match readMedia p with
           | MediaParsed meta => exifTimestamp meta
           | _ => defaultTimestamp
           end.
Proof.
  induction l as [|p0 l IH]; intros m p Hm Hp Hall Hext Hdir.
  { by apply elem_of_nil in Hp. }
  assert (forall q, q ∈ l -> forall err, readMedia q <> MediaOpenFails err) as Hall'
    by (intros q Hq; apply Hall; by right).
  simpl. destruct (String.eqb_spec (Filepath.Ext p0) ".DS_Store") as [He|He].
  { apply elem_of_cons in Hp as [->|Hp]; [done|by apply IH]. }
  destruct (decide (p = p0)) as [->|Hne].
  - destruct (readMedia p0) as [err| |err|meta] eqn:Hr.
    + exfalso. by apply (Hall p0 ltac:(by left) err).
    + done.
    + apply fallback_preserves. unfold addIfAbsent. rewrite Hm. apply lookup_insert_eq.
    + apply fallback_preserves. unfold addIfAbsent. rewrite Hm. apply lookup_insert_eq.
  - apply elem_of_cons in Hp as [->|Hp]; [done|].
    destruct (readMedia p0) as [err| |err|meta] eqn:Hr.
    + exfalso. by apply (Hall p0 ltac:(by left) err).
    + by apply IH.
    + apply IH; try done. by rewrite addIfAbsent_other.
    + apply IH; try done. by rewrite addIfAbsent_other.
Qed.

Lemma sidecars_dom (l : list string) :
  forall (m : gmap string string) (p : string),
    is_Some (sidecars' l m !! p) ->
    is_Some (m !! p)
    \/ exists j md, j ∈ l /\ readSidecar j = SidecarDecoded md /\ p = sidecarTarget j md.
Proof.
  induction l as [|j l IH]; intros m p Hp; [by left|].
  destruct (readSidecar j) as [e|e|md] eqn:Hj.
  - simpl in Hp. rewrite Hj in Hp. by left.
  - simpl in Hp. rewrite Hj in Hp. by left.
  - rewrite (sidecars_cons _ _ _ _ md) in Hp by done.
    apply IH in Hp as [Hp|(j' & md' & Hin & Hr & ->)].
    + apply lookup_insert_is_Some in Hp as [<-|[_ Hp]]; [|by left].
      right. exists j, md. split_and?; [by left|done..].
    + right. exists j', md'. split_and?; [by right|done..].
Qed.

Lemma addIfAbsent_dom (q v p : string) (m : gmap string string) :
  is_Some (addIfAbsent q v m !! p) -> is_Some (m !! p) \/ p = q.
Proof.
  unfold addIfAbsent. destruct (m !! q); [by left|].
  intros [<-|[_ H]]%lookup_insert_is_Some; auto.
Qed.

Lemma fallback_dom (l : list string) :
  forall (m : gmap string string) (p : string),
    is_Some (fallback' l m !! p) ->
    is_Some (m !! p)
    \/ (p ∈ l /\ Filepath.Ext p <> ".DS_Store"
        /\ ((exists err, readMedia p = MediaParseFails err)
            \/ exists meta, readMedia p = MediaParsed meta)).
Proof.
  induction l as [|p0 l IH]; intros m p Hp; [by left|].
  simpl in Hp. destruct (String.eqb_spec (Filepath.Ext p0) ".DS_Store") as [He|He].
  { apply IH in Hp as [Hp|(Hin & Hp)]; [by left|]. right. split; [by right|done]. }
  destruct (readMedia p0) as [err| |err|meta] eqn:Hr.
  - by left.
  - apply IH in Hp as [Hp|(Hin & Hp)]; [by left|]. right. split; [by right|done].
  - apply IH in Hp as [Hp|(Hin & Hp)]; [|right; split; [by right|done]].
    apply addIfAbsent_dom in Hp as [Hp| ->]; [by left|].
    right. split_and?; [by left|done|]. left. by exists err.
  - apply IH in Hp as [Hp|(Hin & Hp)]; [|right; split; [by right|done]].
    apply addIfAbsent_dom in Hp as [Hp| ->]; [by left|].
    right. split_and?; [by left|done|]. right. by exists meta.
Qed.

End FallbackFacts.

(** What the fallback phase and the normalization together make of a media
    file that has no entry from a sidecar, when every file of the list can
    be opened: a file whose embedded metadata cannot be parsed, and a file
    whose metadata holds no date at all, are filed under [2000/01]; a file
    with a creation date is filed under the normalized year and month of
    that date. *)
Theorem media_without_date_goes_to_2000_01
    (readMedia : string -> MediaRead) (exifMEdiaFileList : list string)
    (myMap : gmap string string) (photoPath : string) :
  myMap !! photoPath = None ->
  photoPath ∈ exifMEdiaFileList ->
  (forall q, q ∈ exifMEdiaFileList -> forall err, readMedia q <> MediaOpenFails err) ->
  Filepath.Ext photoPath <> ".DS_Store" ->
  let index :=
    normalize
      <$> parseExtractMediaFilesWithoutMedtadataJsonFileAddToMap readMedia
            exifMEdiaFileList myMap in
  (forall err, readMedia photoPath = MediaParseFails err ->
     index !! photoPath = Some "2000/01")
  /\ (forall meta, readMedia photoPath = MediaParsed meta ->
        GoTime.IsZero (DateTimeCreated meta) = true ->
        DateTimeOriginal meta = GoTime.zeroTime ->
        index !! photoPath = Some "2000/01")
  /\ (forall meta, readMedia photoPath = MediaParsed meta ->
        GoTime.IsZero (DateTimeCreated meta) = false ->
        index !! photoPath = Some (normalize (GoTime.Format (DateTimeCreated meta)))).
Proof.
  intros Hm Hin Hall Hext. cbv zeta.
  assert (readMedia photoPath <> MediaIsDir ->
          (normalize
             <$> parseExtractMediaFilesWithoutMedtadataJsonFileAddToMap readMedia
                   exifMEdiaFileList myMap) !! photoPath
          = Some (normalize match readMedia photoPath with
                            | MediaParsed meta => exifTimestamp meta
                            | _ => defaultTimestamp
                            end)) as Hw.
  { intros Hdir. rewrite lookup_fmap.
    by rewrite (fallback_first_write readMedia exifMEdiaFileList myMap photoPath). }
  split_and?.
  - intros err Hr. rewrite Hw by (rewrite Hr; discriminate). by rewrite Hr.
  - intros meta Hr Hz Ho. rewrite Hw by (rewrite Hr; discriminate). rewrite Hr.
    unfold exifTimestamp. by rewrite Hz, Ho.
  - intros meta Hr Hz. rewrite Hw by (rewrite Hr; discriminate). rewrite Hr.
    unfold exifTimestamp. by rewrite Hz.
Qed.

(** A media file in a format the metadata parser does not know. *)
Lemma media_without_date_witness :
  (normalize
     <$> parseExtractMediaFilesWithoutMedtadataJsonFileAddToMap Photos.readMedia
           ["/photos/scan.bmp"] ∅) !! "/photos/scan.bmp"
  = Some "2000/01".
Proof.
  refine (proj1 (media_without_date_goes_to_2000_01 Photos.readMedia ["/photos/scan.bmp"] ∅
                   "/photos/scan.bmp" _ _ _ _) "unknown format" _).
  - reflexivity.
  - left.
  - intros q Hq err. apply list_elem_of_singleton in Hq. subst q. vm_compute. discriminate.
  - vm_compute. discriminate.
  - reflexivity.
Defined.

(** The path index holds nothing but what the scan found: every path of the
    index after the two resolution phases of [processDirectory], and so
    after its normalization, is the media path some sidecar of the scan
    names, or a media file of the scan that is no [.DS_Store] file and was
    opened as a regular file. *)
Theorem index_paths_come_from_the_scan
    (localZone : GoTime.Location) (walkEntries : string -> list WalkEntry)
    (readSidecar : string -> SidecarRead) (readMedia : string -> MediaRead)
    (photosDir : string) :
  map_Forall
    (fun photoPath _ =>
       (exists jsonFile metadata,
          jsonFile ∈ (getMediaFileList walkEntries photosDir).1
          /\ readSidecar jsonFile = SidecarDecoded metadata
          /\ photoPath = sidecarTarget jsonFile metadata)
       \/ (photoPath ∈ (getMediaFileList walkEntries photosDir).2
           /\ Filepath.Ext photoPath <> ".DS_Store"
           /\ ((exists err, readMedia photoPath = MediaParseFails err)
               \/ exists meta, readMedia photoPath = MediaParsed meta)))
    (processDirectory localZone walkEntries readSidecar readMedia photosDir ∅).
Proof.
  intros p v Hp. unfold processDirectory in Hp. rewrite lookup_fmap in Hp.
  unfold resolve in Hp.
  destruct (getMediaFileList walkEntries photosDir) as [jsonFileList mediaFileList].
  simpl.
  destruct (_ !! p) as [w|] eqn:Hw; [|done]. clear Hp.
  assert (is_Some
            (parseExtractMediaFilesWithoutMedtadataJsonFileAddToMap readMedia
               (getMediaFilesWithoutMedtadataJsonFiles
                  (parseExtractMetadatJsonFileAndAddToMapImage localZone readSidecar
                     jsonFileList ∅) mediaFileList)
               (parseExtractMetadatJsonFileAndAddToMapImage localZone readSidecar
                  jsonFileList ∅) !! p)) as Hs by by exists w.
  apply fallback_dom in Hs as [Hs|(Hin & Hext & Hr)].
  - apply sidecars_dom in Hs as [Hs|Hs]; [|by left].
    rewrite lookup_empty in Hs. by destruct Hs.
  - right. apply without_sidecar_spec in Hin as [Hin _]. done.
Qed.

(** * Properties of the date buckets *)

(** The ten digits, and checks over all of them. *)
Lemma isDigit_cases (a : ascii) :
  GoTime.isDigit a = true -> In a (list_ascii_of_string "0123456789").
Proof.
  destruct a as [[] [] [] [] [] [] [] []]; vm_compute; intros H; try discriminate H; tauto.
Qed.

Lemma isDigit_not_slash (a : ascii) : GoTime.isDigit a = true -> Ascii.eqb a "/" = false.
Proof. destruct a as [[] [] [] [] [] [] [] []]; vm_compute; congruence. Qed.

Lemma year_text (a b c d : ascii) :
  GoTime.isDigit a = true -> GoTime.isDigit b = true ->
  GoTime.isDigit c = true -> GoTime.isDigit d = true ->
  GoTime.appendInt
    (((GoTime.digitVal a * 10 + GoTime.digitVal b) * 10 + GoTime.digitVal c) * 10
     + GoTime.digitVal d) 4
  = String a (String b (String c (String d ""))).
Proof.
  intros Ha Hb Hc Hd.
  assert (forallb (fun a => forallb (fun b => forallb (fun c => forallb (fun d =>
            String.eqb
              (GoTime.appendInt
                 (((GoTime.digitVal a * 10 + GoTime.digitVal b) * 10 + GoTime.digitVal c) * 10
                  + GoTime.digitVal d) 4)
              (String a (String b (String c (String d "")))))
            (list_ascii_of_string "0123456789")) (list_ascii_of_string "0123456789"))
            (list_ascii_of_string "0123456789")) (list_ascii_of_string "0123456789") = true)
    as Hall by (vm_compute; reflexivity).
  rewrite forallb_forall in Hall.
  specialize (Hall a (isDigit_cases a Ha)). rewrite forallb_forall in Hall.
  specialize (Hall b (isDigit_cases b Hb)). rewrite forallb_forall in Hall.
  specialize (Hall c (isDigit_cases c Hc)). rewrite forallb_forall in Hall.
  specialize (Hall d (isDigit_cases d Hd)). by apply String.eqb_eq in Hall.
Qed.

Lemma month_text (a b : ascii) :
  GoTime.isDigit a = true -> GoTime.isDigit b = true ->
  GoTime.appendInt (GoTime.digitVal a * 10 + GoTime.digitVal b) 2 = String a (String b "").
Proof.
  intros Ha Hb.
  assert (forallb (fun a => forallb (fun b =>
            String.eqb (GoTime.appendInt (GoTime.digitVal a * 10 + GoTime.digitVal b) 2)
              (String a (String b "")))
            (list_ascii_of_string "0123456789")) (list_ascii_of_string "0123456789") = true)
    as Hall by (vm_compute; reflexivity).
  rewrite forallb_forall in Hall.
  specialize (Hall a (isDigit_cases a Ha)). rewrite forallb_forall in Hall.
  specialize (Hall b (isDigit_cases b Hb)). by apply String.eqb_eq in Hall.
Qed.

Lemma getyear_inv (s v : string) (y : Z) :
  GoTime.getyear s = Some (y, v) ->
  exists a b c d,
    s = String a (String b (String c (String d v)))
    /\ GoTime.isDigit a = true /\ GoTime.isDigit b = true
    /\ GoTime.isDigit c = true /\ GoTime.isDigit d = true
    /\ y = ((GoTime.digitVal a * 10 + GoTime.digitVal b) * 10 + GoTime.digitVal c) * 10
           + GoTime.digitVal d.
Proof.
  destruct s as [|a [|b [|c [|d s]]]]; simpl; try discriminate.
  destruct (GoTime.isDigit a) eqn:Ha; simpl; [|discriminate].
  destruct (GoTime.isDigit b) eqn:Hb; simpl; [|discriminate].
  destruct (GoTime.isDigit c) eqn:Hc; simpl; [|discriminate].
  destruct (GoTime.isDigit d) eqn:Hd; simpl; [|discriminate].
  intros [= <- <-]. by exists a, b, c, d.
Qed.

Lemma skip_inv (s v : string) (c : ascii) : GoTime.skip s c = Some v -> s = String c v.
Proof.
  destruct s as [|a s]; simpl; [discriminate|].
  destruct (Ascii.eqb_spec a c) as [->|]; [|discriminate]. by intros [= ->].
Qed.

Lemma getnum_fixed_inv (s v : string) (n : Z) :
  GoTime.getnum s true = Some (n, v) ->
  exists a b,
    s = String a (String b v) /\ GoTime.isDigit a = true /\ GoTime.isDigit b = true
    /\ n = GoTime.digitVal a * 10 + GoTime.digitVal b.
Proof.
  destruct s as [|a [|b s]]; simpl; try discriminate.
  - destruct (GoTime.isDigit a); discriminate.
  - destruct (GoTime.isDigit a) eqn:Ha; [|discriminate].
    destruct (GoTime.isDigit b) eqn:Hb; [|discriminate].
    intros [= <- <-]. by exists a, b.
Qed.

(** What [time.Parse] accepts under the layout begins with a four-digit
    year, a dash and a two-digit month, which are the year and month of the
    result. *)
Lemma ParseISO_inv (value : string) (c : GoTime.Civil) :
  GoTime.ParseISO value = Some c ->
  exists y1 y2 y3 y4 m1 m2 rest,
    value = String y1 (String y2 (String y3 (String y4
              (String "-" (String m1 (String m2 rest))))))
    /\ GoTime.isDigit y1 = true /\ GoTime.isDigit y2 = true
    /\ GoTime.isDigit y3 = true /\ GoTime.isDigit y4 = true
    /\ GoTime.isDigit m1 = true /\ GoTime.isDigit m2 = true
    /\ GoTime.formatCivil c
       = String y1 (String y2 (String y3 (String y4 (String "/" (String m1 (String m2 "")))))).
Proof.
  unfold GoTime.ParseISO. intros H.
  destruct (GoTime.getyear value) as [[year v0]|] eqn:Hy; [|discriminate]. simpl in H.
  destruct (GoTime.skip v0 "-") as [v1|] eqn:Hs; [|discriminate]. simpl in H.
  destruct (GoTime.getnum v1 true) as [[month v2]|] eqn:Hm; [|discriminate]. simpl in H.
  apply getyear_inv in Hy as (y1 & y2 & y3 & y4 & -> & D1 & D2 & D3 & D4 & ->).
  apply skip_inv in Hs as ->.
  apply getnum_fixed_inv in Hm as (m1 & m2 & -> & D5 & D6 & ->).
  exists y1, y2, y3, y4, m1, m2, v2. split_and?; try done.
  assert (c = {| GoTime.cYear :=
                   ((GoTime.digitVal y1 * 10 + GoTime.digitVal y2) * 10 + GoTime.digitVal y3)
                   * 10 + GoTime.digitVal y4;
                 GoTime.cMonth := GoTime.digitVal m1 * 10 + GoTime.digitVal m2 |}) as ->.
  { repeat first
      [ apply bind_Some in H as (? & _ & H); cbv beta in H
      | match type of H with
        | (let '(_, _) := ?p in _) = _ => destruct p
        end ].
    congruence. }
  unfold GoTime.formatCivil. simpl GoTime.cYear. simpl GoTime.cMonth.
  by rewrite year_text, month_text.
Qed.

(** The bucket of a timestamp in the ISO form is its own text: the four
    digits of its year, a slash, and the two digits of its month, whatever
    the time zone of the process; it has the canonical shape. *)
Theorem iso_timestamp_bucket_is_its_text
    (localZone : GoTime.Location) (timestamp : string) :
  is_Some (GoTime.ParseISO timestamp) ->
  extractDateFolder localZone timestamp
  = ((substring 0 4 timestamp ++ "/" ++ substring 5 2 timestamp)%string, None)
  /\ canonicalBucket (extractDateFolder localZone timestamp).1 = true.
Proof.
  intros [c Hc]. unfold extractDateFolder. rewrite Hc.
  apply ParseISO_inv in Hc
    as (y1 & y2 & y3 & y4 & m1 & m2 & rest & -> & D1 & D2 & D3 & D4 & D5 & D6 & ->).
  split.
  - simpl. by destruct rest.
  - cbn [fst canonicalBucket]. rewrite !Contains_cons. simpl.
    by rewrite !isDigit_not_slash.
Qed.

Lemma iso_timestamp_bucket_witness :
  extractDateFolder (fun _ => 7200) "2021-03-04T05:06:07Z" = ("2021/03", None).
Proof.
  refine (proj1 (iso_timestamp_bucket_is_its_text (fun _ => 7200) "2021-03-04T05:06:07Z" _)).
  vm_compute. by eexists.
Defined.

(** The calendar date of a day number: the month is a month, and between
    the first day of the year 0 and the last of the year 9999 the year has
    at most four digits. *)
Lemma civilFromDays_range (days : Z) :
  1 <= GoTime.cMonth (GoTime.civilFromDays days) <= 12
  /\ (-719528 <= days <= 2932896 ->
      0 <= GoTime.cYear (GoTime.civilFromDays days) <= 9999).
Proof.
  unfold GoTime.civilFromDays. cbv zeta. simpl.
  repeat match goal with
  | |- context [?a <? ?b] => destruct (Z.ltb_spec a b)
  | |- context [?a <=? ?b] => destruct (Z.leb_spec a b)
  end.
  all: Z.to_euclidean_division_equations.
  all: lia.
Qed.

Lemma digitChar_digit (d : Z) :
  0 <= d <= 9 ->
  GoTime.isDigit (GoTime.digitChar d) = true /\ GoTime.digitVal (GoTime.digitChar d) = d.
Proof.
  intros Hd.
  assert (d = 0 \/ d = 1 \/ d = 2 \/ d = 3 \/ d = 4 \/ d = 5 \/ d = 6 \/ d = 7 \/ d = 8
          \/ d = 9) as Hc by lia.
  repeat (destruct Hc as [->|Hc]; [by vm_compute|]). subst d. by vm_compute.
Qed.

Lemma formatCivil_canonical (c : GoTime.Civil) :
  0 <= GoTime.cYear c <= 9999 -> 1 <= GoTime.cMonth c <= 12 ->
  canonicalBucket (GoTime.formatCivil c) = true.
Proof.
  destruct c as [y m]. simpl. intros Hy Hm. unfold GoTime.formatCivil. simpl.
  destruct (digitChar_digit (y / 1000)) as [A1 A2]; [Z.to_euclidean_division_equations; lia|].
  destruct (digitChar_digit (y / 100 mod 10)) as [B1 B2];
    [Z.to_euclidean_division_equations; lia|].
  destruct (digitChar_digit (y / 10 mod 10)) as [C1 C2];
    [Z.to_euclidean_division_equations; lia|].
  destruct (digitChar_digit (y mod 10)) as [D1 D2]; [Z.to_euclidean_division_equations; lia|].
  destruct (digitChar_digit (m / 10)) as [E1 E2]; [Z.to_euclidean_division_equations; lia|].
  destruct (digitChar_digit (m mod 10)) as [F1 F2]; [Z.to_euclidean_division_equations; lia|].
  replace y
    with (((GoTime.digitVal (GoTime.digitChar (y / 1000)) * 10
            + GoTime.digitVal (GoTime.digitChar (y / 100 mod 10))) * 10
           + GoTime.digitVal (GoTime.digitChar (y / 10 mod 10))) * 10
          + GoTime.digitVal (GoTime.digitChar (y mod 10)))
    by (rewrite A2, B2, C2, D2; Z.to_euclidean_division_equations; lia).
  replace m
    with (GoTime.digitVal (GoTime.digitChar (m / 10)) * 10
          + GoTime.digitVal (GoTime.digitChar (m mod 10)))
    by (rewrite E2, F2; Z.to_euclidean_division_equations; lia).
  rewrite year_text, month_text by done.
  revert A1 B1 C1 D1 E1 F1.
  generalize (GoTime.digitChar (y / 1000)) (GoTime.digitChar (y / 100 mod 10))
    (GoTime.digitChar (y / 10 mod 10)) (GoTime.digitChar (y mod 10))
    (GoTime.digitChar (m / 10)) (GoTime.digitChar (m mod 10)).
  intros y1 y2 y3 y4 m1 m2 A1 B1 C1 D1 E1 F1.
  change (canonicalBucket
            (String y1 (String y2 (String y3 (String y4
               (String "/" (String m1 (String m2 ""))))))) = true).
  cbn [canonicalBucket]. rewrite !Contains_cons. simpl.
  by rewrite !isDigit_not_slash.
Qed.

(** The bucket of a timestamp in epoch seconds has the canonical shape
    [YYYY/MM], with a month between 01 and 12, whenever the instant lies,
    in the time zone of the process, between the first second of the year
    0 and the last second of the year 9999. *)
Theorem epoch_timestamp_bucket_is_canonical
    (localZone : GoTime.Location) (timestamp : string) (epoch : Z) :
  GoTime.ParseISO timestamp = None ->
  GoTime.ParseInt timestamp = Some epoch ->
  -62167219200 <= epoch + localZone epoch <= 253402300799 ->
  exists year month,
    0 <= year <= 9999 /\ 1 <= month <= 12
    /\ extractDateFolder localZone timestamp
       = ((GoTime.appendInt year 4 ++ "/" ++ GoTime.appendInt month 2)%string, None)
    /\ canonicalBucket (extractDateFolder localZone timestamp).1 = true.
Proof.
  intros Hiso Hint Hrange. unfold extractDateFolder. rewrite Hiso, Hint.
  unfold GoTime.Format, GoTime.Unix. simpl GoTime.tUnix. simpl GoTime.tOffset.
  set (days := (epoch + localZone epoch) / 86400).
  assert (-719528 <= days <= 2932896) as Hdays.
  { subst days. Z.to_euclidean_division_equations. lia. }
  destruct (civilFromDays_range days) as [Hm Hy]. specialize (Hy Hdays).
  exists (GoTime.cYear (GoTime.civilFromDays days)),
         (GoTime.cMonth (GoTime.civilFromDays days)).
  split_and?; try lia; [done|].
  by apply formatCivil_canonical.
Qed.

Lemma epoch_timestamp_bucket_witness :
  canonicalBucket (extractDateFolder (fun _ => -18000) "1600000000").1 = true.
Proof.
  destruct (epoch_timestamp_bucket_is_canonical (fun _ => -18000) "1600000000" 1600000000)
    as (year & month & _ & _ & _ & H).
  - reflexivity.
  - reflexivity.
  - lia.
  - exact H.
Defined.

(** * Properties of the first variant *)

(** ** Suffixes *)

Lemma substring_whole (s : string) : substring 0 (String.length s) s = s.
Proof. induction s as [|a s IH]; [done|]. simpl. by rewrite IH. Qed.

Lemma substring_app_right (u r : string) :
  substring (String.length u) (String.length r) (u ++ r)%string = r.
Proof. induction u as [|a u IH]; [apply substring_whole|]. by rewrite append_cons. Qed.

Lemma substring_app_left (u r : string) : substring 0 (String.length u) (u ++ r)%string = u.
Proof.
  induction u as [|a u IH]; [by destruct r|]. rewrite append_cons. simpl. by rewrite IH.
Qed.

Lemma substring_split (s : string) :
  forall n : nat,
    (n <= String.length s)%nat ->
    s = (substring 0 n s ++ substring n (String.length s - n) s)%string.
Proof.
  induction s as [|a s IH]; intros n Hn.
  - simpl in Hn. by assert (n = 0%nat) as -> by lia.
  - destruct n as [|n].
    + simpl. by rewrite substring_whole.
    + simpl in Hn. simpl. rewrite append_cons. f_equal. apply IH. lia.
Qed.

(** [strings.HasSuffix] and [strings.TrimSuffix] in terms of
    concatenation. *)
Lemma HasSuffix_iff (s suffix : string) :
  GoStrings.HasSuffix s suffix = true <-> exists u, s = (u ++ suffix)%string.
Proof.
  unfold GoStrings.HasSuffix. split.
  - intros [Hlen Heq]%andb_true_iff. apply Nat.leb_le in Hlen. apply String.eqb_eq in Heq.
    exists (substring 0 (String.length s - String.length suffix) s).
    pose proof (substring_split s (String.length s - String.length suffix) ltac:(lia))
      as Hsp.
    replace (String.length s - (String.length s - String.length suffix))%nat
      with (String.length suffix) in Hsp by lia.
    by rewrite Heq in Hsp.
  - intros [u ->]. rewrite length_append. apply andb_true_iff. split.
    + apply Nat.leb_le. lia.
    + replace (String.length u + String.length suffix - String.length suffix)%nat
        with (String.length u) by lia.
      rewrite substring_app_right. apply String.eqb_refl.
Qed.

Lemma TrimSuffix_app (u suffix : string) :
  GoStrings.TrimSuffix (u ++ suffix)%string suffix = u.
Proof.
  unfold GoStrings.TrimSuffix.
  rewrite (proj2 (HasSuffix_iff (u ++ suffix) suffix)) by by exists u.
  rewrite length_append.
  replace (String.length u + String.length suffix - String.length suffix)%nat
    with (String.length u) by lia.
  apply substring_app_left.
Qed.

Lemma append_eq_append (p q u r : string) :
  (p ++ q)%string = (u ++ r)%string ->
  (exists l, r = (l ++ q)%string) \/ (exists l, q = (l ++ r)%string).
Proof.
  revert u. induction p as [|a p IH]; intros u H.
  - right. by exists u.
  - destruct u as [|b u].
    + left. by exists (String a p).
    + rewrite !append_cons in H. injection H as _ H. by apply IH in H.
Qed.

(** A suffix of [p ++ q] is a suffix of [q], or has [q] as a suffix. *)
Lemma HasSuffix_app_cases (p q r : string) :
  GoStrings.HasSuffix (p ++ q)%string r = true ->
  GoStrings.HasSuffix q r = true \/ GoStrings.HasSuffix r q = true.
Proof.
  intros [u H]%HasSuffix_iff. apply append_eq_append in H as [[l ->]|[l ->]].
  - right. apply HasSuffix_iff. by exists l.
  - left. apply HasSuffix_iff. by exists l.
Qed.

(** ** The photo path of a sidecar *)

Lemma trimSuffixWildcard_cases (s : string) (patterns : list string) :
  Simple.trimSuffixWildcard s patterns = s
  \/ exists pattern,
       pattern ∈ patterns /\ s = (Simple.trimSuffixWildcard s patterns ++ pattern)%string.
Proof.
  induction patterns as [|pattern rest IH]; simpl; [by left|].
  destruct (GoStrings.HasSuffix s pattern) eqn:Hs.
  - right. exists pattern. split; [by left|].
    apply HasSuffix_iff in Hs as [u ->]. by rewrite TrimSuffix_app.
  - destruct IH as [IH|(q & Hq & IH)]; [by left|].
    right. exists q. split; [by right|done].
Qed.

(** [getPhotoPathFromJSON] undoes the appending of any of its four suffixes
    to any path; what it returns is its argument, or its argument without
    one of the four suffixes at its end, the star of the third one taken
    literally; a path that ends with none of the four is returned as it
    is; and the result is empty, which makes the walk skip the file, only
    for the empty path and for a path that is one of the four suffixes and
    nothing else. *)
Theorem getPhotoPathFromJSON_trims_one_suffix :
  Forall (fun pattern =>
            forall photoPath : string,
              Simple.getPhotoPathFromJSON (photoPath ++ pattern)%string = photoPath)
    Simple.patterns
  /\ (forall jsonPath : string,
        Simple.getPhotoPathFromJSON jsonPath = jsonPath
        \/ exists pattern,
             pattern ∈ Simple.patterns
             /\ jsonPath = (Simple.getPhotoPathFromJSON jsonPath ++ pattern)%string)
  /\ (forall jsonPath : string,
        Forall (fun pattern => GoStrings.HasSuffix jsonPath pattern = false) Simple.patterns
        <-> Simple.getPhotoPathFromJSON jsonPath = jsonPath)
  /\ (forall jsonPath : string,
        Simple.getPhotoPathFromJSON jsonPath = ""
        <-> jsonPath = "" \/ jsonPath ∈ Simple.patterns).
Proof.
  assert (forall q r p,
            GoStrings.HasSuffix q r = false -> GoStrings.HasSuffix r q = false ->
            GoStrings.HasSuffix (p ++ q)%string r = false) as Hno.
  { intros q r p H1 H2. destruct (GoStrings.HasSuffix (p ++ q) r) eqn:E; [|done].
    apply HasSuffix_app_cases in E as [E|E]; congruence. }
  assert (Forall (fun pattern =>
            forall photoPath : string,
              Simple.getPhotoPathFromJSON (photoPath ++ pattern)%string = photoPath)
            Simple.patterns) as Hround.
  { unfold Simple.getPhotoPathFromJSON, Simple.patterns.
    repeat apply Forall_cons_2; [..|apply Forall_nil_2]; intros p; simpl;
      rewrite ?(Hno _ _ p) by reflexivity;
      rewrite (proj2 (HasSuffix_iff _ _)) by (by exists p);
      apply TrimSuffix_app. }
  split_and?.
  - exact Hround.
  - intros jsonPath. apply trimSuffixWildcard_cases.
  - intros jsonPath. unfold Simple.getPhotoPathFromJSON, Simple.patterns.
    rewrite !Forall_cons, Forall_nil. split.
    + intros (H1 & H2 & H3 & H4 & _). simpl. by rewrite H1, H2, H3, H4.
    + simpl. intros H.
      assert (forall q, q <> "" -> GoStrings.HasSuffix jsonPath q = true ->
                GoStrings.TrimSuffix jsonPath q <> jsonPath) as Hshort.
      { intros q Hq [u ->]%HasSuffix_iff. rewrite TrimSuffix_app.
        intros Hu. apply (f_equal String.length) in Hu. rewrite length_append in Hu.
        destruct q; [done|]. simpl in Hu. lia. }
      repeat match type of H with
      | (if GoStrings.HasSuffix jsonPath ?q then _ else _) = _ =>
          destruct (GoStrings.HasSuffix jsonPath q) eqn:?;
            [exfalso; by apply (Hshort q)|]
      end.
      done.
  - intros jsonPath. split.
    + intros He.
      destruct (trimSuffixWildcard_cases jsonPath Simple.patterns) as [H|(q & Hq & H)].
      * left. unfold Simple.getPhotoPathFromJSON in He. congruence.
      * right. unfold Simple.getPhotoPathFromJSON in He. rewrite He in H.
        by rewrite H.
    + intros [->|Hin]; [reflexivity|].
      unfold Simple.patterns in Hin. decompose_list_elem_of; subst jsonPath; reflexivity.
Qed.

(** ** The list of photos *)

Lemma Walk_visit (localZone : GoTime.Location) (readSidecar : string -> SidecarRead)
    (entries : list WalkEntry) :
  forall photosList : list Simple.PhotoToUpload,
    Walk entries (Simple.visit localZone readSidecar) photosList
    = (photosList ++ omap (Simple.photoOf localZone readSidecar) (visited entries),
       Simple.walkError entries).
Proof.
  induction entries as [|[path info|path err] entries IH]; intros photosList; simpl.
  - by rewrite app_nil_r.
  - unfold Simple.bucketOf.
    destruct (GoStrings.HasSuffix (Name info) ".json"); simpl; [|by rewrite IH].
    destruct (String.eqb (Simple.getPhotoPathFromJSON path) ""); simpl; [by rewrite IH|].
    destruct (readSidecar path) as [e|e|metadata]; [by rewrite IH..|].
    destruct (extractDateFolder localZone (Timestamp (PhotoTakenTime metadata)))
      as [b1 [e1|]].
    + destruct (extractDateFolder localZone (Timestamp (CreationTime metadata)))
        as [b2 [e2|]]; rewrite IH; [done|]. by rewrite <- app_assoc.
    + rewrite IH. by rewrite <- app_assoc.
  - by rewrite app_nil_r.
Qed.

Lemma first_variant_processDirectory_eq
    (localZone : GoTime.Location) (walkEntries : string -> list WalkEntry)
    (readSidecar : string -> SidecarRead) (rootDir : string)
    (photosList : list Simple.PhotoToUpload) :
  (Simple.processDirectory localZone walkEntries readSidecar rootDir photosList).1
  = photosList
    ++ omap (Simple.photoOf localZone readSidecar) (visited (walkEntries rootDir))
  /\ (Simple.processDirectory localZone walkEntries readSidecar rootDir photosList).2
     = Simple.walkError (walkEntries rootDir).
Proof. unfold Simple.processDirectory. by rewrite Walk_visit. Qed.

(** [processDirectory] of the first variant: to the list it finds, the
    walk adds one photo for every sidecar it visits before its first error
    that can be read and has a timestamp that parses, in walk order, and it
    returns the first error of the walk. A sidecar whose [photoTakenTime]
    does not parse is filed under the bucket of its [creationTime]; one
    whose two timestamps do not parse adds nothing; neither does one that
    cannot be opened or read; and in each of these cases the walk goes on
    with the next entry. *)
Theorem first_variant_processDirectory
    (localZone : GoTime.Location) (walkEntries : string -> list WalkEntry)
    (readSidecar : string -> SidecarRead) (rootDir : string)
    (photosList : list Simple.PhotoToUpload) :
  Simple.processDirectory localZone walkEntries readSidecar rootDir photosList
  = (photosList
     ++ omap (Simple.photoOf localZone readSidecar) (visited (walkEntries rootDir)),
     Simple.walkError (walkEntries rootDir))
  /\ (forall path info metadata,
        GoStrings.HasSuffix (Name info) ".json" = true ->
        Simple.getPhotoPathFromJSON path <> "" ->
        readSidecar path = SidecarDecoded metadata ->
        let taken := extractDateFolder localZone (Timestamp (PhotoTakenTime metadata)) in
        let created := extractDateFolder localZone (Timestamp (CreationTime metadata)) in
        let photo subFolder :=
          {| Simple.FilePath := Simple.getPhotoPathFromJSON path;
             Simple.SubFolder := subFolder |} in
        (taken.2 = None ->
         Simple.photoOf localZone readSidecar (path, info) = Some (photo taken.1))
        /\ (taken.2 <> None -> created.2 = None ->
            Simple.photoOf localZone readSidecar (path, info) = Some (photo created.1))
        /\ (taken.2 <> None -> created.2 <> None ->
            Simple.photoOf localZone readSidecar (path, info) = None))
  /\ (forall path info,
        (forall metadata, readSidecar path <> SidecarDecoded metadata) ->
        Simple.photoOf localZone readSidecar (path, info) = None)
  /\ (forall path info,
        GoStrings.HasSuffix (Name info) ".json" = false ->
        Simple.photoOf localZone readSidecar (path, info) = None).
Proof.
  split_and?.
  - apply Walk_visit.
  - intros path info metadata Hjson Hpath Hread. cbv zeta.
    unfold Simple.photoOf, Simple.bucketOf. rewrite Hjson, Hread.
    apply String.eqb_neq in Hpath. rewrite Hpath. simpl.
    destruct (extractDateFolder localZone (Timestamp (PhotoTakenTime metadata)))
      as [b1 [e1|]];
      destruct (extractDateFolder localZone (Timestamp (CreationTime metadata)))
        as [b2 [e2|]]; simpl; split_and?; try done.
  - intros path info Hread. unfold Simple.photoOf.
    destruct (_ && _); [|done].
    destruct (readSidecar path) as [e|e|metadata] eqn:E; [done..|].
    by destruct (Hread metadata).
  - intros path info Hjson. unfold Simple.photoOf. by rewrite Hjson.
Qed.

(** ** One upload *)

Section FirstVariantUpload.

Context {Server : Type}.
Variable roundTrip : Request -> Server -> DoResult * Server.
Variable newRequestError : string -> string -> option error.
Variable openError : string -> option error.
Variable nextcloudURL : string.

Local Abbreviation requestOf' := (Simple.requestOf newRequestError openError nextcloudURL).

Lemma simple_uploadFile_run (p : Simple.PhotoToUpload) (st : State Server) :
  let r := Simple.uploadFile roundTrip newRequestError openError
             (Simple.FilePath p) nextcloudURL (Simple.SubFolder p) st in
  exists tr,
    trace r.2 = trace st ++ tr
    /\ requestsOf tr = option_list (requestOf' p)
    /\ (r.1 = None <-> exists c, statusesOf tr = [c] /\ (c = 200 \/ c = 201))
    /\ (length (statusesOf tr) <= 1)%nat
    /\ retriesOf tr = [] /\ sleepsOf tr = []
    /\ successfullCounter r.2 = successfullCounter st
    /\ failedCounter r.2 = failedCounter st
    /\ finishCounter r.2 = finishCounter st.
Proof.
  cbv zeta. unfold Simple.uploadFile, Simple.requestOf.
  destruct (openError (Simple.FilePath p)) as [e|].
  { exists []. simpl. rewrite app_nil_r. split_and?; try done; try lia.
    split; [done|]. by intros (c & ? & _). }
  destruct (newRequestError "PUT" _) as [e|].
  { exists []. simpl. rewrite app_nil_r. split_and?; try done; try lia.
    split; [done|]. by intros (c & ? & _). }
  match goal with
  | |- context [Do roundTrip ?req st] =>
      pose proof (Do_trace roundTrip req st) as (Ht & Hs & Hf & Hp);
      destruct (Do roundTrip req st) as [[err|c status] st1]
  end; simpl in Ht, Hs, Hf, Hp.
  - eexists. simpl. split; [exact Ht|]. split_and?; try done; try (simpl; lia).
    split; [done|]. by intros (c & ? & _).
  - destruct (Z.eqb_spec c 201) as [->|H1]; simpl.
    { eexists. split; [by rewrite Ht, <- app_assoc|]. simpl.
      split_and?; try done; try lia.
      split; [|done]. intros _. exists 201. auto. }
    destruct (Z.eqb_spec c 200) as [->|H2]; simpl.
    { eexists. split; [by rewrite Ht, <- app_assoc|]. simpl.
      split_and?; try done; try lia.
      split; [|done]. intros _. exists 200. auto. }
    eexists. split; [exact Ht|]. simpl. split_and?; try done; try lia.
    split; [done|]. intros (c' & [= <-] & [?|?]); done.
Qed.

Lemma simple_uploadJob_run (p : Simple.PhotoToUpload) (st : State Server) :
  exists tr,
    trace (Simple.uploadJob roundTrip newRequestError openError nextcloudURL p st)
    = trace st ++ tr
    /\ requestsOf tr = option_list (requestOf' p).
Proof.
  unfold Simple.uploadJob.
  destruct (simple_uploadFile_run p st) as (tr & Ht & Hr & _).
  destruct (Simple.uploadFile _ _ _ _ _ _ _) as [[e|] st1]; simpl in Ht.
  - exists (tr ++ [EvLog ("Failed to upload photo " ++ Simple.FilePath p ++ ": " ++ e)%string]).
    simpl. rewrite Ht, <- app_assoc. split; [done|].
    unfold requestsOf in *. rewrite omap_app, Hr. simpl. by rewrite app_nil_r.
  - by exists tr.
Qed.

End FirstVariantUpload.

(** [uploadFile] of the first variant makes one attempt: it sends the PUT
    of the photo once, or not at all when the file cannot be opened or the
    request cannot be built; it returns no error iff it received the status
    200 or 201, so that 204, which the second variant takes for a success,
    and 404, which the second variant retries, are failures here; it never
    retries and never sleeps. *)
Theorem first_variant_uploadFile_single_attempt
    (Server : Type) (roundTrip : Request -> Server -> DoResult * Server)
    (newRequestError : string -> string -> option error)
    (openError : string -> option error)
    (filePath nextcloudURL subFolder : string) (st : State Server) :
  let r := Simple.uploadFile roundTrip newRequestError openError
             filePath nextcloudURL subFolder st in
  exists tr,
    trace r.2 = trace st ++ tr
    /\ (length (requestsOf tr) <= 1)%nat
    /\ (forall req, req ∈ requestsOf tr ->
          req = put (nextcloudURL ++ "/" ++ subFolder ++ "/" ++ Filepath.Base filePath)
          /\ openError filePath = None)
    /\ (r.1 = None <-> exists c, statusesOf tr = [c] /\ (c = 200 \/ c = 201))
    /\ (forall c, c ∈ statusesOf tr -> c = 204 \/ c = 404 \/ c = 504 -> r.1 <> None)
    /\ retriesOf tr = [] /\ sleepsOf tr = [].
Proof.
  cbv zeta.
  destruct (simple_uploadFile_run roundTrip newRequestError openError nextcloudURL
              {| Simple.FilePath := filePath; Simple.SubFolder := subFolder |} st)
    as (tr & Ht & Hr & Hok & Hlen & Hretry & Hsleep & _).
  simpl in Ht, Hr, Hok. exists tr. split; [done|].
  unfold Simple.requestOf in Hr. simpl in Hr.
  split_and?; try done.
  - rewrite Hr. destruct (openError filePath); [simpl; lia|].
    destruct (newRequestError "PUT" _); simpl; lia.
  - intros req. rewrite Hr. destruct (openError filePath); [by intros ?%elem_of_nil|].
    destruct (newRequestError "PUT" _); [by intros ?%elem_of_nil|].
    simpl. by intros ->%list_elem_of_singleton.
  - intros c Hc Hcode Hnone. apply Hok in Hnone as (c' & Hc' & Hcode').
    rewrite Hc' in Hc. apply list_elem_of_singleton in Hc. lia.
Qed.

(** ** The upload goroutines of the first variant *)

Section FirstVariantGoroutines.

Context {Server : Type}.
Variable roundTrip : Request -> Server -> DoResult * Server.
Variable newRequestError : string -> string -> option error.
Variable openError : string -> option error.
Variable nextcloudURL : string.
Variable photosList : list Simple.PhotoToUpload.
Variable tr0 : list Event.

Local Abbreviation Inv1 :=
  (Simple.Inv newRequestError openError nextcloudURL photosList tr0).
Local Abbreviation step1' :=
  (Simple.step roundTrip newRequestError openError nextcloudURL).

Lemma simple_inv_init (st : State Server) :
  trace st = tr0 -> Inv1 (Simple.initMachine photosList st).
Proof.
  intros <-. unfold Simple.Inv; simpl. split_and?; try done.
  exists []. by rewrite app_nil_r.
Qed.

Lemma simple_inv_stepMain (c c' : Simple.Machine Server) :
  Inv1 c -> Simple.stepMain c = Some c' -> Inv1 c'.
Proof.
  intros (I1 & I2 & I3 & I4 & (tr & I5 & I6) & I7) Hstep.
  unfold Simple.stepMain in Hstep.
  destruct (Simple.mainPC c) as [[|p rest]| |] eqn:Hpc; try discriminate Hstep.
  1,2: injection Hstep as <-.
  - unfold Simple.Inv; simpl in *. split_and?; try done.
    by exists tr.
  - unfold Simple.Inv; simpl in *. rewrite fmap_app, !List.filter_app, !length_app. simpl.
    rewrite !app_nil_r. split_and?; try done.
    + by rewrite <- app_assoc.
    + lia.
    + lia.
    + by exists tr.
  - destruct (Z.eqb_spec (Simple.wg c) 0) as [Hz|]; [|discriminate Hstep].
    injection Hstep as <-.
    unfold Simple.Inv; simpl in *. split_and?; try done.
    + by exists tr.
    + intros _ u Hu. rewrite I4 in Hz.
      assert (Simple.running u = false) as Hr
        by (apply (filter_length_0 _ (Simple.uploaders c)); [lia|done]).
      unfold Simple.running in Hr. by destruct (Simple.stage u).
Qed.

Lemma simple_inv_stepUploader (i : nat) (c c' : Simple.Machine Server) :
  Inv1 c -> Simple.stepUploader roundTrip newRequestError openError nextcloudURL i c = Some c' ->
  Inv1 c'.
Proof.
  intros (I1 & I2 & I3 & I4 & (tr & I5 & I6) & I7) Hstep.
  unfold Simple.stepUploader in Hstep.
  destruct (Simple.uploaders c !! i) as [[p s]|] eqn:Hi; [|done].
  assert (s <> Simple.Exit -> Simple.mainPC c <> Simple.MReturn) as Hlive.
  { intros Hs Hpc. apply Hs.
    apply (I7 Hpc {| Simple.photo := p; Simple.stage := s |}).
    by apply list_elem_of_lookup_2 in Hi. }
  simpl in Hstep.
  destruct s; [destruct (Z.ltb_spec (Simple.semaphore c) Simple.slots)|..];
    try discriminate Hstep; injection Hstep as <-.
  all: match goal with
       | Hi : ?l !! ?j = Some _ |- context [<[?j := ?u']> ?l] =>
           destruct (insert_split l j _ u' Hi) as (l1 & l2 & Hl & ->)
       end;
    rewrite Hl in *; clear Hl;
    unfold Simple.Inv; simpl;
    rewrite ?fmap_app, ?List.filter_app, ?length_app in *; simpl in *;
    rewrite ?List.filter_app, ?length_app in *; simpl in *.
  - split_and?; try done; try lia; [by exists tr|].
    intros Hpc. by destruct Hlive.
  - destruct (simple_uploadJob_run roundTrip newRequestError openError nextcloudURL p
                (Simple.shared c))
      as (tr1 & Ht1 & Hr1).
    split_and?; try done; try lia.
    + exists (tr ++ tr1). rewrite Ht1, I5, <- app_assoc. split; [done|].
      unfold requestsOf in *. rewrite omap_app, Hr1, I6, !omap_app. simpl.
      destruct (Simple.requestOf _ _ _ p); simpl; [|by rewrite app_nil_r].
      symmetry. etrans; [symmetry; apply Permutation_middle|].
      apply Permutation_cons_append.
    + intros Hpc. by destruct Hlive.
  - split_and?; try done; try lia; [exists tr; split; [done|rewrite omap_app in *; exact I6]|].
    intros Hpc. by destruct Hlive.
  - split_and?; try done; try lia; [exists tr; split; [done|rewrite omap_app in *; exact I6]|].
    intros Hpc. by destruct Hlive.
Qed.

Lemma simple_inv_exec (schedule : list Simple.Action) :
  forall c : Simple.Machine Server,
    Inv1 c ->
    Inv1 (Simple.exec roundTrip newRequestError openError nextcloudURL schedule c).
Proof.
  induction schedule as [|a schedule IH]; intros c Hc; [done|].
  simpl. apply IH. destruct (step1' a c) as [c'|] eqn:Hs; [|done]. simpl.
  destruct a as [|i]; simpl in Hs.
  - by apply (simple_inv_stepMain c).
  - by apply (simple_inv_stepUploader i c).
Qed.

End FirstVariantGoroutines.

(** [main] of the first variant. It ends in a fatal error, before any
    request, iff one of the four environment variables is unset or empty or
    the walk reports an error. Otherwise it starts one goroutine per photo
    of the list, and at every moment of every schedule: at most ten
    goroutines hold a slot of the semaphore, which counts them; every PUT
    sent so far is the request of a photo whose goroutine is back from
    [uploadFile], one per photo, so that there are never more requests than
    photos; and when [main] has returned from [wg.Wait()], every photo
    whose file could be opened has had its one request. *)
Theorem first_variant_main
    (Server : Type) (localZone : GoTime.Location) (walkEntries : string -> list WalkEntry)
    (readSidecar : string -> SidecarRead)
    (roundTrip : Request -> Server -> DoResult * Server)
    (newRequestError : string -> string -> option error)
    (openError : string -> option error)
    (environ : gmap string string) (schedule : list Simple.Action) (st : State Server) :
  let nextcloudURL := Getenv environ "NEXTCLOUD_URL" in
  let photosDir := Getenv environ "PHOTOS_DIR" in
  let complete :=
    negb (String.eqb nextcloudURL "") && negb (String.eqb (Getenv environ "NEXTCLOUD_USER") "")
    && negb (String.eqb (Getenv environ "NEXTCLOUD_PASSWORD") "")
    && negb (String.eqb photosDir "") in
  let request := Simple.requestOf newRequestError openError nextcloudURL in
  match Simple.main localZone walkEntries readSidecar roundTrip newRequestError openError
          environ schedule st with
  | Simple.RunFatal _ =>
      complete = false \/ Simple.walkError (walkEntries photosDir) <> None
  | Simple.RunUploads photosList c =>
      complete = true
      /\ Simple.walkError (walkEntries photosDir) = None
      /\ photosList
         = omap (Simple.photoOf localZone readSidecar) (visited (walkEntries photosDir))
      /\ (length (List.filter Simple.holdsSlot (Simple.uploaders c)) <= 10)%nat
      /\ Simple.semaphore c
         = Z.of_nat (length (List.filter Simple.holdsSlot (Simple.uploaders c)))
      /\ exists tr,
           trace (Simple.shared c) = trace st ++ tr
           /\ requestsOf tr
              ≡ₚ omap (fun u => request (Simple.photo u))
                   (List.filter Simple.uploaded (Simple.uploaders c))
           /\ (length (requestsOf tr) <= length photosList)%nat
           /\ (Simple.mainPC c = Simple.MReturn -> requestsOf tr ≡ₚ omap request photosList)
  end.
Proof.
  cbv zeta. unfold Simple.main.
  destruct (String.eqb (Getenv environ "NEXTCLOUD_URL") ""); [by left|].
  destruct (String.eqb (Getenv environ "NEXTCLOUD_USER") ""); [by left|].
  destruct (String.eqb (Getenv environ "NEXTCLOUD_PASSWORD") ""); [by left|].
  destruct (String.eqb (Getenv environ "PHOTOS_DIR") ""); [by left|].
  simpl.
  destruct (first_variant_processDirectory_eq localZone walkEntries readSidecar
              (Getenv environ "PHOTOS_DIR") []) as [Hl He].
  destruct (Simple.processDirectory _ _ _ _ _) as [photosList [err|]]; simpl in Hl, He.
  { right. by rewrite <- He. }
  match goal with
  | |- context [Simple.initMachine photosList ?st1] =>
      pose proof (simple_inv_exec roundTrip newRequestError openError
                    (Getenv environ "NEXTCLOUD_URL") photosList (trace st1) schedule
                    (Simple.initMachine photosList st1)
                    (simple_inv_init newRequestError openError _ photosList (trace st1) st1
                       eq_refl)) as Hinv
  end.
  remember (Simple.exec _ _ _ _ _ _) as c eqn:Hc. clear Hc.
  destruct Hinv as (I1 & I2 & I3 & I4 & (tr & I5 & I6) & I7).
  pose proof (f_equal length I1) as HL. rewrite length_app, length_fmap in HL.
  split_and?; try done.
  - unfold Simple.slots in I3. lia.
  - simpl in I5. eexists. rewrite I5, <- app_assoc. split; [done|].
    unfold requestsOf in *. simpl. split_and?.
    + exact I6.
    + rewrite I6. etrans; [apply length_omap_le|]. etrans; [apply filter_length_le|]. lia.
    + intros Hret. rewrite I6, I1, Hret. simpl. rewrite app_nil_r.
      rewrite filter_all.
      * by rewrite omap_fmap_compose.
      * intros u Hu. unfold Simple.uploaded. by rewrite (I7 Hret u Hu).
Qed.

(** Twelve photos: when the twelve goroutines have been started and each
    has had one turn, ten of them hold a slot and two wait for one; when all
    have run to their end, [main] has returned and twelve requests have been
    sent. *)
Example twelve_photos_ten_slots :
  let photo := {| Simple.FilePath := "/photos/a.jpg"; Simple.SubFolder := "2021/05" |} in
  let turn := Simple.ActUploader <$> seq 0 12 in
  let started := replicate 13 Simple.ActMain ++ turn in
  let run schedule :=
    Simple.exec (always 201 "201 Created") noError2 noError1 "https://cloud.example/dav"
      schedule (Simple.initMachine (replicate 12 photo) (initState tt)) in
  Simple.stage <$> Simple.uploaders (run started)
  = replicate 10 Simple.Upload ++ replicate 2 Simple.Acquire
  /\ Simple.semaphore (run started) = 10
  /\ Simple.mainPC (run (started ++ turn ++ turn ++ turn ++ turn ++ turn ++ [Simple.ActMain]))
     = Simple.MReturn
  /\ requestsOf
       (trace (Simple.shared
                 (run (started ++ turn ++ turn ++ turn ++ turn ++ turn ++ [Simple.ActMain]))))
     = replicate 12 (put "https://cloud.example/dav/2021/05/a.jpg").
Proof. vm_compute. by split_and?. Qed.

(** * Further properties of the goroutines of the upload phase *)

(** What the accounting says outright at a given point of the main
    goroutine, and the closing of the cases of a step. *)
Ltac acc_facts :=
  repeat match goal with
  | H : false = false -> _ |- _ => specialize (H eq_refl)
  | H : true = true -> _ |- _ => specialize (H eq_refl)
  | H : ?c <> CIdle -> false = true |- _ =>
      assert (c = CIdle)
        by (destruct c; [done|exfalso; assert (false = true) by (by apply H); done..]);
      clear H
  | H : sender ?x = _, A : context [pendingJobs _ (sender ?x)] |- _ =>
      rewrite H in A; simpl in A; rewrite ?H; simpl
  | H : progressChan _ = _ |- _ => rewrite H in *; clear H
  | H : Forall _ (_ :: _) |- _ => apply Forall_cons in H as [? H]
  end.

Ltac acc_close :=
  split_and?; try done; try lia;
  try (intros;
       repeat first
         [ match goal with
           | H : ?P, I : ?P -> _ |- _ => specialize (I H)
           end
         | progress destruct_and? ];
       try done; try lia; try congruence;
       try match goal with
           | I : (_ < _)%nat -> _ |- _ => apply I; lia
           end).

Ltac media_step :=
  unfold Accounting, setMediaWorker; simpl;
  match goal with
  | Hw : ?l !! ?i = Some _ |- context [<[?i := ?w']> ?l] =>
      let l1 := fresh "l1" in
      let l2 := fresh "l2" in
      let Hl := fresh "Hl" in
      destruct (insert_split l i _ w' Hw) as (l1 & l2 & Hl & ->);
      rewrite Hl in *; clear Hl
  end;
  rewrite ?List.filter_app, ?length_app in *; simpl in *.

Section AccountingFacts.

Context {Server : Type}.
Variable roundTrip : Request -> Server -> DoResult * Server.
Variable newRequestError : string -> string -> option error.
Variable openError : string -> option error.
Variable cwd : string.
Variable parallelUploads : Z.
Variable nextcloudURL : string.
Variable directories : list string.
Variable mediaList : list MediaFile.
Variable finish0 : Z.

Local Abbreviation Acc := (Accounting parallelUploads mediaList finish0).

Lemma createDirectory_finish (url : string) (st : State Server) :
  finishCounter (createDirectoryIfNotExists roundTrip newRequestError url st).2
  = finishCounter st.
Proof.
  unfold createDirectoryIfNotExists.
  destruct (newRequestError "MKCOL" url); [done|].
  pose proof (Do_trace roundTrip {| Method := "MKCOL"; URL := url |} st) as (_ & _ & _ & Hp).
  destruct (Do roundTrip _ st) as [[err|c status] st1]; simpl in *; [done|].
  repeat case_match; simpl; done.
Qed.

Lemma uploadIteration_finish (attempt : Z) (fileName url absFileLocation : string)
    (st : State Server) :
  finishCounter match uploadIteration roundTrip newRequestError openError attempt fileName
                        url absFileLocation st with
                | Continue st1 => st1
                | Return _ st1 => st1
                end = finishCounter st.
Proof.
  pose proof (uploadIteration_end roundTrip newRequestError openError attempt fileName url
                absFileLocation st) as Hend.
  destruct (uploadIteration _ _ _ _ _ _ _ _) as [st1|err st1]; by inversion Hend.
Qed.

Lemma acc_init (st : State Server) : finishCounter st = finish0 -> Acc (initMachine st).
Proof.
  intros Hf. unfold Accounting; simpl. rewrite Hf. split_and?; try done; try lia.
Qed.

Lemma acc_stepMain (c c' : Machine Server) :
  Acc c ->
  stepMain parallelUploads directories mediaList c = Some c' -> Acc c'.
Proof.
  intros (A1 & A2 & A3 & A4 & A5 & A6 & A7 & A8 & A9 & A10 & A11) Hstep.
  unfold stepMain in Hstep.
  destruct c as [st pc p x]. simpl in *.
  destruct pc as [|[|todo]|[|dir rest]| | |[|todo]| | | |]; simpl in *;
    repeat case_match; try discriminate Hstep; injection Hstep as <-;
    unfold Accounting; simpl in *;
    rewrite ?List.filter_app, ?length_app in *; simpl in *.
  all: acc_facts; acc_close.
Qed.

Lemma acc_stepDir (i : nat) (c c' : Machine Server) :
  Acc c ->
  stepDir roundTrip newRequestError nextcloudURL i c = Some c' -> Acc c'.
Proof.
  intros HA Hstep. unfold stepDir in Hstep.
  destruct c as [st pc p x]. simpl in *.
  assert (forall (st' : State Server) (p' : Provision), finishCounter st' = finishCounter st ->
            Acc (mkMachine st' pc p' x)) as Hsame.
  { intros st' p' Hf. unfold Accounting in HA |- *; simpl in *. by rewrite Hf. }
  destruct (dirWorkers p !! i) as [[|dir parts cur|dir err|]|]; [..|done|done].
  - destruct (dirJobs p); [destruct (dirJobsClosed p); [|done]|];
      injection Hstep as <-; by apply Hsame.
  - destruct parts as [|part rest]; [|destruct (String.eqb part "")];
      try (injection Hstep as <-; by apply Hsame).
    pose proof (createDirectory_finish (cur ++ "/" ++ part) st) as Hf.
    destruct (createDirectoryIfNotExists _ _ _ st) as [[e|] st1];
      injection Hstep as <-; by apply Hsame.
  - injection Hstep as <-. apply Hsame. by destruct err.
Qed.

Lemma acc_stepMedia (i : nat) (c c' : Machine Server) :
  Acc c ->
  stepMedia roundTrip newRequestError openError cwd parallelUploads nextcloudURL i c
  = Some c' ->
  Acc c'.
Proof.
  intros (A1 & A2 & A3 & A4 & A5 & A6 & A7 & A8 & A9 & A10 & A11) Hstep.
  unfold stepMedia in Hstep.
  destruct c as [st pc p x]. simpl in *.
  destruct (mediaWorkers x !! i) as [w|] eqn:Hw; [|done].
  assert (alive w = true -> pc <> MReturn) as Hlive.
  { intros Hal ->. destruct (A10 eq_refl) as [Hclosed _].
    destruct (A7 Hclosed) as [Hz _]. rewrite A5 in Hz.
    assert (alive w = false)
      by (apply (filter_length_0 _ (mediaWorkers x)); [lia|by eapply list_elem_of_lookup_2]).
    congruence. }
  assert (alive w = true -> progressClosed x = false) as Hopen.
  { intros Hal. destruct (progressClosed x) eqn:Hclosed; [|done].
    destruct (A7 eq_refl) as [Hz _]. rewrite A5 in Hz.
    assert (alive w = false)
      by (apply (filter_length_0 _ (mediaWorkers x)); [lia|by eapply list_elem_of_lookup_2]).
    congruence. }
  destruct w as [|media [|remaining] attempt|media err| |]; simpl in Hstep.
  - (* waiting for a job *)
    destruct (jobs x) as [|media rest] eqn:Hjobs; [destruct (jobsClosed x) eqn:Hcl; [|done]|];
      injection Hstep as <-; media_step; acc_facts; acc_close.
  - (* the attempts are used up *)
    injection Hstep as <-. media_step; acc_facts; acc_close.
  - (* one attempt *)
    match type of Hstep with
    | context [uploadIteration ?r ?n ?o ?a ?f ?u ?l st] =>
        pose proof (uploadIteration_finish a f u l st) as Hf;
        destruct (uploadIteration r n o a f u l st) as [st1|e st1]
    end; injection Hstep as <-; media_step; rewrite ?Hf; acc_facts; acc_close.
  - (* the failure is logged *)
    injection Hstep as <-. media_step.
    assert (finishCounter match err with
                          | Some e =>
                              emit (EvLog ("Failed to upload file " ++ Path media ++ ": ["
                                           ++ e ++ "]")%string) st
                          | None => st
                          end = finishCounter st) as -> by by destruct err.
    acc_facts; acc_close.
  - (* the progress unit is sent *)
    destruct (Z.ltb_spec (Z.of_nat (length (progressChan x))) parallelUploads); [|done].
    injection Hstep as <-. media_step; acc_facts; acc_close.
    apply Forall_app. split; [done|by repeat constructor].
  - done.
Qed.

Lemma acc_stepSender (c c' : Machine Server) :
  Acc c -> stepSender c = Some c' -> Acc c'.
Proof.
  intros (A1 & A2 & A3 & A4 & A5 & A6 & A7 & A8 & A9 & A10 & A11) Hstep.
  unfold stepSender in Hstep.
  destruct c as [st pc p x]. simpl in *.
  destruct (sender x) as [|[|media rest]|] eqn:Hs; try discriminate Hstep;
    injection Hstep as <-; unfold Accounting; simpl in *;
    rewrite ?length_app in *; simpl in *; acc_facts; acc_close.
Qed.

Lemma acc_stepCloser (c c' : Machine Server) :
  Acc c -> stepCloser c = Some c' -> Acc c'.
Proof.
  intros (A1 & A2 & A3 & A4 & A5 & A6 & A7 & A8 & A9 & A10 & A11) Hstep.
  unfold stepCloser in Hstep.
  destruct c as [st pc p x]. simpl in *.
  destruct (closer x) eqn:Hc; try discriminate Hstep.
  destruct (Z.eqb_spec (wgMedia x) 0) as [Hz|]; [|done].
  injection Hstep as <-; unfold Accounting; simpl in *; acc_facts; acc_close.
  apply A8. congruence.
Qed.

Lemma acc_exec (schedule : list Action) :
  forall c : Machine Server,
    Acc c ->
    Acc (exec roundTrip newRequestError openError cwd parallelUploads nextcloudURL
           directories mediaList schedule c).
Proof.
  induction schedule as [|a schedule IH]; intros c Hc; [done|].
  simpl. apply IH.
  destruct (step _ _ _ _ _ _ _ _ a c) as [c'|] eqn:Hs; [|done]. simpl.
  destruct a as [|i|i| |]; simpl in Hs.
  - by apply (acc_stepMain c).
  - by apply (acc_stepDir i c).
  - by apply (acc_stepMedia i c).
  - by apply (acc_stepSender c).
  - by apply (acc_stepCloser c).
Qed.

(** With one worker or more, the accounting at the return of the main
    goroutine: nothing is left anywhere but in the count. *)
Lemma acc_return (c : Machine Server) :
  0 < parallelUploads -> Acc c -> mainPC c = MReturn ->
  finishCounter (shared c) = finish0 + Z.of_nat (length mediaList)
  /\ jobs (xfer c) = [] /\ jobsClosed (xfer c) = true
  /\ progressChan (xfer c) = [] /\ progressClosed (xfer c) = true
  /\ sender (xfer c) = SExit /\ closer (xfer c) = CExit
  /\ length (mediaWorkers (xfer c)) = Z.to_nat parallelUploads
  /\ Forall (fun w => w = WExit) (mediaWorkers (xfer c)).
Proof.
  intros Hn (A1 & A2 & A3 & A4 & A5 & A6 & A7 & A8 & A9 & A10 & A11) Hret.
  rewrite Hret in *. simpl in *.
  destruct (A10 eq_refl) as [Hclosed Hempty].
  destruct (A7 Hclosed) as [Hz Hcl]. rewrite A5 in Hz.
  assert (forall w, w ∈ mediaWorkers (xfer c) -> w = WExit) as Hall.
  { intros w Hw. assert (alive w = false)
      by (apply (filter_length_0 _ (mediaWorkers (xfer c))); [lia|done]).
    by destruct w. }
  destruct A6 as [Hjc Hj]; [lia|].
  specialize (A4 Hjc).
  assert (List.filter busy (mediaWorkers (xfer c)) = []) as Hbusy.
  { clear -Hall. induction (mediaWorkers (xfer c)) as [|w l IH]; [done|].
    simpl. rewrite (Hall w) by by left. simpl. apply IH. intros w' Hw'. apply Hall. by right. }
  rewrite A4, Hj, Hbusy, Hempty in A1. simpl in A1.
  split_and?; try done; try lia.
  by apply Forall_forall.
Qed.

End AccountingFacts.




(** The accounting of the upload phase, for every number of workers and
    every schedule: the progress count never falls and never exceeds the
    number of jobs; and with one worker or more, when the main goroutine
    has left the loop over [progressChan], the progress count has gone up
    by exactly the number of jobs, both channels are empty and closed, the
    sender and the closer have ended, and every worker that was started, as
    many as [parallelUploads], has ended. *)
Theorem upload_phase_accounts_for_every_job
    (Server : Type) (roundTrip : Request -> Server -> DoResult * Server)
    (newRequestError : string -> string -> option error)
    (openError : string -> option error) (cwd : string)
    (parallelUploads : Z) (nextcloudURL : string)
    (directories : list string) (mediaList : list MediaFile)
    (st : State Server) (schedule : list Action) :
  let c := exec roundTrip newRequestError openError cwd parallelUploads nextcloudURL
             directories mediaList schedule (initMachine st) in
  finishCounter st <= finishCounter (shared c)
                   <= finishCounter st + Z.of_nat (length mediaList)
  /\ (0 < parallelUploads -> mainPC c = MReturn ->
      finishCounter (shared c) = finishCounter st + Z.of_nat (length mediaList)
      /\ jobs (xfer c) = [] /\ jobsClosed (xfer c) = true
      /\ progressChan (xfer c) = [] /\ progressClosed (xfer c) = true
      /\ sender (xfer c) = SExit /\ closer (xfer c) = CExit
      /\ length (mediaWorkers (xfer c)) = Z.to_nat parallelUploads
      /\ Forall (fun w => w = WExit) (mediaWorkers (xfer c))).
Proof.
  cbv zeta.
  pose proof (acc_exec roundTrip newRequestError openError cwd parallelUploads nextcloudURL
                directories mediaList (finishCounter st) schedule (initMachine st)
                (acc_init parallelUploads mediaList (finishCounter st) st eq_refl)) as HA.
  split.
  - destruct HA as (A1 & A2 & _). lia.
  - intros Hn Hret. by apply (acc_return parallelUploads mediaList (finishCounter st)).
Qed.

(** Two workers, two directories, two files, round-robin. *)
Lemma upload_phase_accounts_witness :
  finishCounter
    (shared (exec (always 201 "201 Created") noError2 noError1 "/" 2
               "https://cloud.example/dav" ["2021/05"; "2021/06"]
               [{| Path := "/photos/a.jpg"; Ts := "2021/05" |};
                {| Path := "/photos/b.jpg"; Ts := "2021/06" |}]
               (rounds 24 2) (initMachine (initState tt))))
  = 2.
Proof.
  refine (proj1 (proj2 (upload_phase_accounts_for_every_job unit
                          (always 201 "201 Created") noError2 noError1 "/" 2
                          "https://cloud.example/dav" ["2021/05"; "2021/06"]
                          [{| Path := "/photos/a.jpg"; Ts := "2021/05" |};
                           {| Path := "/photos/b.jpg"; Ts := "2021/06" |}]
                          (initState tt) (rounds 24 2)) _ _)).
  - lia.
  - vm_compute. reflexivity.
Defined.

Section StuckFacts.

Context {Server : Type}.
Variable roundTrip : Request -> Server -> DoResult * Server.
Variable newRequestError : string -> string -> option error.
Variable openError : string -> option error.
Variable cwd : string.
Variable parallelUploads : Z.
Variable nextcloudURL : string.
Variable directories : list string.
Variable mediaList : list MediaFile.
Variable st0 : State Server.
Hypothesis noWorkers : parallelUploads <= 0.
Hypothesis someDirectory : directories <> [].

Lemma stuck_step (a : Action) (c c' : Machine Server) :
  Stuck directories st0 c ->
  step roundTrip newRequestError openError cwd parallelUploads nextcloudURL directories
    mediaList a c = Some c' ->
  Stuck directories st0 c'.
Proof.
  intros (S1 & S2 & S3 & S4 & S5 & S6) Hstep.
  destruct c as [st pc p x]. simpl in *.
  destruct a as [|i|i| |]; simpl in Hstep.
  - unfold stepMain in Hstep. simpl in Hstep.
    destruct pc as [|[|todo]|[|dir rest]| | | | | | |]; try done; simpl in *;
      try (by destruct S6);
      try (destruct (Z.eqb_spec (wgDir p) 0) as [Hz|]; [|done];
           rewrite S6 in Hz; destruct directories; [done|simpl in Hz; lia]);
      injection Hstep as <-; unfold Stuck; simpl;
      destruct_and?; split_and?; try done; try lia.
  - unfold stepDir in Hstep. simpl in Hstep. by rewrite S2 in Hstep.
  - unfold stepMedia in Hstep. simpl in Hstep. by rewrite S3 in Hstep.
  - unfold stepSender in Hstep. simpl in Hstep. by rewrite S4 in Hstep.
  - unfold stepCloser in Hstep. simpl in Hstep. by rewrite S5 in Hstep.
Qed.

Lemma stuck_exec (schedule : list Action) :
  forall c : Machine Server,
    Stuck directories st0 c ->
    Stuck directories st0
      (exec roundTrip newRequestError openError cwd parallelUploads nextcloudURL
         directories mediaList schedule c).
Proof.
  induction schedule as [|a schedule IH]; intros c Hc; [done|].
  simpl. apply IH.
  destruct (step _ _ _ _ _ _ _ _ a c) as [c'|] eqn:Hs; [|done]. simpl.
  by apply (stuck_step a c).
Qed.

End StuckFacts.

(** Without workers nothing moves: when [PARALLEL_UPLOADS] is zero or
    negative and there is a directory to create, no goroutine is started to
    receive it, the main goroutine stays in [wgDir.Wait()] under every
    schedule, and no request is ever sent. *)
Theorem no_worker_means_no_progress
    (Server : Type) (roundTrip : Request -> Server -> DoResult * Server)
    (newRequestError : string -> string -> option error)
    (openError : string -> option error) (cwd : string)
    (parallelUploads : Z) (nextcloudURL : string)
    (directories : list string) (mediaList : list MediaFile)
    (st : State Server) (schedule : list Action) :
  parallelUploads <= 0 -> directories <> [] ->
  let c := exec roundTrip newRequestError openError cwd parallelUploads nextcloudURL
             directories mediaList schedule (initMachine st) in
  shared c = st
  /\ provisioning (mainPC c) = true
  /\ dirWorkers (prov c) = [] /\ mediaWorkers (xfer c) = []
  /\ forall more : list Action,
       mainPC (exec roundTrip newRequestError openError cwd parallelUploads nextcloudURL
                 directories mediaList more c) <> MReturn.
Proof.
  intros Hn Hd. cbv zeta.
  assert (forall c : Machine Server,
            Stuck directories st c -> provisioning (mainPC c) = true /\ mainPC c <> MReturn)
    as Hpc.
  { intros c (_ & _ & _ & _ & _ & S6). by destruct (mainPC c). }
  assert (Stuck directories st (initMachine st)) as H0 by (by unfold Stuck; simpl).
  pose proof (stuck_exec roundTrip newRequestError openError cwd parallelUploads nextcloudURL
                directories mediaList st Hn Hd schedule _ H0) as HS.
  destruct (Hpc _ HS) as [Hp _].
  destruct HS as (S1 & S2 & S3 & S4 & S5 & S6) eqn:E. split_and?; try done.
  intros more.
  apply Hpc. apply (stuck_exec roundTrip newRequestError openError cwd parallelUploads
                      nextcloudURL directories mediaList st Hn Hd more).
  by split_and?.
Qed.

(** [PARALLEL_UPLOADS=0] and one bucket: after ten rounds of the scheduler
    nothing has been sent and the main goroutine is still waiting. *)
Lemma no_worker_witness :
  let c := exec (always 201 "201 Created") noError2 noError1 "/" 0
             "https://cloud.example/dav" ["2021/05"]
             [{| Path := "/photos/a.jpg"; Ts := "2021/05" |}]
             (rounds 10 1) (initMachine (initState tt)) in
  shared c = initState tt /\ provisioning (mainPC c) = true.
Proof.
  destruct (no_worker_means_no_progress unit (always 201 "201 Created") noError2 noError1
              "/" 0 "https://cloud.example/dav" ["2021/05"]
              [{| Path := "/photos/a.jpg"; Ts := "2021/05" |}]
              (initState tt) (rounds 10 1)) as (H1 & H2 & _).
  - lia.
  - discriminate.
  - split; [exact H1|exact H2].
Defined.

(** * The requests of a whole run *)

Section RunFacts.

Context {Server : Type}.
Variable roundTrip : Request -> Server -> DoResult * Server.
Variable newRequestError : string -> string -> option error.
Variable openError : string -> option error.
Variable cwd : string.
Variable nextcloudURL : string.

Lemma createParts_finish (parts : list string) :
  forall (currentPath : string) (st : State Server),
    finishCounter (createParts roundTrip newRequestError parts currentPath st).2
    = finishCounter st.
Proof.
  induction parts as [|part rest IH]; intros cur st; simpl; [done|].
  destruct (String.eqb part ""); [apply IH|].
  pose proof (createDirectory_finish roundTrip newRequestError (cur ++ "/" ++ part) st) as Hf.
  destruct (createDirectoryIfNotExists _ _ _ st) as [[e|] st1]; simpl in *; [done|].
  by rewrite IH.
Qed.

Lemma directoryJob_run (directory : string) (st : State Server) :
  exists tr,
    trace (directoryJob roundTrip newRequestError nextcloudURL directory st) = trace st ++ tr
    /\ directoryTrace nextcloudURL directory tr
    /\ finishCounter (directoryJob roundTrip newRequestError nextcloudURL directory st)
       = finishCounter st.
Proof.
  unfold directoryJob, createNestedDirectories, directoryTrace.
  destruct (createParts_run roundTrip newRequestError (GoStrings.Split directory "/")
              nextcloudURL st) as (tr & issued & Ht & Hreq & Hpre & _).
  pose proof (createParts_finish (GoStrings.Split directory "/") nextcloudURL st) as Hf.
  destruct (createParts _ _ _ _ st) as [[e|] st1]; simpl in *.
  - eexists (tr ++ [_]). rewrite Ht, <- app_assoc. split; [done|]. split; [|done].
    exists issued. split; [|done].
    unfold requestsOf in *. rewrite omap_app. simpl. by rewrite app_nil_r.
  - exists tr. split_and?; try done. by exists issued.
Qed.

Lemma directoryWorker_run (directories : list string) :
  forall st : State Server,
    exists perDirectory,
      trace (directoryWorker roundTrip newRequestError nextcloudURL directories st)
      = trace st ++ concat perDirectory
      /\ Forall2 (directoryTrace nextcloudURL) directories perDirectory
      /\ finishCounter (directoryWorker roundTrip newRequestError nextcloudURL directories st)
         = finishCounter st.
Proof.
  unfold directoryWorker.
  induction directories as [|d directories IH]; intros st; simpl.
  - exists []. simpl. rewrite app_nil_r. by split_and?.
  - destruct (directoryJob_run d st) as (tr1 & Ht1 & Hr1 & Hf1).
    destruct (IH (directoryJob roundTrip newRequestError nextcloudURL d st))
      as (per & Ht2 & Hr2 & Hf2).
    exists (tr1 :: per). simpl. rewrite Ht2, Ht1, <- app_assoc.
    split; [done|]. split; [by constructor|congruence].
Qed.

Lemma workerJob_run (entry : string * string) (st : State Server) :
  exists tr,
    trace (workerJob roundTrip newRequestError openError cwd nextcloudURL
             {| Path := entry.1; Ts := entry.2 |} st)
    = trace st ++ tr
    /\ entryTrace nextcloudURL entry tr.
Proof.
  unfold workerJob, uploadFile, entryTrace. cbn [Path Ts].
  match goal with
  | |- context [uploadAttempts _ _ _ ?n ?a ?f ?u ?p st] =>
      destruct (attempts_run roundTrip newRequestError openError f u p n a st)
        as (tr & Ht & Hlen & Hreq & _);
      destruct (uploadAttempts roundTrip newRequestError openError n a f u p st)
        as [[e|] st1]
  end; simpl in *.
  - eexists (tr ++ [_]). rewrite Ht, <- app_assoc. split; [done|].
    unfold requestsOf in *. rewrite omap_app. simpl. rewrite app_nil_r. by split.
  - exists tr. by split_and?.
Qed.

Lemma worker_run (entries : list (string * string)) :
  forall st : State Server,
    exists perEntry,
      trace (worker roundTrip newRequestError openError cwd nextcloudURL
               (mediaJobs entries) st)
      = trace st ++ concat perEntry
      /\ Forall2 (entryTrace nextcloudURL) entries perEntry.
Proof.
  unfold worker, mediaJobs.
  induction entries as [|entry entries IH]; intros st.
  - exists []. simpl. rewrite app_nil_r. by split.
  - rewrite fmap_cons. cbn [fold_left].
    destruct (workerJob_run entry st) as (tr1 & Ht1 & Hr1).
    destruct (IH (workerJob roundTrip newRequestError openError cwd nextcloudURL
                    {| Path := entry.1; Ts := entry.2 |} st)) as (per & Ht2 & Hr2).
    exists (tr1 :: per). simpl. rewrite Ht2, Ht1, <- app_assoc.
    split; [done|]. by constructor.
Qed.

End RunFacts.

(** [main] is [mainOrdered] when both loops take the order of
    [map_to_list]. *)
Lemma main_mainOrdered
    (Server : Type) (localZone : GoTime.Location) (walkEntries : string -> list WalkEntry)
    (readSidecar : string -> SidecarRead) (readMedia : string -> MediaRead)
    (roundTrip : Request -> Server -> DoResult * Server)
    (newRequestError : string -> string -> option error)
    (openError : string -> option error) (cwd : string)
    (cfg : Config) (st : State Server) :
  main localZone walkEntries readSidecar readMedia roundTrip newRequestError openError
    cwd cfg st
  = mainOrdered localZone walkEntries readSidecar readMedia roundTrip newRequestError
      openError cwd map_to_list map_to_list cfg st.
Proof. reflexivity. Qed.

(** What a run of [main] with one worker sends, whatever the orders in
    which its two loops over the map take the entries. A run that is not
    ended by a missing setting ends with the path index [processDirectory]
    built, and its trace is made of one piece per directory to create, in
    the order the directories were collected, followed by one piece per
    entry of the index, in the order the jobs were sent. The directories
    are the buckets of the index, each of them once. The requests of the
    piece of a directory are create-collection requests for a prefix of the
    segment URLs of that bucket under [NEXTCLOUD_URL]. The requests of the
    piece of an entry are at most three, each of them the PUT of that entry
    to [NEXTCLOUD_URL/bucket/name], the name being the last element of the
    entry's path. The progress count has gone up by the number of
    entries. *)
Theorem main_sends_only_the_index
    (Server : Type) (localZone : GoTime.Location) (walkEntries : string -> list WalkEntry)
    (readSidecar : string -> SidecarRead) (readMedia : string -> MediaRead)
    (roundTrip : Request -> Server -> DoResult * Server)
    (newRequestError : string -> string -> option error)
    (openError : string -> option error) (cwd : string)
    (directoryOrder jobOrder : gmap string string -> list (string * string))
    (cfg : Config) (st : State Server) :
  let myMap := processDirectory localZone walkEntries readSidecar readMedia (photosDir cfg) ∅ in
  directoryOrder myMap ≡ₚ map_to_list myMap ->
  jobOrder myMap ≡ₚ map_to_list myMap ->
  match mainOrdered localZone walkEntries readSidecar readMedia roundTrip newRequestError
          openError cwd directoryOrder jobOrder cfg st with
  | ExitFatal _ =>
      nextcloudURL cfg = "" \/ username cfg = "" \/ password cfg = "" \/ photosDir cfg = ""
  | Exit0 index st' =>
      let directories := getUniqueDirectoryToBecreatedOnNextCloud (directoryOrder myMap) in
      index = myMap
      /\ NoDup directories
      /\ (forall bucket,
            bucket ∈ directories <-> exists photoPath, myMap !! photoPath = Some bucket)
      /\ exists perDirectory perEntry,
           trace st' = trace st ++ concat perDirectory ++ concat perEntry
           /\ Forall2
                (fun directory tr =>
                   exists issued,
                     requestsOf tr = mkcol <$> issued
                     /\ issued `prefix_of` segmentURLs (nextcloudURL cfg) directory)
                directories perDirectory
           /\ Forall2
                (fun entry tr =>
                   (length (requestsOf tr) <= 3)%nat
                   /\ forall req, req ∈ requestsOf tr ->
                        req = put (nextcloudURL cfg ++ "/" ++ entry.2 ++ "/"
                                   ++ Filepath.Base entry.1)%string)
                (jobOrder myMap) perEntry
           /\ finishCounter st' = finishCounter st + Z.of_nat (size myMap)
  end.
Proof.
  intros myMap Hdirs Hjobs. unfold mainOrdered.
  destruct (String.eqb_spec (nextcloudURL cfg) ""); [by left|].
  destruct (String.eqb_spec (username cfg) ""); [by right; left|].
  destruct (String.eqb_spec (password cfg) ""); [by right; right; left|].
  destruct (String.eqb_spec (photosDir cfg) ""); [by right; right; right|].
  simpl. fold myMap. split; [done|].
  destruct (collectUnique_spec ((directoryOrder myMap).*2) ∅) as (Hnodup & Hmem & _).
  split; [exact Hnodup|]. split.
  { intros bucket. unfold getUniqueDirectoryToBecreatedOnNextCloud. rewrite Hmem. split.
    - intros [([p b] & -> & Hpb)%list_elem_of_fmap _]. exists p.
      rewrite Hdirs in Hpb. by apply elem_of_map_to_list in Hpb.
    - intros (p & Hp). split; [|set_solver].
      apply list_elem_of_fmap. exists (p, bucket). split; [done|].
      rewrite Hdirs. by apply elem_of_map_to_list. }
  unfold uploadMediaFilesToNextcloud1.
  destruct (directoryWorker_run roundTrip newRequestError (nextcloudURL cfg)
              (getUniqueDirectoryToBecreatedOnNextCloud (directoryOrder myMap)) st)
    as (perDirectory & Ht1 & Hr1 & Hf1).
  set (st1 := directoryWorker roundTrip newRequestError (nextcloudURL cfg)
                (getUniqueDirectoryToBecreatedOnNextCloud (directoryOrder myMap)) st) in *.
  destruct (worker_run roundTrip newRequestError openError cwd (nextcloudURL cfg)
              (jobOrder myMap) st1) as (perEntry & Ht2 & Hr2).
  destruct (work_counters roundTrip newRequestError openError cwd (nextcloudURL cfg)
              (mediaJobs (jobOrder myMap)) st1) as (Hp & _).
  assert (length (mediaJobs (jobOrder myMap)) = size myMap) as Hlen.
  { unfold mediaJobs. rewrite length_fmap, Hjobs. apply length_map_to_list. }
  exists perDirectory, perEntry. rewrite Ht2, Ht1, <- app_assoc. split_and?; try done.
  rewrite Hp, Hf1. lia.
Qed.

(** A run over two media files without usable sidecar, the directories
    collected in one order of the map and the jobs sent in the other. *)
Lemma main_sends_only_the_index_witness :
  match mainOrdered GoTime.UTC Photos.walkEntries Photos.readSidecar Photos.readMedia
          (always 201 "201 Created") noError2 noError1 "/"
          map_to_list (fun myMap => reverse (map_to_list myMap))
          (Photos.cfg "/photos/faulty") (initState tt) with
  | ExitFatal _ => False
  | Exit0 index st' => size index = 2%nat /\ finishCounter st' = 2
  end.
Proof.
  pose proof (main_sends_only_the_index unit GoTime.UTC Photos.walkEntries Photos.readSidecar
                Photos.readMedia (always 201 "201 Created") noError2 noError1 "/"
                map_to_list (fun myMap => reverse (map_to_list myMap))
                (Photos.cfg "/photos/faulty") (initState tt)) as Hrun.
  cbv zeta in Hrun.
  specialize (Hrun ltac:(reflexivity) ltac:(apply reverse_Permutation)).
  destruct (mainOrdered _ _ _ _ _ _ _ _ _ _ _ _) as [msg|index st'].
  - destruct Hrun as [H|[H|[H|H]]]; discriminate H.
  - destruct Hrun as (-> & _ & _ & perDirectory & perEntry & _ & _ & _ & ->).
    split; vm_compute; reflexivity.
Defined.

(** * The paths of the walk and the keys of the sidecars *)

Lemma Clean_unfold (path : string) :
  Filepath.Clean path
  = renderPath (GoStrings.HasPrefix path "/")
      (rev (fold_left (Filepath.cleanStep (GoStrings.HasPrefix path "/"))
              (GoStrings.Split path "/") [])).
Proof. reflexivity. Qed.

Lemma Contains_slash_cons (a : ascii) (s : string) :
  GoStrings.Contains (String a s) "/" = Ascii.eqb a "/" || GoStrings.Contains s "/".
Proof.
  rewrite Contains_cons. f_equal. simpl. destruct (Ascii.eqb a "/"); [by destruct s|done].
Qed.

Lemma HasPrefix_slash_cons (a : ascii) (s : string) :
  GoStrings.HasPrefix (String a s) "/" = Ascii.eqb a "/".
Proof. simpl. destruct (Ascii.eqb a "/"); [by destruct s|done]. Qed.

Lemma HasPrefix_slash_app (s : string) : GoStrings.HasPrefix ("/" ++ s)%string "/" = true.
Proof. change ("/" ++ s)%string with (String "/" s). apply HasPrefix_slash_cons. Qed.

Lemma SplitByte_plain (n : string) :
  GoStrings.Contains n "/" = false -> GoStrings.SplitByte n "/" = (n, []).
Proof.
  induction n as [|a n IH]; [done|]. rewrite Contains_slash_cons.
  intros [Ha Hn]%orb_false_iff. simpl. by rewrite (IH Hn), Ha.
Qed.

Lemma Split_plain (n : string) :
  GoStrings.Contains n "/" = false -> GoStrings.Split n "/" = [n].
Proof. intros H. unfold GoStrings.Split. by rewrite SplitByte_plain. Qed.

Lemma SplitByte_app_slash (a b : string) :
  GoStrings.SplitByte (a ++ "/" ++ b)%string "/"
  = ((GoStrings.SplitByte a "/").1, (GoStrings.SplitByte a "/").2 ++ GoStrings.Split b "/").
Proof.
  induction a as [|c a IH].
  - change ("" ++ "/" ++ b)%string with (String "/" b). unfold GoStrings.Split. simpl.
    by destruct (GoStrings.SplitByte b "/").
  - rewrite append_cons. simpl. rewrite IH.
    destruct (GoStrings.SplitByte a "/") as [hd tl]. simpl.
    by destruct (Ascii.eqb c "/").
Qed.

Lemma Split_app_slash (a b : string) :
  GoStrings.Split (a ++ "/" ++ b)%string "/" = GoStrings.Split a "/" ++ GoStrings.Split b "/".
Proof.
  unfold GoStrings.Split at 1 2. rewrite SplitByte_app_slash.
  by destruct (GoStrings.SplitByte a "/").
Qed.

Lemma plainName_spec (n : string) :
  plainName n = true
  <-> n <> "" /\ n <> "." /\ n <> ".." /\ GoStrings.Contains n "/" = false.
Proof.
  unfold plainName. rewrite !andb_true_iff, !negb_true_iff, !String.eqb_neq. tauto.
Qed.

Lemma cleanStep_plain (rooted : bool) (acc : list string) (n : string) :
  plainName n = true -> Filepath.cleanStep rooted acc n = n :: acc.
Proof.
  intros (H1 & H2 & H3 & _)%plainName_spec. unfold Filepath.cleanStep.
  apply String.eqb_neq in H1, H2, H3. by rewrite H1, H2, H3.
Qed.

Lemma cleanAcc_nil (rooted : bool) : cleanAcc rooted [].
Proof. exists [], []. by split_and?. Qed.

Lemma cleanAcc_tail (rooted : bool) (e : string) (acc : list string) :
  cleanAcc rooted (e :: acc) -> cleanAcc rooted acc.
Proof.
  intros (names & dots & Heq & Hn & Hd & Hr). destruct names as [|n names].
  - simpl in Heq. subst dots. apply Forall_cons in Hd as [_ Hd].
    exists [], acc. split_and?; try done. intros Ht. by specialize (Hr Ht).
  - injection Heq as -> ->. apply Forall_cons in Hn as [_ Hn].
    by exists names, dots.
Qed.

Lemma cleanAcc_head (rooted : bool) (e : string) (acc : list string) :
  cleanAcc rooted (e :: acc) ->
  plainName e = true
  \/ (e = ".." /\ rooted = false /\ Forall (fun d => d = "..") acc).
Proof.
  intros (names & dots & Heq & Hn & Hd & Hr). destruct names as [|n names].
  - right. simpl in Heq. subst dots. apply Forall_cons in Hd as [-> Hd].
    split_and?; try done. destruct rooted; [|done]. by specialize (Hr eq_refl).
  - left. injection Heq as -> ->. by apply Forall_cons in Hn as [? _].
Qed.

Lemma cleanStep_keeps (rooted : bool) (acc : list string) (e : string) :
  cleanAcc rooted acc -> GoStrings.Contains e "/" = false ->
  cleanAcc rooted (Filepath.cleanStep rooted acc e).
Proof.
  intros Hacc He. unfold Filepath.cleanStep.
  destruct (String.eqb_spec e "") as [->|H1]; [done|].
  destruct (String.eqb_spec e ".") as [->|H2]; [done|]. simpl.
  destruct (String.eqb_spec e "..") as [->|H3].
  - destruct acc as [|top rest].
    + destruct rooted; [apply cleanAcc_nil|].
      exists [], [".."]. split_and?; try done. by repeat constructor.
    + destruct (String.eqb_spec top "..") as [->|Ht].
      * destruct (cleanAcc_head _ _ _ Hacc) as [Hp|(_ & Hr & Hd)]; [done|].
        exists [], (".." :: ".." :: rest). split_and?; try done.
        -- by repeat constructor.
        -- by rewrite Hr.
      * by apply cleanAcc_tail in Hacc.
  - destruct Hacc as (names & dots & -> & Hn & Hd & Hr).
    exists (e :: names), dots. split_and?; try done.
    constructor; [|done]. by apply plainName_spec.
Qed.

Lemma fold_cleanStep_keeps (rooted : bool) (l : list string) :
  forall acc : list string,
    cleanAcc rooted acc -> Forall (fun e => GoStrings.Contains e "/" = false) l ->
    cleanAcc rooted (fold_left (Filepath.cleanStep rooted) l acc).
Proof.
  induction l as [|e l IH]; intros acc Hacc Hl; [done|].
  apply Forall_cons in Hl as [He Hl]. simpl. apply IH; [|done].
  by apply cleanStep_keeps.
Qed.

(** Cleaning clean elements changes nothing. *)
Lemma fold_cleanStep_clean (rooted : bool) (acc : list string) :
  cleanAcc rooted acc ->
  fold_left (Filepath.cleanStep rooted) (rev acc) [] = acc.
Proof.
  induction acc as [|e acc IH]; intros Hacc; [done|].
  simpl. rewrite fold_left_app. simpl. rewrite IH by by eapply cleanAcc_tail.
  destruct (cleanAcc_head _ _ _ Hacc) as [Hp|(-> & -> & Hd)].
  - by apply cleanStep_plain.
  - unfold Filepath.cleanStep. simpl. destruct acc as [|top rest]; [done|].
    apply Forall_cons in Hd as [-> _]. done.
Qed.

Lemma cleanAcc_elems (rooted : bool) (acc : list string) :
  cleanAcc rooted acc ->
  Forall (fun e => e <> "" /\ GoStrings.Contains e "/" = false) acc.
Proof.
  intros (names & dots & -> & Hn & Hd & _). apply Forall_app. split.
  - eapply Forall_impl; [exact Hn|]. intros n Hp. apply plainName_spec in Hp. tauto.
  - eapply Forall_impl; [exact Hd|]. by intros d ->.
Qed.

(** Joining and splitting elements without slashes. *)
Lemma Join_snoc (elems : list string) (m : string) :
  GoStrings.Join (elems ++ [m]) "/" = (slashed elems ++ m)%string.
Proof.
  induction elems as [|e elems IH]; [done|].
  change ((e :: elems) ++ [m]) with (e :: (elems ++ [m])).
  change (slashed (e :: elems)) with (e ++ "/" ++ slashed elems)%string.
  rewrite !append_assoc, <- IH. by destruct elems.
Qed.

Lemma Split_slashed (elems : list string) (m : string) :
  Forall (fun e => e <> "" /\ GoStrings.Contains e "/" = false) elems ->
  GoStrings.Contains m "/" = false ->
  GoStrings.Split (slashed elems ++ m)%string "/" = elems ++ [m].
Proof.
  intros He Hm. induction He as [|e elems [_ H] He IH]; [by apply Split_plain|].
  change (slashed (e :: elems)) with (e ++ "/" ++ slashed elems)%string.
  rewrite !append_assoc, Split_app_slash, IH, Split_plain; done.
Qed.

Lemma HasPrefix_slash_append (e s : string) :
  e <> "" -> GoStrings.Contains e "/" = false ->
  GoStrings.HasPrefix (e ++ s)%string "/" = false.
Proof.
  destruct e as [|a e]; [done|]. intros _. rewrite Contains_slash_cons.
  intros [Ha _]%orb_false_iff. rewrite append_cons. simpl. by rewrite Ha.
Qed.

Lemma slashed_rooted (elems : list string) (m : string) :
  Forall (fun e => e <> "" /\ GoStrings.Contains e "/" = false) elems ->
  (m = "" \/ (m <> "" /\ GoStrings.Contains m "/" = false)) ->
  GoStrings.HasPrefix (slashed elems ++ m)%string "/" = false.
Proof.
  intros He Hm. destruct He as [|e elems [H1 H2] He].
  - change (slashed [] ++ m)%string with m.
    destruct Hm as [->|[H1 H2]]; [done|]. rewrite <- (append_nil_r m).
    by apply HasPrefix_slash_append.
  - change (slashed (e :: elems)) with (e ++ "/" ++ slashed elems)%string.
    rewrite append_assoc. by apply HasPrefix_slash_append.
Qed.

Lemma append_not_empty_r (s m : string) : m <> "" -> (s ++ m)%string <> "".
Proof. destruct s; [done|]. by rewrite append_cons. Qed.

(** The text of a clean path that ends in the element [m]. *)
Lemma renderPath_snoc (rooted : bool) (elems : list string) (m : string) :
  m <> "" ->
  renderPath rooted (elems ++ [m])
  = ((if rooted then "/" else "") ++ slashed elems ++ m)%string.
Proof.
  intros Hm. unfold renderPath. rewrite Join_snoc. destruct rooted; [done|].
  pose proof (append_not_empty_r (slashed elems) m Hm).
  by destruct (slashed elems ++ m)%string.
Qed.

Lemma dirPart_cons (a : ascii) (s : string) :
  Filepath.dirPart (String a s)
  = if GoStrings.Contains (String a s) "/" then String a (Filepath.dirPart s) else "".
Proof. reflexivity. Qed.

Lemma dirPart_append (s m : string) :
  GoStrings.Contains m "/" = false ->
  (s = "" \/ exists t, s = (t ++ "/")%string) ->
  Filepath.dirPart (s ++ m)%string = s.
Proof.
  intros Hm. induction s as [|a s IH]; intros Hs.
  - destruct m as [|b m]; [done|].
    change ("" ++ String b m)%string with (String b m).
    by rewrite dirPart_cons, Hm.
  - destruct Hs as [Hs|[t Ht]]; [done|].
    assert (GoStrings.Contains (String a s ++ m)%string "/" = true) as Hc.
    { rewrite Ht. clear. induction t as [|c t IHt].
      { change (("" ++ "/") ++ m)%string with (String "/" m).
        by rewrite Contains_slash_cons. }
      rewrite !append_cons, Contains_slash_cons, IHt. apply orb_true_r. }
    rewrite append_cons in *. rewrite dirPart_cons, Hc. f_equal.
    apply IH. destruct t as [|c t].
    + left. by injection Ht.
    + right. exists t. rewrite append_cons in Ht. by injection Ht.
Qed.

Lemma slashed_ends (elems : list string) :
  slashed elems = "" \/ exists t, slashed elems = (t ++ "/")%string.
Proof.
  induction elems as [|e elems IH]; [by left|]. right.
  change (slashed (e :: elems)) with (e ++ "/" ++ slashed elems)%string.
  destruct IH as [->|[t ->]].
  - exists e. by rewrite append_nil_r.
  - exists (e ++ "/" ++ t)%string. by rewrite !append_assoc.
Qed.

Lemma fold_cleanStep_skip (rooted : bool) (l acc : list string) :
  Forall (fun e => e = "" \/ e = ".") l ->
  fold_left (Filepath.cleanStep rooted) l acc = acc.
Proof.
  intros Hl. revert acc. induction Hl as [|e l [->| ->] Hl IH]; intros acc; [done|..];
    simpl; apply IH.
Qed.

Lemma fold_cleanStep_padded (rooted : bool) (acc pre post : list string) :
  cleanAcc rooted acc ->
  Forall (fun e => e = "" \/ e = ".") pre -> Forall (fun e => e = "" \/ e = ".") post ->
  fold_left (Filepath.cleanStep rooted) (pre ++ rev acc ++ post) [] = acc.
Proof.
  intros Hacc Hpre Hpost.
  rewrite !fold_left_app, (fold_cleanStep_skip _ pre) by done.
  by rewrite fold_cleanStep_clean, fold_cleanStep_skip.
Qed.

(** What [filepath.Join] makes of a non-empty path and a name. *)
Lemma Join_plain (a n : string) :
  a <> "" -> plainName n = true ->
  Filepath.Join a n
  = renderPath (GoStrings.HasPrefix a "/")
      (rev (fold_left (Filepath.cleanStep (GoStrings.HasPrefix a "/"))
              (GoStrings.Split a "/") []) ++ [n]).
Proof.
  intros Ha Hn. destruct a as [|c a]; [done|]. unfold Filepath.Join.
  rewrite Clean_unfold.
  assert (GoStrings.HasPrefix (String c a ++ "/" ++ n)%string "/"
          = GoStrings.HasPrefix (String c a) "/") as ->
    by (by rewrite append_cons, !HasPrefix_slash_cons).
  rewrite Split_app_slash, (Split_plain n) by (apply plainName_spec in Hn; tauto).
  rewrite fold_left_app. simpl fold_left at 1. by rewrite cleanStep_plain.
Qed.

Lemma Join_any (d n : string) :
  plainName n = true ->
  Filepath.Join d n
  = renderPath (GoStrings.HasPrefix d "/")
      (rev (fold_left (Filepath.cleanStep (GoStrings.HasPrefix d "/"))
              (GoStrings.Split d "/") []) ++ [n]).
Proof.
  intros Hn. destruct d as [|c d]; [|by apply Join_plain].
  pose proof Hn as (H1 & _ & _ & H4)%plainName_spec.
  unfold Filepath.Join. destruct n as [|b n]; [done|].
  rewrite Clean_unfold.
  assert (GoStrings.HasPrefix (String b n) "/" = false) as ->.
  { rewrite HasPrefix_slash_cons. rewrite Contains_slash_cons in H4.
    by apply orb_false_iff in H4 as [? _]. }
  rewrite Split_plain by done. simpl fold_left. by rewrite cleanStep_plain.
Qed.

Lemma cleanAcc_of_path (d : string) (rooted : bool) :
  cleanAcc rooted (fold_left (Filepath.cleanStep rooted) (GoStrings.Split d "/") []).
Proof.
  apply fold_cleanStep_keeps; [apply cleanAcc_nil|].
  apply Forall_forall. intros e He. by apply (Split_no_separator d).
Qed.

Lemma renderPath_not_empty (rooted : bool) (elems : list string) :
  renderPath rooted elems <> "".
Proof.
  unfold renderPath. destruct rooted; [done|]. by destruct (GoStrings.Join elems "/").
Qed.

(** The text of a clean path, its first byte, and its elements. *)
Lemma renderPath_parts (rooted : bool) (acc : list string) :
  cleanAcc rooted acc ->
  GoStrings.HasPrefix (renderPath rooted (rev acc)) "/" = rooted
  /\ fold_left (Filepath.cleanStep rooted)
       (GoStrings.Split (renderPath rooted (rev acc)) "/") [] = acc.
Proof.
  intros clean. pose proof (cleanAcc_elems _ _ clean) as Helems.
  destruct acc as [|m acc'].
  { destruct rooted; by vm_compute. }
  apply Forall_cons in Helems as [[Hm1 Hm2] Helems]. apply Forall_rev in Helems.
  change (rev (m :: acc')) with (rev acc' ++ [m]) at 1 2.
  rewrite renderPath_snoc by done.
  destruct rooted.
  - split; [apply HasPrefix_slash_app|].
    change ("/" ++ slashed (rev acc') ++ m)%string
      with ("" ++ "/" ++ (slashed (rev acc') ++ m))%string.
    rewrite Split_app_slash, Split_slashed by done.
    change (GoStrings.Split "" "/") with [""].
    change (rev acc' ++ [m]) with (rev (m :: acc')).
    rewrite <- (app_nil_r (rev (m :: acc'))).
    apply fold_cleanStep_padded; [done|by repeat constructor|done].
  - change ("" ++ slashed (rev acc') ++ m)%string with (slashed (rev acc') ++ m)%string.
    split; [apply slashed_rooted; [done|by right]|].
    rewrite Split_slashed by done.
    change (rev acc' ++ [m]) with (rev (m :: acc')).
    rewrite <- (app_nil_r (rev (m :: acc'))).
    by apply (fold_cleanStep_padded _ _ []).
Qed.

(** [filepath.Join] with a clean path appends the name. *)
Lemma Join_render (rooted : bool) (acc : list string) (n : string) :
  cleanAcc rooted acc -> plainName n = true ->
  Filepath.Join (renderPath rooted (rev acc)) n = renderPath rooted (rev acc ++ [n]).
Proof.
  intros clean Hn. rewrite Join_plain by (done || apply renderPath_not_empty).
  by destruct (renderPath_parts rooted acc clean) as [-> ->].
Qed.

(** [filepath.Dir] of a clean path takes its last element off. *)
Lemma Dir_render (rooted : bool) (acc : list string) (m : string) :
  cleanAcc rooted acc -> plainName m = true ->
  Filepath.Dir (renderPath rooted (rev acc ++ [m])) = renderPath rooted (rev acc).
Proof.
  intros clean (H1 & _ & _ & H4)%plainName_spec. unfold Filepath.Dir.
  pose proof (cleanAcc_elems _ _ clean) as Helems. apply Forall_rev in Helems.
  rewrite renderPath_snoc, <- append_assoc by done.
  rewrite dirPart_append; [|done|].
  2: { destruct rooted.
       - right. destruct (slashed_ends (rev acc)) as [->|[t ->]]; [by exists ""|].
         exists ("/" ++ t)%string. by rewrite append_assoc.
       - destruct (slashed_ends (rev acc)) as [->|[t ->]]; [by left|]. right. by exists t. }
  rewrite Clean_unfold.
  assert (GoStrings.HasPrefix ((if rooted then "/" else "") ++ slashed (rev acc))%string "/"
          = rooted) as ->.
  { destruct rooted; [apply HasPrefix_slash_app|].
    change ("" ++ slashed (rev acc))%string with (slashed (rev acc)).
    rewrite <- (append_nil_r (slashed (rev acc))). apply slashed_rooted; [done|by left]. }
  f_equal. f_equal.
  assert (GoStrings.Split (slashed (rev acc)) "/" = rev acc ++ [""]) as Hs.
  { rewrite <- (append_nil_r (slashed (rev acc))). by apply Split_slashed. }
  destruct rooted.
  - change ("/" ++ slashed (rev acc))%string with ("" ++ "/" ++ slashed (rev acc))%string.
    rewrite Split_app_slash, Hs. change (GoStrings.Split "" "/") with [""].
    apply fold_cleanStep_padded; [done|by repeat constructor..].
  - change ("" ++ slashed (rev acc))%string with (slashed (rev acc)). rewrite Hs.
    apply (fold_cleanStep_padded _ _ []); [done|done|by repeat constructor].
Qed.

(** The key of a sidecar is the path of its media file: for a media file
    [name] that the walk lists under a directory as [Join(dir, name)], a
    sidecar in the same directory, listed as [Join(dir, name ++ suffix)],
    whose title is [name] writes its entry under exactly that path, whatever
    the text of [dir]. This is what makes the fallback phase pass over the
    media files a sidecar has dated. *)
Theorem sidecar_key_is_the_walk_path
    (dir name suffix : string) (metadata : PhotoMetadata) :
  plainName name = true -> plainName (name ++ suffix) = true ->
  Title metadata = name ->
  sidecarTarget (Filepath.Join dir (name ++ suffix)) metadata = Filepath.Join dir name.
Proof.
  intros Hn Hs Ht. unfold sidecarTarget. rewrite Ht.
  rewrite (Join_any dir (name ++ suffix)), (Join_any dir name) by done.
  pose proof (cleanAcc_of_path dir (GoStrings.HasPrefix dir "/")) as Hc.
  rewrite Dir_render by done.
  by apply Join_render.
Qed.

Lemma sidecar_key_witness :
  sidecarTarget (Filepath.Join "./photos//2019/" "IMG_1.jpg.supplemental-metadata.json")
    {| Title := "IMG_1.jpg";
       CreationTime := {| Timestamp := ""; Formatted := "" |};
       PhotoTakenTime := {| Timestamp := "1600000000"; Formatted := "" |} |}
  = Filepath.Join "./photos//2019/" "IMG_1.jpg".
Proof.
  apply (sidecar_key_is_the_walk_path "./photos//2019/" "IMG_1.jpg"
           ".supplemental-metadata.json"); reflexivity.
Defined.

(** * The head of [main] *)

(** How [main] starts. It ends in [log.Fatal] iff one of the four settings
    [NEXTCLOUD_URL], [NEXTCLOUD_USER], [NEXTCLOUD_PASSWORD] and [PHOTOS_DIR]
    is unset or empty; [PARALLEL_UPLOADS] is never reported missing, because
    an unset or empty value is replaced by ["1"] before the test. With the
    four settings in place, a value of [PARALLEL_UPLOADS] that is not a
    decimal integer makes [main] print the conversion error and return,
    without a fatal error and before any file is read; otherwise the run
    goes on with the four settings as they are in the environment and with
    as many workers as the value says, one when it is unset or empty. *)
Theorem main_reads_its_settings (environ : gmap string string) :
  let required := ["NEXTCLOUD_URL"; "NEXTCLOUD_USER"; "NEXTCLOUD_PASSWORD"; "PHOTOS_DIR"] in
  let parallel := Getenv environ "PARALLEL_UPLOADS" in
  match mainPrologue environ with
  | PrologueFatal _ => exists key, key ∈ required /\ Getenv environ key = ""
  | PrologueReturn _ =>
      Forall (fun key => Getenv environ key <> "") required
      /\ parallel <> "" /\ GoTime.Atoi parallel = None
  | PrologueRun cfg parallelUploads =>
      Forall (fun key => Getenv environ key <> "") required
      /\ cfg = {| nextcloudURL := Getenv environ "NEXTCLOUD_URL";
                  username := Getenv environ "NEXTCLOUD_USER";
                  password := Getenv environ "NEXTCLOUD_PASSWORD";
                  photosDir := Getenv environ "PHOTOS_DIR" |}
      /\ (parallel = "" -> parallelUploads = 1)
      /\ (parallel <> "" -> GoTime.Atoi parallel = Some parallelUploads)
  end.
Proof.
  unfold mainPrologue, GetEnvWithDefault. cbv zeta.
  assert (forall key, Getenv environ key <> "" -> String.eqb (Getenv environ key) "" = false)
    as Hne by (intros key; apply String.eqb_neq).
  destruct (String.eqb_spec (Getenv environ "NEXTCLOUD_URL") "") as [H1|H1].
  { simpl. exists "NEXTCLOUD_URL". split; [|done]. set_solver. }
  destruct (String.eqb_spec (Getenv environ "NEXTCLOUD_USER") "") as [H2|H2].
  { simpl. rewrite orb_true_r. exists "NEXTCLOUD_USER". split; [|done]. set_solver. }
  destruct (String.eqb_spec (Getenv environ "NEXTCLOUD_PASSWORD") "") as [H3|H3].
  { simpl. rewrite !orb_true_r. exists "NEXTCLOUD_PASSWORD". split; [|done]. set_solver. }
  destruct (String.eqb_spec (Getenv environ "PHOTOS_DIR") "") as [H4|H4].
  { simpl. rewrite !orb_true_r. exists "PHOTOS_DIR". split; [|done]. set_solver. }
  rewrite !Hne by done. simpl.
  assert (Forall (fun key => Getenv environ key <> "")
            ["NEXTCLOUD_URL"; "NEXTCLOUD_USER"; "NEXTCLOUD_PASSWORD"; "PHOTOS_DIR"])
    as Hall by (by repeat constructor).
  destruct (String.eqb_spec (Getenv environ "PARALLEL_UPLOADS") "") as [H5|H5]; simpl.
  - replace (GoTime.Atoi "1") with (Some 1) by (by vm_compute).
    split_and?; try done.
  - rewrite (Hne _ H5).
    destruct (GoTime.Atoi (Getenv environ "PARALLEL_UPLOADS")) as [n|] eqn:Hn.
    + split_and?; try done.
    + split_and?; try done.
Qed.
